(** * beast.observationmodel.observations

    A shallow embedding of [src/beast/observationmodel/observations.py]:
    the [Observations] catalog interface and the simulated-observation
    generator [gen_SimObs_from_sedgrid].

    Numbers are IEEE binary64 values (numpy's [float64], Rocq's primitive
    [float]); arrays are lists; Python exceptions are a [result] type; the
    process-wide numpy random state and standard output are threaded through
    a state-and-exception monad.  What the source takes from other libraries
    without defining it (the bit generator behind [np.random], [np.log10],
    [np.sum], the Vega reference fluxes) is a field of the class [NumpyEnv]. *)

From Stdlib Require Import Floats ZArith String Ascii Bool Lia PeanoNat List.
Import ListNotations.

Set Implicit Arguments.

(** ** Python exceptions and results *)

Inductive exn : Type :=
| NotImplementedError (msg : string)
| ValueError (msg : string)
| KeyError (key : string)
| IndexError
| TypeError
| AttributeError (msg : string).

Inductive result (A : Type) : Type :=
| Ok (a : A)
| Raise (e : exn).

Arguments Ok {A} a.
Arguments Raise {A} e.

Definition rbind {A B : Type} (r : result A) (k : A -> result B) : result B :=
  match r with
  | Ok a => k a
  | Raise e => Raise e
  end.

Definition is_ok {A : Type} (r : result A) : bool :=
  match r with Ok _ => true | Raise _ => false end.

(** [traverse f xs]: apply [f] left to right, stop at the first exception. *)
Fixpoint traverse {A B : Type} (f : A -> result B) (xs : list A) : result (list B) :=
  match xs with
  | [] => Ok []
  | x :: r =>
      rbind (f x) (fun y => rbind (traverse f r) (fun ys => Ok (y :: ys)))
  end.

(** ** binary64 constants and classes *)

Module F64.

Local Open Scope float_scope.

(** The literal [-99.999] of the source, as the binary64 value Python reads. *)
Definition sentinel : float := (-0x1.8ffef9db22d0ep+6)%float.

(** The literal [2.5]; the source writes [-2.5 * np.log10(...)]. *)
Definition two_and_half : float := 2.5%float.

(** [np.sqrt(np.finfo(np.float64).eps)], the tolerance of numpy's check of
    a probability vector: the square root of 2^-52. *)
Definition atol : float := 0x1p-26%float.

Definition gt0 (x : float) : bool := (0 <? x).
Definition le0 (x : float) : bool := (x <=? 0).
Definition lt0 (x : float) : bool := (x <? 0).
Definition ge0 (x : float) : bool := (0 <=? x).

(** A sum is degenerate when it is zero (of either sign) or not finite. *)
Definition degenerate (s : float) : bool := is_zero s || negb (is_finite s).

(** On the specification side: everything but a non-zero finite number. *)
Definition special (x : spec_float) : bool :=
  match x with
  | S754_finite _ _ _ => false
  | _ => true
  end.

Definition sf_nan (x : spec_float) : bool :=
  match x with
  | S754_nan => true
  | _ => false
  end.

Definition sf_zero (x : spec_float) : bool :=
  match x with
  | S754_zero _ => true
  | _ => false
  end.

(** Numerically the same value: identical, or zeros of either sign. *)
Definition same_value (x y : float) : Prop :=
  x = y \/ (is_zero x = true /\ is_zero y = true).

End F64.

(** ** Strings: the methods of [str] the source calls (ASCII) *)

Module Str.

Local Open Scope string_scope.

Definition is_lower (c : ascii) : bool :=
  let n := nat_of_ascii c in (97 <=? n)%nat && (n <=? 122)%nat.

Definition is_upper (c : ascii) : bool :=
  let n := nat_of_ascii c in (65 <=? n)%nat && (n <=? 90)%nat.

Definition upper_char (c : ascii) : ascii :=
  if is_lower c then ascii_of_nat (nat_of_ascii c - 32) else c.

Definition lower_char (c : ascii) : ascii :=
  if is_upper c then ascii_of_nat (nat_of_ascii c + 32) else c.

(** [s.upper()] and [s.lower()]. *)
Fixpoint upper (s : string) : string :=
  match s with
  | EmptyString => EmptyString
  | String c r => String (upper_char c) (upper r)
  end.

Fixpoint lower (s : string) : string :=
  match s with
  | EmptyString => EmptyString
  | String c r => String (lower_char c) (lower r)
  end.

(** [s.split(sep)] for a one-character separator: never empty. *)
Fixpoint split (sep : ascii) (s : string) : list string :=
  match s with
  | EmptyString => [EmptyString]
  | String c r =>
      if Ascii.eqb c sep then EmptyString :: split sep r
      else match split sep r with
           | t :: ts => String c t :: ts
           | [] => [String c EmptyString]
           end
  end.

Definition underscore : ascii := "_"%char.

(** [s.split(sep="_")[-1]] *)
Definition last_token (s : string) : string :=
  last (split underscore s) EmptyString.

(** [s.split(sep="_")[-1].upper()]: the band name of a filter. *)
Definition band (s : string) : string := upper (last_token s).

Fixpoint has_char (c : ascii) (s : string) : bool :=
  match s with
  | EmptyString => false
  | String d r => Ascii.eqb d c || has_char c r
  end.

(** [x in xs] and [xs.index(x)] on a list of strings. *)
Definition mem (x : string) (xs : list string) : bool :=
  existsb (String.eqb x) xs.

Fixpoint index (x : string) (xs : list string) : option nat :=
  match xs with
  | [] => None
  | y :: r => if String.eqb y x then Some 0
              else option_map S (index x r)
  end.

(** ["\n".join(xs)] *)
Definition newline : string := String (ascii_of_nat 10) EmptyString.
Definition join_lines (xs : list string) : string := String.concat newline xs.

End Str.

(** ** numpy arrays as lists *)

Module Np.

Local Open Scope string_scope.
Local Open Scope float_scope.

Definition array : Type := list float.
Definition array2 : Type := list (list float).

Definition nth_or_raise {A : Type} (xs : list A) (i : nat) : result A :=
  match nth_error xs i with
  | Some x => Ok x
  | None => Raise IndexError
  end.

(** The pairs of operands of an element-wise binary operation, with
    numpy's broadcasting of a length-one operand; other length mismatches
    raise. *)
Definition broadcast_pairs (a b : array) : result (list (float * float)) :=
  if (length a =? length b)%nat then Ok (combine a b)
  else match a, b with
       | [x], _ => Ok (map (fun y => (x, y)) b)
       | _, [y] => Ok (map (fun x => (x, y)) a)
       | _, _ => Raise (ValueError "operands could not be broadcast together")
       end.

Definition broadcast (op : float -> float -> float) (a b : array) : result array :=
  rbind (broadcast_pairs a b)
        (fun ps => Ok (map (fun xy => op (fst xy) (snd xy)) ps)).

Definition mul : array -> array -> result array := broadcast PrimFloat.mul.
Definition add : array -> array -> result array := broadcast PrimFloat.add.

(** [a / s] for a scalar [s]. *)
Definition div_scalar (a : array) (s : float) : array :=
  map (fun x => x / s) a.

(** [np.fabs] on a two-dimensional array. *)
Definition fabs2 (a : array2) : array2 := map (map abs) a.

(** [np.maximum]: the first operand when it is the larger one or a NaN. *)
Definition maximum (a b : float) : float :=
  if (b <=? a) || is_nan a then a else b.

Definition max_row (row : array) : result float :=
  match row with
  | [] => Raise (ValueError "zero-size array to reduction operation maximum which has no identity")
  | x :: r => Ok (fold_left maximum r x)
  end.

(** [np.max(a, axis=1)] *)
Definition max_axis1 (a : array2) : result array := traverse max_row a.

(** [a[:, k]] *)
Definition column (a : array2) (k : nat) : result array :=
  traverse (fun row => nth_or_raise row k) a.

(** [a[idx]] for an index array [idx]. *)
Definition take (a : array) (idx : list nat) : result array :=
  traverse (nth_or_raise a) idx.

(** [a[idx, k]] for an index array [idx] and a column number [k]. *)
Definition take2 (a : array2) (idx : list nat) (k : nat) : result array :=
  traverse (fun i => rbind (nth_or_raise a i) (fun row => nth_or_raise row k)) idx.

(** [a[mask]] for a boolean mask of the same length. *)
Fixpoint compress (a : array) (m : list bool) : array :=
  match a, m with
  | x :: a', b :: m' => if b then x :: compress a' m' else compress a' m'
  | _, _ => []
  end.

Definition count_true (m : list bool) : nat := length (filter (fun b => b) m).

Fixpoint scatter (a : array) (m : list bool) (vals : array) : array :=
  match a, m with
  | x :: a', b :: m' =>
      if b then match vals with
                | v :: vs => v :: scatter a' m' vs
                | [] => x :: scatter a' m' []
                end
      else x :: scatter a' m' vals
  | _, _ => a
  end.

(** [a[mask] = vals]: the values fill the selected places in order. *)
Definition put_mask (a : array) (m : list bool) (vals : array) : result array :=
  if (length vals =? count_true m)%nat then Ok (scatter a m vals)
  else Raise (ValueError "NumPy boolean array indexing assignment cannot assign input values to the output values where the mask is true").

(** [a[mask] = v] for a scalar [v]. *)
Fixpoint put_mask_scalar (a : array) (m : list bool) (v : float) : array :=
  match a, m with
  | x :: a', b :: m' => (if b then v else x) :: put_mask_scalar a' m' v
  | _, _ => a
  end.

(** Python's built-in [min] and [max] over the elements of an array. *)
Definition py_min (a : array) : result float :=
  match a with
  | [] => Raise (ValueError "min() arg is an empty sequence")
  | x :: r => Ok (fold_left (fun m y => if y <? m then y else m) r x)
  end.

Definition py_max (a : array) : result float :=
  match a with
  | [] => Raise (ValueError "max() arg is an empty sequence")
  | x :: r => Ok (fold_left (fun m y => if m <? y then y else m) r x)
  end.

(** The compensated sum numpy's [choice] takes of the probabilities. *)
Fixpoint kahan_loop (xs : array) (sum c : float) : float :=
  match xs with
  | [] => sum
  | x :: r =>
      let y := x - c in
      let t := sum + y in
      kahan_loop r t ((t - sum) - y)
  end.

Definition kahan_sum (p : array) : float :=
  match p with
  | [] => 0
  | x :: r => kahan_loop r x 0
  end.

End Np.

(** ** astropy tables: named columns in insertion order *)

Module Tbl.

Local Open Scope string_scope.

Definition Column : Type := list float.
Definition Table : Type := list (string * Column).

Definition colnames (ot : Table) : list string := map fst ot.

(** [len(ot)]: the length of the columns, 0 for a table without columns. *)
Definition nrows (ot : Table) : nat :=
  match ot with
  | [] => 0
  | (_, c) :: _ => length c
  end.

Fixpoint lookup (ot : Table) (name : string) : option Column :=
  match ot with
  | [] => None
  | (n, c) :: r => if String.eqb n name then Some c else lookup r name
  end.

(** [ot[name]] *)
Definition get (ot : Table) (name : string) : result Column :=
  match lookup ot name with
  | Some c => Ok c
  | None => Raise (KeyError name)
  end.

Fixpoint replace (ot : Table) (name : string) (c : Column) : Table :=
  match ot with
  | [] => []
  | (n, c0) :: r =>
      if String.eqb n name then (n, c) :: r else (n, c0) :: replace r name c
  end.

(** [ot[name] = Column(c)]: a new name is appended, an existing one keeps
    its place and gets the new data; a column of another length than the
    table's is refused. *)
Definition set (ot : Table) (name : string) (c : Column) : result Table :=
  match ot with
  | [] => Ok [(name, c)]
  | _ :: _ =>
      if negb (length c =? nrows ot)%nat
      then Raise (ValueError "Inconsistent data column lengths")
      else match lookup ot name with
           | Some _ => Ok (replace ot name c)
           | None => Ok (ot ++ [(name, c)])%list
           end
  end.

End Tbl.

(** ** The environment of the generator *)

(** What [observations.py] calls without defining it.  [bitgen] is the state
    of numpy's process-wide generator; [init_by_seed] is the state
    [np.random.seed(s)] installs; [draw_index g p] is one weighted draw of
    [np.random.choice] from the validated probabilities [p]; [gauss] is one
    standard normal deviate; [vega_getFlux source filters] is the flux array
    [Vega(source=...).getFlux(filters)] returns. *)
Class NumpyEnv : Type := {
  bitgen : Type;
  init_by_seed : Z -> bitgen;
  draw_index : bitgen -> list float -> nat * bitgen;
  gauss : bitgen -> float * bitgen;
  log10 : float -> float;
  np_sum : list float -> float;
  vega_getFlux : option string -> list string -> result (list float)
}.

(** A line written by [print]. *)
Inductive out_line : Type :=
| OutStr (s : string)
| OutFloats (xs : list float)
| OutArray (a : list float).

Section Generator.

Context {env : NumpyEnv}.

Local Open Scope string_scope.
Local Open Scope float_scope.

(** The state a call can observe or change besides its arguments: numpy's
    global generator, the operating system's entropy (the states an
    unseeded [np.random.seed(None)] would install, and how many were
    used), and standard output. *)
Record world : Type := {
  np_state : bitgen;
  entropy : nat -> bitgen;
  entropy_used : nat;
  stdout : list out_line
}.

Definition M (A : Type) : Type := world -> result A * world.

Definition ret {A : Type} (a : A) : M A := fun w => (Ok a, w).

Definition bind {A B : Type} (m : M A) (k : A -> M B) : M B :=
  fun w => match m w with
           | (Ok a, w') => k a w'
           | (Raise e, w') => (Raise e, w')
           end.

Definition lift {A : Type} (r : result A) : M A := fun w => (r, w).

Definition raise {A : Type} (e : exn) : M A := fun w => (Raise e, w).

Definition print (l : out_line) : M unit :=
  fun w => (Ok tt, {| np_state := np_state w;
                      entropy := entropy w;
                      entropy_used := entropy_used w;
                      stdout := (stdout w ++ [l])%list |}).

Definition set_np_state (g : bitgen) (w : world) : world :=
  {| np_state := g;
     entropy := entropy w;
     entropy_used := entropy_used w;
     stdout := stdout w |}.

Notation "x <- c ;; k" := (bind c (fun x => k))
  (at level 61, c at next level, right associativity).
Notation "c ;;; k" := (bind c (fun _ => k))
  (at level 61, right associativity).

(** [for x in xs: s = body(s, x)] *)
Fixpoint for_each {A S : Type} (xs : list A) (body : S -> A -> M S) (s : S) : M S :=
  match xs with
  | [] => ret s
  | x :: r => s' <- body s x ;; for_each r body s'
  end.

(** [enumerate(xs)] *)
Definition enumerate {A : Type} (xs : list A) : list (nat * A) :=
  combine (seq 0 (length xs)) xs.

(** *** numpy.random *)

Definition seed_in_range (s : Z) : bool := (0 <=? s)%Z && (s <? 2 ^ 32)%Z.

(** [np.random.seed(seed)]: an integer seed fixes the state; [None] takes
    a fresh state from the operating system. *)
Definition np_random_seed (seed : option Z) : M unit :=
  fun w =>
    match seed with
    | Some s =>
        if seed_in_range s then (Ok tt, set_np_state (init_by_seed s) w)
        else (Raise (ValueError "Seed must be between 0 and 2**32 - 1"), w)
    | None =>
        (Ok tt, {| np_state := entropy w (entropy_used w);
                   entropy := entropy w;
                   entropy_used := S (entropy_used w);
                   stdout := stdout w |})
    end.

Fixpoint draw_many (size : nat) (p : list float) (g : bitgen) : list nat * bitgen :=
  match size with
  | O => ([], g)
  | S n => let (i, g1) := draw_index g p in
           let (r, g2) := draw_many n p g1 in
           (i :: r, g2)
  end.

(** The checks [np.random.choice] makes of [p] before it draws. *)
Definition check_p (pop_size size : nat) (p : list float) : result unit :=
  if (pop_size =? 0)%nat && negb (size =? 0)%nat
  then Raise (ValueError "'a' cannot be empty unless no samples are taken")
  else if negb (length p =? pop_size)%nat
  then Raise (ValueError "'a' and 'p' must have same size")
  else let p_sum := Np.kahan_sum p in
       if is_nan p_sum
       then Raise (ValueError "probabilities contain NaN")
       else if existsb F64.lt0 p
       then Raise (ValueError "probabilities are not non-negative")
       else if F64.atol <? abs (p_sum - 1)
       then Raise (ValueError "probabilities do not sum to 1")
       else Ok tt.

(** [np.random.choice(range(pop_size), size=size, p=p)] *)
Definition np_random_choice (pop_size size : nat) (p : list float) : M (list nat) :=
  fun w =>
    match check_p pop_size size p with
    | Raise e => (Raise e, w)
    | Ok _ => let (idx, g) := draw_many size p (np_state w) in
              (Ok idx, set_np_state g w)
    end.

Fixpoint normal_loop (ls : list (float * float)) (g : bitgen) : list float * bitgen :=
  match ls with
  | [] => ([], g)
  | (loc, scale) :: r =>
      let (z, g1) := gauss g in
      let (xs, g2) := normal_loop r g1 in
      (loc + scale * z :: xs, g2)
  end.

(** [np.random.normal(loc=loc, scale=scale)] on arrays: a negative scale
    is refused; each element is [loc + scale * z] for its own deviate. *)
Definition np_random_normal (loc scale : Np.array) : M Np.array :=
  fun w =>
    if existsb F64.lt0 scale then (Raise (ValueError "scale < 0"), w)
    else match Np.broadcast_pairs loc scale with
         | Raise e => (Raise e, w)
         | Ok ls => let (xs, g) := normal_loop ls (np_state w) in
                    (Ok xs, set_np_state g w)
         end.

(** *** The model grid and the noise model *)

(** [sedgrid.seds] (one row per model, one column per filter),
    [sedgrid.filters], and the named columns behind [sedgrid.keys()] and
    [sedgrid[name]], in their declared order. *)
Record SEDGrid : Type := {
  seds : Np.array2;
  filters : list string;
  grid : list (string * Np.array)
}.

Definition keys (sedgrid : SEDGrid) : list string := map fst (grid sedgrid).

Definition getitem (sedgrid : SEDGrid) (name : string) : result Np.array :=
  Tbl.get (grid sedgrid) name.

(** [sedgrid_noisemodel["bias"]], [["error"]] and [["completeness"]]. *)
Record NoiseModel : Type := {
  bias : Np.array2;
  error : Np.array2;
  completeness : Np.array2
}.

(** *** gen_SimObs_from_sedgrid *)

Definition not_present_message (compl_filter : string) (short_filters : list string) : string :=
  "Requested completeness filter not present:"
  ++ Str.upper compl_filter
  ++ Str.newline ++ "Possible filters:"
  ++ Str.join_lines short_filters.

(** Lines 269-283: one completeness value per model. *)
Definition model_completeness (sedgrid : SEDGrid) (sedgrid_noisemodel : NoiseModel)
           (compl_filter : string) : M Np.array :=
  if String.eqb (Str.lower compl_filter) "max" then
    lift (Np.max_axis1 (completeness sedgrid_noisemodel))
  else
    let short_filters := map Str.band (filters sedgrid) in
    if negb (Str.mem (Str.upper compl_filter) short_filters) then
      raise (NotImplementedError (not_present_message compl_filter short_filters))
    else
      filter_k <- lift (match Str.index (Str.upper compl_filter) short_filters with
                        | Some k => Ok k
                        | None => Raise (ValueError "x not in list")
                        end) ;;
      fname <- lift (Np.nth_or_raise (filters sedgrid) filter_k) ;;
      print (OutStr ("Completeness from " ++ fname)) ;;;
      lift (Np.column (completeness sedgrid_noisemodel) filter_k).

(** Lines 291-293: the selection weights, normalised by their sum. *)
Definition gridweights (sedgrid : SEDGrid) (weight_to_use : string)
           (model_compl : Np.array) : result Np.array :=
  rbind (getitem sedgrid weight_to_use) (fun w =>
  rbind (Np.mul w model_compl) (fun gw =>
  Ok (Np.div_scalar gw (np_sum gw)))).

(** Lines 259-301: from the arguments to the indexes of the picked
    models; returns [model_compl] too, which the loop below prints. *)
Definition pick_models (sedgrid : SEDGrid) (sedgrid_noisemodel : NoiseModel)
           (nsim : nat) (compl_filter : string) (ranseed : option Z)
           (weight_to_use : string) : M (Np.array * list nat) :=
  let n_models := length (seds sedgrid) in
  model_compl <- model_completeness sedgrid sedgrid_noisemodel compl_filter ;;
  lo <- lift (Np.py_min model_compl) ;;
  hi <- lift (Np.py_max model_compl) ;;
  print (OutFloats [lo; hi]) ;;;
  gw <- lift (gridweights sedgrid weight_to_use model_compl) ;;
  np_random_seed ranseed ;;;
  sim_indx <- np_random_choice n_models nsim gw ;;
  ret (model_compl, sim_indx).

(** [-2.5 * np.log10(x)] *)
Definition vega_mag (x : float) : float := (- F64.two_and_half) * log10 x.

(** Lines 325-330 and 340-345: the rate column from the flux column, and
    the magnitude column from the rate column. *)
Definition rate_and_mag (ot : Tbl.Table) (fluxname colname magname : string)
           (vega_flux : Np.array) (k : nat) : result Tbl.Table :=
  rbind (Tbl.get ot fluxname) (fun f =>
  rbind (Np.nth_or_raise vega_flux k) (fun vk =>
  rbind (Tbl.set ot colname (Np.div_scalar f vk)) (fun ot =>
  rbind (Tbl.get ot colname) (fun r =>
  let pindxs := map F64.gt0 r in
  rbind (Tbl.get ot colname) (fun r =>
  let nindxs := map F64.le0 r in
  rbind (Tbl.get ot colname) (fun r =>
  rbind (Tbl.set ot magname r) (fun ot =>
  rbind (Tbl.get ot colname) (fun r =>
  let vals := map vega_mag (Np.compress r pindxs) in
  rbind (Tbl.get ot magname) (fun m =>
  rbind (Np.put_mask m pindxs vals) (fun m =>
  let ot := Tbl.replace ot magname m in
  rbind (Tbl.get ot magname) (fun m =>
  Ok (Tbl.replace ot magname (Np.put_mask_scalar m nindxs F64.sentinel))))))))))))).

(** Lines 311-345: the body of the loop over the filters. *)
Definition simulate_filter (sedgrid : SEDGrid) (sedgrid_noisemodel : NoiseModel)
           (model_compl : Np.array) (sim_indx : list nat) (vega_flux : Np.array)
           (ot : Tbl.Table) (kf : nat * string) : M Tbl.Table :=
  let (k, fname) := kf in
  let flux := seds sedgrid in
  let model_bias := bias sedgrid_noisemodel in
  let model_unc := Np.fabs2 (error sedgrid_noisemodel) in
  print (OutStr fname) ;;;
  f <- lift (Np.take2 flux sim_indx k) ;;
  b <- lift (Np.take2 model_bias sim_indx k) ;;
  simflux_wbias <- lift (Np.add f b) ;;
  print (OutArray f) ;;;
  print (OutArray b) ;;;
  u <- lift (Np.take2 model_unc sim_indx k) ;;
  print (OutArray u) ;;;
  c <- lift (Np.take model_compl sim_indx) ;;
  print (OutArray c) ;;;
  simflux <- np_random_normal simflux_wbias u ;;
  let bname := Str.band fname in
  ot <- lift (Tbl.set ot (bname ++ "_FLUX") simflux) ;;
  ot <- lift (rate_and_mag ot (bname ++ "_FLUX") (bname ++ "_RATE")
                           (bname ++ "_VEGA") vega_flux k) ;;
  f <- lift (Np.take2 flux sim_indx k) ;;
  ot <- lift (Tbl.set ot (bname ++ "_INPUT_FLUX") f) ;;
  lift (rate_and_mag ot (bname ++ "_INPUT_FLUX") (bname ++ "_INPUT_RATE")
                     (bname ++ "_INPUT_VEGA") vega_flux k).

(** Lines 348-349: one column per name of the grid. *)
Definition copy_parameter (sedgrid : SEDGrid) (sim_indx : list nat)
           (ot : Tbl.Table) (qname : string) : M Tbl.Table :=
  q <- lift (getitem sedgrid qname) ;;
  v <- lift (Np.take q sim_indx) ;;
  lift (Tbl.set ot qname v).

(** Lines 303-351: the output table for the picked models. *)
Definition build_table (sedgrid : SEDGrid) (sedgrid_noisemodel : NoiseModel)
           (vega_fname : option string) (model_compl : Np.array)
           (sim_indx : list nat) : M Tbl.Table :=
  vega_flux <- lift (vega_getFlux vega_fname (filters sedgrid)) ;;
  let qnames := keys sedgrid in
  ot <- for_each (enumerate (filters sedgrid))
                 (simulate_filter sedgrid sedgrid_noisemodel model_compl sim_indx vega_flux)
                 [] ;;
  for_each qnames (copy_parameter sedgrid sim_indx) ot.

(** Lines 207-351: the selection of the models, then the table for them.
    [ranseed] and [vega_fname] are [None] by default. *)
Definition gen_SimObs_from_sedgrid (sedgrid : SEDGrid) (sedgrid_noisemodel : NoiseModel)
           (nsim : nat) (compl_filter : string) (ranseed : option Z)
           (vega_fname : option string) (weight_to_use : string) : M Tbl.Table :=
  picked <- pick_models sedgrid sedgrid_noisemodel nsim compl_filter ranseed weight_to_use ;;
  build_table sedgrid sedgrid_noisemodel vega_fname (fst picked) (snd picked).

End Generator.

(** ** The [Observations] class *)

Module Observations.

Local Open Scope string_scope.
Local Open Scope float_scope.

(** The attributes the two accessors read: [self.filters],
    [self.filter_aliases] (a dict, as the list of its items),
    [self.data] and [self.vega_flux] ([None] until it is set). *)
Record t : Type := {
  filters : list string;
  filter_aliases : list (string * string);
  data : Tbl.Table;
  vega_flux : option Np.array
}.

(** [d[key] = value] on a dict: a present key keeps its place. *)
Fixpoint dict_set (d : list (string * string)) (key value : string) : list (string * string) :=
  match d with
  | [] => [(key, value)]
  | (k0, v0) :: r =>
      if String.eqb k0 key then (k0, value) :: r else (k0, v0) :: dict_set r key value
  end.

(** [d[key]] *)
Fixpoint dict_get (d : list (string * string)) (key : string) : result string :=
  match d with
  | [] => Raise (KeyError key)
  | (k0, v0) :: r => if String.eqb k0 key then Ok v0 else dict_get r key
  end.

(** Lines 55-57 of [__init__]: the aliases, from the internal names and
    the column names of the catalog ([None] by default). *)
Fixpoint fill_aliases (d : list (string * string)) (iks : list (nat * string))
         (obs_colnames : option (list string)) : result (list (string * string)) :=
  match iks with
  | [] => Ok d
  | (ik, k) :: r =>
      match obs_colnames with
      | None => Raise TypeError
      | Some names =>
          rbind (Np.nth_or_raise names ik) (fun v =>
          fill_aliases (dict_set d k v) r obs_colnames)
      end
  end.

Definition init_aliases (filters : list string) (obs_colnames : option (list string))
  : result (list (string * string)) :=
  fill_aliases [] (combine (seq 0 (length filters)) filters) obs_colnames.

(** An index of Python: a negative one counts from the end. *)
Definition py_index (len : nat) (i : Z) : result nat :=
  if ((0 <=? i) && (i <? Z.of_nat len))%Z then Ok (Z.to_nat i)
  else if ((- Z.of_nat len <=? i) && (i <? 0))%Z then Ok (Z.to_nat (i + Z.of_nat len))
  else Raise IndexError.

(** [self.data[num]]: the row, kept as the table and the row number. *)
Definition row (data : Tbl.Table) (num : Z) : result nat :=
  py_index (Tbl.nrows data) num.

(** [d[name]] for the row [d = self.data[num]]. *)
Definition row_get (data : Tbl.Table) (i : nat) (name : string) : result float :=
  rbind (Tbl.get data name) (fun c => Np.nth_or_raise c i).

(** [self.data[name][num]] *)
Definition column_get (data : Tbl.Table) (name : string) (num : Z) : result float :=
  rbind (Tbl.get data name) (fun c =>
  rbind (py_index (length c) num) (fun i => Np.nth_or_raise c i)).

Definition getFlux (self : t) (num : Z) (units : bool) : result Np.array :=
  match vega_flux self with
  | None => Raise (ValueError "vega_flux not set, can't return fluxes")
  | Some vega =>
      rbind (row (data self) num) (fun d =>
      rbind (traverse (fun ok => rbind (dict_get (filter_aliases self) ok)
                                       (fun name => row_get (data self) d name))
                      (filters self)) (fun raw =>
      rbind (Np.mul raw vega) (fun flux =>
      if units then Raise (AttributeError "'bool' object has no attribute 'erg'")
      else Ok flux)))
  end.

Definition getFluxerr (self : t) (num : Z) : result Np.array :=
  traverse (fun ok => column_get (data self) (ok ++ "_err") num) (filters self).

(** [getObs(num)] *)
Definition getObs (self : t) (num : Z) : result Np.array :=
  getFlux self num false.

(** [len(self)] *)
Definition nObs (self : t) : nat := Tbl.nrows (data self).

End Observations.

(** ** A concrete environment and small grids, to run the model on *)

Module Fixture.

Local Open Scope string_scope.
Local Open Scope float_scope.

(** A linear congruential generator in place of numpy's Mersenne Twister. *)
Definition lcg_next (g : Z) : Z := ((1103515245 * g + 12345) mod 2 ^ 31)%Z.

(** The state as a number of [0, 1). *)
Definition uniform (g : Z) : float := of_uint63 (Uint63Axioms.of_Z g) / 0x1p31.

(** The first index whose cumulated probability exceeds [u]; the last
    index when none does. *)
Fixpoint search (p : list float) (acc u : float) (i : nat) : nat :=
  match p with
  | [] => i
  | [_] => i
  | x :: r => if u <? acc + x then i else search r (acc + x) u (S i)
  end.

Definition draw (g : Z) (p : list float) : nat * Z :=
  let g' := lcg_next g in (search p 0 (uniform g') 0, g').

Fixpoint sum_uniforms (n : nat) (g : Z) (acc : float) : float * Z :=
  match n with
  | O => (acc, g)
  | S m => let g' := lcg_next g in sum_uniforms m g' (acc + uniform g')
  end.

(** Twelve uniform numbers minus six: mean 0, variance 1. *)
Definition gauss12 (g : Z) : float * Z :=
  let (s, g') := sum_uniforms 12 g 0 in (s - 6, g').

(** The natural logarithm near 1, by the series of the inverse hyperbolic
    tangent. *)
Definition ln_series (m : float) : float :=
  let t := (m - 1) / (m + 1) in
  let t2 := t * t in
  2 * t * (1 + t2 * (0x1.5555555555555p-2 + t2 * (0x1.999999999999ap-3
           + t2 * (0x1.2492492492492p-3 + t2 * (0x1.c71c71c71c71cp-4
           + t2 * (0x1.745d1745d1746p-4 + t2 * 0x1.3b13b13b13b14p-4)))))).

Definition ln2 : float := 0x1.62e42fefa39efp-1.
Definition ln10 : float := 0x1.26bb1bbb55516p+1.
Definition sqrt_half : float := 0x1.6a09e667f3bcdp-1.

Definition log10_series (x : float) : float :=
  let (m, e) := Z.frexp x in
  let (m, e) := if m <? sqrt_half then (2 * m, (e - 1)%Z) else (m, e) in
  let fe := of_uint63 (Uint63Axioms.of_Z (Z.abs e)) in
  (ln_series m + (if (e <? 0)%Z then - fe else fe) * ln2) / ln10.

(** Summation from left to right. *)
Definition sum (xs : list float) : float := fold_left PrimFloat.add xs 0.

(** Every reference flux is 1. *)
Definition vega (source : option string) (filters : list string) : result (list float) :=
  Ok (map (fun _ => 1) filters).

Definition env : NumpyEnv :=
  {| bitgen := Z;
     init_by_seed := fun s => s;
     draw_index := draw;
     gauss := gauss12;
     log10 := log10_series;
     np_sum := sum;
     vega_getFlux := vega |}.

Definition world0 : @world env :=
  @Build_world env 7%Z (fun n => Z.of_nat n) 0 [].

(** Three models in one filter: the end-to-end scenario of the
    specification. *)
Definition grid3 : SEDGrid :=
  {| seds := [[1]; [2]; [3]];
     filters := ["HST_WFC3_F475W"];
     grid := [("Av", [0.5; 1.5; 0.25]);
              ("logA", [6; 7; 8]);
              ("weight", [1; 1; 1])] |}.

Definition noise3 : NoiseModel :=
  {| bias := [[0]; [0]; [0]];
     error := [[0]; [0]; [0]];
     completeness := [[0.5]; [0.5]; [1]] |}.

(** Two models in two filters, with bias and signed uncertainties. *)
Definition grid2 : SEDGrid :=
  {| seds := [[1; 4]; [2; 8]];
     filters := ["HST_WFC3_F475W"; "HST_WFC3_F814W"];
     grid := [("Av", [0.5; 1.5]);
              ("weight", [1; 3])] |}.

Definition noise2 : NoiseModel :=
  {| bias := [[0.5; -8]; [0.25; -16]];
     error := [[-0.5; 0]; [0.125; -0.25]];
     completeness := [[0.5; 0.75]; [1; 0.25]] |}.

(** The same band in two instruments. *)
Definition grid_twice : SEDGrid :=
  {| seds := [[1; 4]; [2; 8]];
     filters := ["HST_WFC3_F475W"; "HST_ACS_WFC_F475W"];
     grid := [("Av", [0.5; 1.5]);
              ("weight", [1; 3])] |}.

(** Weights that are all zero. *)
Definition grid_zero : SEDGrid :=
  {| seds := [[1]; [2]];
     filters := ["HST_WFC3_F475W"];
     grid := [("weight", [0; 0])] |}.

Definition noise_zero : NoiseModel :=
  {| bias := [[0]; [0]];
     error := [[0]; [0]];
     completeness := [[0.5]; [1]] |}.

Definition run (sedgrid : SEDGrid) (noise : NoiseModel) (nsim : nat)
           (compl_filter : string) (seed : Z) : result Tbl.Table * @world env :=
  @gen_SimObs_from_sedgrid env sedgrid noise nsim compl_filter (Some seed) None "weight" world0.

End Fixture.

Unset Implicit Arguments.

(** ** Runs of the model on the fixture *)

(** A catalog whose columns carry the names of the observed catalog. *)
Definition aliased_catalog : Observations.t :=
  {| Observations.filters := ["HST_WFC3_F475W"; "HST_WFC3_F814W"]%string;
     Observations.filter_aliases :=
       [("HST_WFC3_F475W", "f475w"); ("HST_WFC3_F814W", "f814w")]%string;
     Observations.data :=
       [("f475w"%string, [2; 4]%float); ("f475w_err"%string, [0.5; 0.25]%float);
              ("f814w"%string, [8; 16]%float); ("f814w_err"%string, [0.125; 1]%float)];
     Observations.vega_flux := Some [0.5; 0.25]%float |}.

(** A catalog whose columns carry the internal filter names. *)
Definition named_catalog : Observations.t :=
  {| Observations.filters := ["HST_WFC3_F475W"; "HST_WFC3_F814W"]%string;
     Observations.filter_aliases :=
       [("HST_WFC3_F475W", "HST_WFC3_F475W"); ("HST_WFC3_F814W", "HST_WFC3_F814W")]%string;
     Observations.data :=
       [("HST_WFC3_F475W"%string, [2; 4]%float);
        ("HST_WFC3_F475W_err"%string, [0.5; 0.25]%float);
        ("HST_WFC3_F814W"%string, [8; 16]%float);
        ("HST_WFC3_F814W_err"%string, [0.125; 1]%float)];
     Observations.vega_flux := Some [0.5; 0.25]%float |}.

(** The value a run returned ([d] when it raised). *)
Definition value_of {A S : Type} (d : A) (r : result A * S) : A :=
  match fst r with
  | Ok a => a
  | Raise _ => d
  end.

Definition table_of {S : Type} (r : result Tbl.Table * S) : Tbl.Table :=
  value_of [] r.

(** The second filter of [Fixture.grid2] for the picked models 1, 0, 1. *)
Definition pass_F814W : result Tbl.Table * @world Fixture.env :=
  @simulate_filter Fixture.env Fixture.grid2 Fixture.noise2
                   [1; 0.75]%float [1; 0; 1] [1; 1]%float []
                   (1, "HST_WFC3_F814W"%string) Fixture.world0.

Definition pick3 : result (Np.array * list nat) * @world Fixture.env :=
  @pick_models Fixture.env Fixture.grid3 Fixture.noise3 4 "f475w"%string
               (Some 42%Z) "weight"%string Fixture.world0.


Definition run3 : result Tbl.Table * @world Fixture.env :=
  Fixture.run Fixture.grid3 Fixture.noise3 4 "f475w"%string 42%Z.

Definition run_twice : result Tbl.Table * @world Fixture.env :=
  Fixture.run Fixture.grid_twice Fixture.noise2 3 "max"%string 1%Z.

(** ** The vocabulary of the properties *)

Section Vocabulary.

Context {env : NumpyEnv}.

Import F64.
Local Open Scope string_scope.
Local Open Scope float_scope.

(** Every entry is a NaN, an infinity or a zero. *)
Definition all_special (p : list float) : Prop :=
  Forall (fun x => F64.special (Prim2SF x) = true) p.

(** The order of the non-NaN values, read on a key of three integers. *)
Definition sf_key (x : spec_float) : Z * Z * Z :=
  match x with
  | S754_zero _ => (0, 0, 0)%Z
  | S754_infinity s => ((if s then -2 else 2), 0, 0)%Z
  | S754_nan => (0, 0, 0)%Z
  | S754_finite s m e => if s then (-1, - e, - Z.pos m)%Z else (1, e, Z.pos m)%Z
  end.

Definition lex_le (a b : Z * Z * Z) : Prop :=
  let '(a1, a2, a3) := a in
  let '(b1, b2, b3) := b in
  (a1 < b1 \/ (a1 = b1 /\ (a2 < b2 \/ (a2 = b2 /\ a3 <= b3))))%Z.

(** The column names after [ot[name] = ...]. *)
Definition add_name (names : list string) (name : string) : list string :=
  if Str.mem name names then names else (names ++ [name])%list.

(** Every column has [n] entries. *)
Definition all_length (n : nat) (ot : Tbl.Table) : Prop :=
  Forall (fun nc => length (snd nc) = n) ot.

(** The same catalog under another dict of aliases. *)
Definition with_aliases (self : Observations.t) (aliases : list (string * string)) : Observations.t :=
  {| Observations.filters := Observations.filters self;
     Observations.filter_aliases := aliases;
     Observations.data := Observations.data self;
     Observations.vega_flux := Observations.vega_flux self |}.

(** Every column of the table has the table's number of rows. *)
Definition columns_aligned (data : Tbl.Table) : Prop :=
  forall name c, Tbl.lookup data name = Some c -> length c = Tbl.nrows data.

(** The six column names of a filter, in the order of their assignment. *)
Definition six_names (fname : string) : list string :=
  let bname := Str.band fname in
  [bname ++ "_FLUX"; bname ++ "_RATE"; bname ++ "_VEGA";
   bname ++ "_INPUT_FLUX"; bname ++ "_INPUT_RATE"; bname ++ "_INPUT_VEGA"].

(** The column [col] holds, row by row, entry [k] of the rows of [a] that
    [idx] names. *)
Definition rows_of2 (a : Np.array2) (idx : list nat) (k : nat) (col : Np.array) : Prop :=
  length col = length idx
  /\ forall j i, nth_error idx j = Some i ->
                 exists row x, nth_error a i = Some row
                               /\ nth_error row k = Some x
                               /\ nth_error col j = Some x.

(** The column [col] holds, row by row, the entries of [c] that [idx] names. *)
Definition rows_of (c : Np.array) (idx : list nat) (col : Np.array) : Prop :=
  length col = length idx
  /\ forall j i, nth_error idx j = Some i ->
                 exists x, nth_error c i = Some x /\ nth_error col j = Some x.

(** The magnitude the three assignments of lines 328-330 leave for one
    rate: the copied rate, overwritten where it is positive, overwritten
    again where it is not. *)
Definition mag_of_rate (r : float) : float :=
  if le0 r then sentinel else if gt0 r then vega_mag r else r.

(** The magnitudes [mag] follow the policy for the rates [rate]. *)
Definition follows_policy (rate mag : list float) : Prop :=
  length mag = length rate
  /\ forall j r,
      nth_error rate j = Some r ->
      (le0 r = true -> nth_error mag j = Some sentinel)
      /\ (gt0 r = true -> nth_error mag j = Some ((-2.5) * log10 r)).

(** The result of [m] does not depend on the state it starts in. *)
Definition blind {A : Type} (m : M A) : Prop :=
  forall w1 w2, fst (m w1) = fst (m w2).

(** Started in states with the same generator, [m] gives the same result
    and leaves the same generator. *)
Definition state_only {A : Type} (m : M A) : Prop :=
  forall w1 w2,
    np_state w1 = np_state w2 ->
    fst (m w1) = fst (m w2) /\ np_state (snd (m w1)) = np_state (snd (m w2)).

(** Whatever states [m] starts in, it gives the same result and, when it
    returns, leaves the same generator. *)
Definition seeded {A : Type} (m : M A) : Prop :=
  forall w1 w2,
    fst (m w1) = fst (m w2)
    /\ (is_ok (fst (m w1)) = true ->
        np_state (snd (m w1)) = np_state (snd (m w2))).

(** [m] only appends to standard output, leaves the entropy of the system
    alone and moves the count of used entropy as [R] allows. *)
Definition frame (R : nat -> nat -> Prop) {A : Type} (m : M A) : Prop :=
  forall w,
    (exists lines, stdout (snd (m w)) = (stdout w ++ lines)%list)
    /\ entropy (snd (m w)) = entropy w
    /\ R (entropy_used w) (entropy_used (snd (m w))).

End Vocabulary.

(** ** The rest of the [Observations] class *)

Module Catalog.

Import Observations.
Local Open Scope string_scope.
Local Open Scope float_scope.

(** [inputFile]: the name of a file, or a table already in memory. *)
Inductive source : Type :=
| FromFile (path : string)
| InMemory (table : Tbl.Table).

(** [self.desc]: the text given, or ["GENERIC: %s" % inputFile]. *)
Inductive description : Type :=
| Generic (inputFile : source)
| Described (txt : string).

(** The attributes [__init__] sets. *)
Record obj : Type := {
  inputFile : source;
  desc : description;
  badvalue : float;
  core : Observations.t
}.

(** A generator function whose body is [for x in xs: yield f(x)]: what it
    yields, and the exception that ends it, if one does. *)
Fixpoint generate {A B : Type} (f : A -> result B) (xs : list A) : list B * option exn :=
  match xs with
  | [] => ([], None)
  | x :: r =>
      match f x with
      | Ok b => let (ys, e) := generate f r in (b :: ys, e)
      | Raise e => ([], Some e)
      end
  end.

(** [iterobs()] *)
Definition iterobs (self : Observations.t) : list Np.array * option exn :=
  generate (fun k => getObs self (Z.of_nat k)) (seq 0 (nObs self)).

(** [enumobs()] *)
Definition enumobs (self : Observations.t) : list (nat * Np.array) * option exn :=
  generate (fun k => rbind (getObs self (Z.of_nat k)) (fun flux => Ok (k, flux)))
           (seq 0 (nObs self)).

Section Init.

Context {env : NumpyEnv}.

(** [Table.read] *)
Variable table_read : string -> result Tbl.Table.

(** [readData()] *)
Definition readData (inputFile : source) : result Tbl.Table :=
  match inputFile with
  | FromFile path => table_read path
  | InMemory table => Ok table
  end.

(** [setVegaFluxes(filters, vega_fname)] *)
Definition setVegaFluxes (filters : list string) (vega_fname : option string)
  : result Np.array :=
  vega_getFlux vega_fname filters.

(** [Observations(inputFile, filters, obs_colnames, vega_fname, desc)];
    the bad value is binary64's [6e-40]. *)
Definition init (inputFile : source) (filters : list string)
           (obs_colnames : option (list string)) (vega_fname : option string)
           (desc : option string) : result obj :=
  let d := match desc with
           | None => Generic inputFile
           | Some txt => Described txt
           end in
  rbind (init_aliases filters obs_colnames) (fun aliases =>
  rbind (readData inputFile) (fun data =>
  rbind (setVegaFluxes filters vega_fname) (fun vega =>
  Ok {| inputFile := inputFile;
        desc := d;
        badvalue := 0x1.a22393b33036bp-131;
        core := {| Observations.filters := filters;
                   filter_aliases := aliases;
                   data := data;
                   vega_flux := Some vega |} |}))).

End Init.

End Catalog.

(** ** More scenarios *)

Module Scenario.

Local Open Scope string_scope.
Local Open Scope float_scope.

(** Another state to start in: another generator, earlier output. *)
Definition world1 : @world Fixture.env :=
  @Build_world Fixture.env 99%Z (fun n => Z.of_nat n) 0 [OutStr "earlier output"].

(** An environment whose Vega library does not know the filters. *)
Definition env_no_vega : NumpyEnv :=
  {| bitgen := Z;
     init_by_seed := fun s => s;
     draw_index := Fixture.draw;
     gauss := Fixture.gauss12;
     log10 := Fixture.log10_series;
     np_sum := Fixture.sum;
     vega_getFlux := fun _ _ => Raise (KeyError "HST_WFC3_F475W") |}.

Definition world_no_vega : @world env_no_vega :=
  @Build_world env_no_vega 7%Z (fun n => Z.of_nat n) 0 [].

(** A noise model without models. *)
Definition noise_empty : NoiseModel :=
  {| bias := []; error := []; completeness := [] |}.

(** A file table of two rows, and a reader that knows one file. *)
Definition phot : Tbl.Table :=
  [("f475w", [2; 4]); ("f475w_err", [0.5; 0.25]);
   ("f814w", [8; 16]); ("f814w_err", [0.125; 1])].

Definition table_read (path : string) : result Tbl.Table :=
  if String.eqb path "phot.fits" then Ok phot else Raise (ValueError "no such file").

(** The catalog the constructor builds from that file. *)
Definition built : Catalog.obj :=
  {| Catalog.inputFile := Catalog.FromFile "phot.fits";
     Catalog.desc := Catalog.Generic (Catalog.FromFile "phot.fits");
     Catalog.badvalue := 0x1.a22393b33036bp-131;
     Catalog.core :=
       {| Observations.filters := ["HST_WFC3_F475W"; "HST_WFC3_F814W"];
          Observations.filter_aliases :=
            [("HST_WFC3_F475W", "f475w"); ("HST_WFC3_F814W", "f814w")];
          Observations.data := phot;
          Observations.vega_flux := Some [1; 1] |} |}.

End Scenario.

(** The selection in the environment without Vega fluxes. *)
Definition pick_no_vega
  : result (Np.array * list nat) * @world Scenario.env_no_vega :=
  @pick_models Scenario.env_no_vega Fixture.grid3 Fixture.noise3 4 "f475w"%string
               (Some 42%Z) "weight"%string Scenario.world_no_vega.

(** Started in states with the same entropy of the system, [m] gives the
    same result and, when it returns, leaves the same generator. *)
Definition entropy_seeded {env : NumpyEnv} {A : Type} (m : M A) : Prop :=
  forall w1 w2,
    entropy w1 = entropy w2 -> entropy_used w1 = entropy_used w2 ->
    fst (m w1) = fst (m w2)
    /\ (is_ok (fst (m w1)) = true ->
        np_state (snd (m w1)) = np_state (snd (m w2))).

(** * Properties *)

(** ** binary64 facts, from the specification of the primitive operations *)

Module F64Facts.

Import F64.
Local Open Scope float_scope.

Lemma sf_of_zero : Prim2SF 0 = S754_zero false.
Proof. reflexivity. Qed.

Lemma sf_of_infinity : Prim2SF infinity = S754_infinity false.
Proof. reflexivity. Qed.

Lemma compare_cont_refl (m : positive) : PosDef.Pos.compare_cont Eq m m = Eq.
Proof. apply Pos.compare_cont_refl. Qed.

Lemma sf_eqb_refl_finite s m e :
  SFeqb (S754_finite s m e) (S754_finite s m e) = true.
Proof.
  unfold SFeqb, SFcompare. rewrite Z.compare_refl, compare_cont_refl.
  destruct s; reflexivity.
Qed.

(** The classes of a float, read from its specification. *)
Lemma is_nan_sf x : is_nan x = sf_nan (Prim2SF x).
Proof.
  unfold is_nan. rewrite FloatAxioms.eqb_spec.
  destruct (Prim2SF x) as [s | s | | s m e].
  - destruct s; reflexivity.
  - destruct s; reflexivity.
  - reflexivity.
  - rewrite sf_eqb_refl_finite. reflexivity.
Qed.

Lemma is_zero_sf x : is_zero x = sf_zero (Prim2SF x).
Proof.
  unfold is_zero. rewrite FloatAxioms.eqb_spec.
  change (Prim2SF PrimFloat.zero) with (S754_zero false).
  destruct (Prim2SF x) as [s | s | | s m e]; try destruct s; reflexivity.
Qed.

Lemma is_infinity_sf x :
  is_infinity x = match Prim2SF x with S754_infinity _ => true | _ => false end.
Proof.
  unfold is_infinity. rewrite FloatAxioms.eqb_spec, abs_spec, sf_of_infinity.
  destruct (Prim2SF x) as [s | s | | s m e]; try destruct s; reflexivity.
Qed.

Lemma degenerate_special s : degenerate s = special (Prim2SF s).
Proof.
  unfold degenerate, is_finite.
  rewrite is_zero_sf, is_nan_sf, is_infinity_sf.
  destruct (Prim2SF s); reflexivity.
Qed.

Lemma is_finite_sf z :
  is_finite z = match Prim2SF z with
                | S754_zero _ | S754_finite _ _ _ => true
                | _ => false
                end.
Proof.
  unfold is_finite. rewrite is_nan_sf, is_infinity_sf.
  destruct (Prim2SF z); reflexivity.
Qed.

Lemma gt0_not_le0 x : gt0 x = true -> le0 x = false.
Proof.
  unfold gt0, le0. rewrite ltb_spec, leb_spec, sf_of_zero.
  destruct (Prim2SF x) as [s | s | | s m e]; try destruct s; cbn; congruence.
Qed.

Lemma le0_not_gt0 x : le0 x = true -> gt0 x = false.
Proof.
  intros H. destruct (gt0 x) eqn:G; [|reflexivity].
  apply gt0_not_le0 in G. congruence.
Qed.

Lemma abs_not_lt0 x : lt0 (abs x) = false.
Proof.
  unfold lt0. rewrite ltb_spec, abs_spec, sf_of_zero.
  destruct (Prim2SF x) as [s | s | | s m e]; reflexivity.
Qed.

Lemma not_lt0_ge0 x : is_nan x = false -> lt0 x = false -> ge0 x = true.
Proof.
  unfold lt0, ge0. rewrite is_nan_sf, ltb_spec, leb_spec, sf_of_zero.
  destruct (Prim2SF x) as [s | s | | s m e]; try destruct s; cbn; congruence.
Qed.

(** Dividing by a degenerate sum never gives a non-zero finite number. *)
Lemma div_special x s : special (Prim2SF s) = true -> special (Prim2SF (x / s)) = true.
Proof.
  rewrite div_spec. unfold SF64div.
  destruct (Prim2SF s) as [b | b | | b m e]; try discriminate; intros _;
    destruct (Prim2SF x); reflexivity.
Qed.

Lemma add_special x y :
  special (Prim2SF x) = true -> special (Prim2SF y) = true ->
  special (Prim2SF (x + y)) = true.
Proof.
  rewrite add_spec. unfold SF64add.
  destruct (Prim2SF x) as [a | a | | a m e]; try discriminate;
    destruct (Prim2SF y) as [b | b | | b n f]; try discriminate;
    intros _ _; try destruct a; try destruct b; reflexivity.
Qed.

Lemma sub_special x y :
  special (Prim2SF x) = true -> special (Prim2SF y) = true ->
  special (Prim2SF (x - y)) = true.
Proof.
  rewrite sub_spec. unfold SF64sub.
  destruct (Prim2SF x) as [a | a | | a m e]; try discriminate;
    destruct (Prim2SF y) as [b | b | | b n f]; try discriminate;
    intros _ _; try destruct a; try destruct b; reflexivity.
Qed.

Lemma nan_add_l x y : is_nan x = true -> is_nan (x + y) = true.
Proof.
  rewrite !is_nan_sf, add_spec. unfold SF64add.
  destruct (Prim2SF x); try discriminate. reflexivity.
Qed.

Lemma nan_add_r x y : is_nan y = true -> is_nan (x + y) = true.
Proof.
  rewrite !is_nan_sf, add_spec. unfold SF64add.
  destruct (Prim2SF y); try discriminate. destruct (Prim2SF x); reflexivity.
Qed.

Lemma nan_sub_l x y : is_nan x = true -> is_nan (x - y) = true.
Proof.
  rewrite !is_nan_sf, sub_spec. unfold SF64sub.
  destruct (Prim2SF x); try discriminate. reflexivity.
Qed.

(** A degenerate value of the compensated sum fails numpy's test. *)
Lemma special_rejected ps :
  special (Prim2SF ps) = true ->
  is_nan ps || (atol <? abs (ps - 1)) = true.
Proof.
  intros H. rewrite <- (SF2Prim_Prim2SF ps).
  destruct (Prim2SF ps) as [b | b | | b m e]; try discriminate;
    try destruct b; vm_compute; reflexivity.
Qed.

(** A zero scale leaves the location: [loc + 0 * z] is [loc]. *)
Lemma point_mass loc s z :
  is_zero s = true -> is_finite z = true -> same_value (loc + s * z) loc.
Proof.
  rewrite is_zero_sf, is_finite_sf. intros Hs Hz.
  assert (Hm : sf_zero (Prim2SF (s * z)) = true).
  { rewrite mul_spec. unfold SF64mul.
    destruct (Prim2SF s); try discriminate.
    destruct (Prim2SF z); try discriminate; reflexivity. }
  unfold same_value. rewrite !is_zero_sf.
  assert (Ha : Prim2SF (loc + s * z) = SF64add (Prim2SF loc) (Prim2SF (s * z)))
    by apply add_spec.
  destruct (Prim2SF (s * z)) as [b | | | ]; try discriminate.
  destruct (Prim2SF loc) as [a | a | | a m e] eqn:Hl.
  - right. rewrite Ha. split; [|reflexivity].
    destruct a, b; reflexivity.
  - left. apply Prim2SF_inj. rewrite Ha, Hl. reflexivity.
  - left. apply Prim2SF_inj. rewrite Ha, Hl. reflexivity.
  - left. apply Prim2SF_inj. rewrite Ha, Hl. reflexivity.
Qed.

End F64Facts.

(** ** Facts about the array operations *)

Module NpFacts.

Import F64 F64Facts.
Local Open Scope float_scope.

Lemma kahan_loop_special xs : forall sum c,
  all_special xs ->
  special (Prim2SF sum) = true -> special (Prim2SF c) = true ->
  special (Prim2SF (Np.kahan_loop xs sum c)) = true.
Proof.
  induction xs as [|x r IH]; intros sum c Hxs Hs Hc; simpl.
  - exact Hs.
  - inversion Hxs as [|? ? Hx Hr]; subst.
    assert (Hy : special (Prim2SF (x - c)) = true) by (apply sub_special; assumption).
    assert (Ht : special (Prim2SF (sum + (x - c))) = true) by (apply add_special; assumption).
    apply IH; auto.
    apply sub_special; [apply sub_special|]; assumption.
Qed.

Lemma kahan_sum_special p :
  all_special p -> special (Prim2SF (Np.kahan_sum p)) = true.
Proof.
  destruct p as [|x r]; intros H; simpl.
  - reflexivity.
  - inversion H; subst. apply kahan_loop_special; auto.
Qed.

Lemma kahan_loop_nan_sum xs : forall sum c,
  is_nan sum = true -> is_nan (Np.kahan_loop xs sum c) = true.
Proof.
  induction xs as [|x r IH]; intros sum c Hs; simpl.
  - exact Hs.
  - apply IH. apply nan_add_l. exact Hs.
Qed.

Lemma kahan_loop_nan_entry xs : forall sum c,
  existsb is_nan xs = true -> is_nan (Np.kahan_loop xs sum c) = true.
Proof.
  induction xs as [|x r IH]; intros sum c H; simpl in *.
  - discriminate.
  - apply orb_true_iff in H. destruct H as [H|H].
    + apply kahan_loop_nan_sum. apply nan_add_r. apply nan_sub_l. exact H.
    + apply IH. exact H.
Qed.

(** A NaN among the probabilities makes their compensated sum a NaN. *)
Lemma kahan_sum_nan p :
  existsb is_nan p = true -> is_nan (Np.kahan_sum p) = true.
Proof.
  destruct p as [|x r]; simpl; intros H.
  - discriminate.
  - apply orb_true_iff in H. destruct H as [H|H].
    + apply kahan_loop_nan_sum. exact H.
    + apply kahan_loop_nan_entry. exact H.
Qed.

Lemma div_scalar_special gw s :
  special (Prim2SF s) = true -> all_special (Np.div_scalar gw s).
Proof.
  intros H. unfold Np.div_scalar, all_special. apply Forall_map.
  apply Forall_forall. intros x _. apply div_special. exact H.
Qed.

End NpFacts.


(** ** Results and traversals *)

Lemma rbind_ok {A B : Type} (r : result A) (k : A -> result B) (b : B) :
  rbind r k = Ok b -> exists a, r = Ok a /\ k a = Ok b.
Proof.
  destruct r as [a|e]; simpl; intros H; [eauto | discriminate].
Qed.

Lemma traverse_length {A B : Type} (f : A -> result B) (xs : list A) :
  forall ys, traverse f xs = Ok ys -> length ys = length xs.
Proof.
  induction xs as [|x r IH]; simpl; intros ys H.
  - inversion H; reflexivity.
  - apply rbind_ok in H. destruct H as (y & _ & H).
    apply rbind_ok in H. destruct H as (ys' & Hr & H).
    inversion H; subst. simpl. f_equal. apply IH. exact Hr.
Qed.

Lemma traverse_nth {A B : Type} (f : A -> result B) (xs : list A) :
  forall ys j x, traverse f xs = Ok ys -> nth_error xs j = Some x ->
                 exists y, f x = Ok y /\ nth_error ys j = Some y.
Proof.
  induction xs as [|x0 r IH]; simpl; intros ys j x H Hj.
  - destruct j; discriminate.
  - apply rbind_ok in H. destruct H as (y0 & Hy0 & H).
    apply rbind_ok in H. destruct H as (ys' & Hr & H).
    inversion H; subst. destruct j as [|j]; simpl in *.
    + inversion Hj; subst. eauto.
    + eapply IH; eauto.
Qed.

Lemma traverse_all_ok {A B : Type} (f : A -> result B) (xs : list A) :
  (forall x, In x xs -> exists y, f x = Ok y) ->
  exists ys, traverse f xs = Ok ys.
Proof.
  induction xs as [|x r IH]; simpl; intros H.
  - eauto.
  - destruct (H x (or_introl eq_refl)) as (y & Hy).
    destruct IH as (ys & Hys); [intros; apply H; auto|].
    rewrite Hy, Hys. simpl. eauto.
Qed.

Lemma traverse_map {A B : Type} (f : A -> result B) (g : A -> B) (xs : list A) :
  (forall x, In x xs -> f x = Ok (g x)) -> traverse f xs = Ok (map g xs).
Proof.
  induction xs as [|x r IH]; simpl; intros H.
  - reflexivity.
  - rewrite (H x (or_introl eq_refl)). simpl.
    rewrite IH by (intros; apply H; auto). reflexivity.
Qed.

Lemma traverse_first_raise {A B : Type} (f : A -> result B) (xs : list A) :
  forall i x e,
    nth_error xs i = Some x -> f x = Raise e ->
    (forall j y, j < i -> nth_error xs j = Some y -> is_ok (f y) = true) ->
    traverse f xs = Raise e.
Proof.
  induction xs as [|x0 r IH]; intros i x e Hi Hx Hbefore.
  - destruct i; discriminate.
  - destruct i as [|i]; simpl in Hi.
    + inversion Hi; subst x0. simpl. rewrite Hx. reflexivity.
    + simpl. pose proof (Hbefore 0 x0 (Nat.lt_0_succ i) eq_refl) as H0.
      destruct (f x0) as [y0|]; [|discriminate]. simpl.
      rewrite (IH i x e Hi Hx); [reflexivity|].
      intros j y Hj Hy. apply (Hbefore (S j) y); [lia | exact Hy].
Qed.

(** ** The catalog accessors *)

Module ObservationsFacts.

Import Observations.
Local Open Scope string_scope.

Lemma py_index_bound (len : nat) (i : Z) (d : nat) :
  py_index len i = Ok d -> d < len.
Proof.
  unfold py_index.
  destruct ((0 <=? i)%Z && (i <? Z.of_nat len)%Z) eqn:H1.
  - intros H; inversion H; subst. apply andb_true_iff in H1. lia.
  - destruct ((- Z.of_nat len <=? i)%Z && (i <? 0)%Z) eqn:H2; [|discriminate].
    intros H; inversion H; subst. apply andb_true_iff in H2. lia.
Qed.

Lemma getFlux_ok (self : t) (num : Z) (vega : Np.array) :
  vega_flux self = Some vega ->
  length vega = length (filters self) ->
  columns_aligned (data self) ->
  is_ok (row (data self) num) = true ->
  (forall ok, In ok (filters self) ->
              exists name c, dict_get (filter_aliases self) ok = Ok name
                             /\ Tbl.lookup (data self) name = Some c) ->
  exists flux, getFlux self num false = Ok flux /\ length flux = length (filters self).
Proof.
  intros Hv Hlen Hal Hrow Hcols. unfold getFlux. rewrite Hv.
  destruct (row (data self) num) as [d|] eqn:Hd; [|discriminate]. simpl.
  assert (Hd' : d < Tbl.nrows (data self)) by (eapply py_index_bound; exact Hd).
  destruct (traverse_all_ok
              (fun ok => rbind (dict_get (filter_aliases self) ok)
                               (fun name => row_get (data self) d name))
              (filters self)) as (raw & Hraw).
  { intros ok Hin. destruct (Hcols ok Hin) as (name & c & Hn & Hc).
    rewrite Hn. simpl. unfold row_get, Tbl.get. rewrite Hc. simpl.
    unfold Np.nth_or_raise.
    destruct (nth_error c d) as [x|] eqn:Hx; [eauto|].
    apply nth_error_None in Hx. rewrite (Hal _ _ Hc) in Hx. lia. }
  rewrite Hraw. simpl.
  pose proof (traverse_length _ _ _ Hraw) as Hl.
  unfold Np.mul, Np.broadcast, Np.broadcast_pairs.
  replace (length raw =? length vega)%nat with true
    by (symmetry; apply Nat.eqb_eq; congruence).
  simpl. eexists. split; [reflexivity|].
  rewrite length_map, length_combine. lia.
Qed.

Lemma column_get_ok (data : Tbl.Table) (name : string) (num : Z) (x : float) :
  column_get data name num = Ok x ->
  exists col j, Tbl.lookup data name = Some col
                /\ py_index (length col) num = Ok j
                /\ nth_error col j = Some x.
Proof.
  unfold column_get, Tbl.get. intros H.
  destruct (Tbl.lookup data name) as [col|]; [|discriminate]. simpl in H.
  apply rbind_ok in H. destruct H as (j & Hj & H).
  unfold Np.nth_or_raise in H.
  destruct (nth_error col j) as [x'|] eqn:Hx; [|discriminate].
  inversion H; subst x'. exists col, j. repeat split; assumption.
Qed.

Lemma column_get_present (data : Tbl.Table) (name : string) (num : Z) (col : Tbl.Column) :
  Tbl.lookup data name = Some col ->
  is_ok (py_index (length col) num) = true ->
  is_ok (column_get data name num) = true.
Proof.
  unfold column_get, Tbl.get. intros -> H. simpl.
  destruct (py_index (length col) num) as [j|] eqn:Hj; [|discriminate]. simpl.
  unfold Np.nth_or_raise.
  destruct (nth_error col j) eqn:Hx; [reflexivity|].
  apply nth_error_None in Hx. apply py_index_bound in Hj. lia.
Qed.

Lemma column_get_missing (data : Tbl.Table) (name : string) (num : Z) :
  Tbl.lookup data name = None -> column_get data name num = Raise (KeyError name).
Proof. unfold column_get, Tbl.get. intros ->. reflexivity. Qed.

(** C10. [getFluxerr] reads, for every filter, the column named by the
    internal filter name with "_err" appended, at row [num] of that
    column, and never consults [filter_aliases].  A returned array has one
    entry per filter and entry [i] is the entry of the column
    [filters[i] + "_err"] at [num] (counted from the end when negative);
    the call returns whenever these columns exist and [num] is a row of
    them; the first filter whose error column is missing under its
    internal name makes it raise the [KeyError] of [f + "_err"]; and the
    result is the same under any dict of aliases.  Consequently, on a
    catalog whose fluxes are stored under aliased names and where some
    filter has no error column under its internal name, [getFluxerr]
    raises the [KeyError] of the first such filter while [getFlux], on
    the same catalog and row, returns a flux per filter. *)
Theorem getFluxerr_bypasses_aliases (self : t) (num : Z) :
  (forall errs,
      getFluxerr self num = Ok errs ->
      length errs = length (filters self)
      /\ forall i f,
          nth_error (filters self) i = Some f ->
          exists col j x,
            Tbl.lookup (data self) (f ++ "_err") = Some col
            /\ py_index (length col) num = Ok j
            /\ nth_error col j = Some x
            /\ nth_error errs i = Some x)
  /\ ((forall f, In f (filters self) ->
                 exists col, Tbl.lookup (data self) (f ++ "_err") = Some col
                             /\ is_ok (py_index (length col) num) = true) ->
      exists errs, getFluxerr self num = Ok errs)
  /\ (forall i f,
         nth_error (filters self) i = Some f ->
         Tbl.lookup (data self) (f ++ "_err") = None ->
         (forall j g, j < i -> nth_error (filters self) j = Some g ->
                      exists col, Tbl.lookup (data self) (g ++ "_err") = Some col
                                  /\ is_ok (py_index (length col) num) = true) ->
         getFluxerr self num = Raise (KeyError (f ++ "_err")))
  /\ (forall aliases, getFluxerr (with_aliases self aliases) num = getFluxerr self num)
  /\ (forall vega i f,
         vega_flux self = Some vega ->
         length vega = length (filters self) ->
         columns_aligned (data self) ->
         is_ok (row (data self) num) = true ->
         (forall ok, In ok (filters self) ->
                     exists name c, dict_get (filter_aliases self) ok = Ok name
                                    /\ Tbl.lookup (data self) name = Some c) ->
         nth_error (filters self) i = Some f ->
         Tbl.lookup (data self) (f ++ "_err") = None ->
         (forall j g, j < i -> nth_error (filters self) j = Some g ->
                      Tbl.lookup (data self) (g ++ "_err") <> None) ->
         getFluxerr self num = Raise (KeyError (f ++ "_err"))
         /\ exists flux, getFlux self num false = Ok flux
                         /\ length flux = length (filters self)).
Proof.
  assert (Hmiss : forall i f,
             nth_error (filters self) i = Some f ->
             Tbl.lookup (data self) (f ++ "_err") = None ->
             (forall j g, j < i -> nth_error (filters self) j = Some g ->
                          exists col, Tbl.lookup (data self) (g ++ "_err") = Some col
                                      /\ is_ok (py_index (length col) num) = true) ->
             getFluxerr self num = Raise (KeyError (f ++ "_err"))).
  { intros i f Hi Hnone Hbefore. unfold getFluxerr.
    apply (traverse_first_raise _ _ i f _ Hi (column_get_missing _ _ num Hnone)).
    intros j g Hj Hg. destruct (Hbefore j g Hj Hg) as (col & Hcol & Hok).
    apply (column_get_present _ _ _ _ Hcol Hok). }
  split; [|split; [|split; [exact Hmiss|split]]].
  - intros errs H. unfold getFluxerr in H. split.
    + apply (traverse_length _ _ _ H).
    + intros i f Hi. destruct (traverse_nth _ _ _ _ _ H Hi) as (x & Hx & Hxi).
      destruct (column_get_ok _ _ _ _ Hx) as (col & j & Hcol & Hj & Hcj).
      exists col, j, x. repeat split; assumption.
  - intros Hall. unfold getFluxerr. apply traverse_all_ok.
    intros f Hf. destruct (Hall f Hf) as (col & Hcol & Hok).
    pose proof (column_get_present _ _ _ _ Hcol Hok) as H.
    destruct (column_get (data self) (f ++ "_err") num) as [x|]; [eauto | discriminate].
  - intros aliases. reflexivity.
  - intros vega i f Hv Hlen Hal Hrow Hcols Hi Hnone Hbefore. split.
    + apply (Hmiss i f Hi Hnone). intros j g Hj Hg.
      destruct (Tbl.lookup (data self) (g ++ "_err")) as [col|] eqn:Hcol;
        [|exfalso; apply (Hbefore j g Hj Hg); exact Hcol].
      exists col. split; [reflexivity|].
      rewrite (Hal _ _ Hcol). exact Hrow.
    + eapply getFlux_ok; eauto.
Qed.

Lemma getFluxerr_bypasses_aliases_witness :
  getFluxerr aliased_catalog 1 = Raise (KeyError "HST_WFC3_F475W_err")
  /\ (exists flux, getFlux aliased_catalog 1 false = Ok flux /\ length flux = 2)
  /\ (exists errs, getFluxerr named_catalog 1 = Ok errs
                   /\ nth_error errs 1 = Some 1%float).
Proof.
  destruct (getFluxerr_bypasses_aliases aliased_catalog 1%Z) as (_ & _ & _ & _ & HE).
  destruct (getFluxerr_bypasses_aliases named_catalog 1%Z) as (HA & HB & _).
  destruct (HE [0.5; 0.25]%float 0 "HST_WFC3_F475W") as (H1 & H2).
  - reflexivity.
  - reflexivity.
  - intros name c Hc. simpl in Hc.
    repeat match type of Hc with
           | (if ?b then _ else _) = _ => destruct b
           end; inversion Hc; reflexivity.
  - reflexivity.
  - intros ok [<- | [<- | []]]; do 2 eexists; split; reflexivity.
  - reflexivity.
  - reflexivity.
  - intros j g Hj. inversion Hj.
  - split; [exact H1|]. split; [exact H2|].
    destruct HB as (errs & Herrs).
    + intros f [<- | [<- | []]]; eexists; split; reflexivity.
    + exists errs. split; [exact Herrs|].
      destruct (HA errs Herrs) as (_ & Hval).
      destruct (Hval 1 "HST_WFC3_F814W" eq_refl) as (col & j & x & Hcol & Hj & Hx & He).
      simpl in Hcol. inversion Hcol; subst col.
      simpl in Hj. inversion Hj; subst j.
      simpl in Hx. inversion Hx; subst x. exact He.
Defined.

End ObservationsFacts.

(** ** The order of binary64 values *)

Module F64Order.

Import F64 F64Facts.
Local Open Scope float_scope.

Lemma sf_leb_key (a b : spec_float) :
  sf_nan a = false -> sf_nan b = false ->
  (SFleb a b = true <-> lex_le (sf_key a) (sf_key b)).
Proof.
  intros Ha Hb.
  destruct a as [s1 | s1 | | s1 m1 e1]; try discriminate;
    destruct b as [s2 | s2 | | s2 m2 e2]; try discriminate;
    unfold SFleb, SFcompare, sf_key, lex_le;
    try (destruct s1; try destruct s2; simpl; split; intros; try lia; congruence);
    try (destruct s2; simpl; split; intros; try lia; congruence).
  change (PosDef.Pos.compare_cont Eq m1 m2) with (Pos.compare m1 m2).
  destruct s1, s2; simpl;
    destruct (Z.compare_spec e1 e2); destruct (Pos.compare_spec m1 m2);
    simpl; split; intros; try lia; try congruence.
Qed.

Lemma leb_not_nan (x y : float) :
  (x <=? y) = true -> is_nan x = false /\ is_nan y = false.
Proof.
  rewrite leb_spec, !is_nan_sf. unfold SFleb, SFcompare.
  destruct (Prim2SF x); destruct (Prim2SF y); simpl; intros H; try discriminate; auto.
Qed.

Lemma leb_trans (x y z : float) :
  (x <=? y) = true -> (y <=? z) = true -> (x <=? z) = true.
Proof.
  intros H1 H2.
  destruct (leb_not_nan _ _ H1) as [Nx Ny].
  destruct (leb_not_nan _ _ H2) as [_ Nz].
  rewrite leb_spec in *. rewrite is_nan_sf in *.
  apply sf_leb_key in H1; auto. apply sf_leb_key in H2; auto.
  apply sf_leb_key; auto.
  destruct (sf_key (Prim2SF x)) as [[a1 a2] a3].
  destruct (sf_key (Prim2SF y)) as [[b1 b2] b3].
  destruct (sf_key (Prim2SF z)) as [[c1 c2] c3].
  unfold lex_le in *. lia.
Qed.

Lemma leb_total (x y : float) :
  is_nan x = false -> is_nan y = false ->
  (x <=? y) = false -> (y <=? x) = true.
Proof.
  intros Nx Ny H. rewrite leb_spec in *. rewrite is_nan_sf in *.
  apply sf_leb_key; auto.
  destruct (SFleb (Prim2SF x) (Prim2SF y)) eqn:E; [discriminate|].
  assert (Hn : ~ lex_le (sf_key (Prim2SF x)) (sf_key (Prim2SF y))).
  { intros C. apply sf_leb_key in C; auto. congruence. }
  destruct (sf_key (Prim2SF x)) as [[a1 a2] a3].
  destruct (sf_key (Prim2SF y)) as [[b1 b2] b3].
  unfold lex_le in *. lia.
Qed.

Lemma leb_refl (x : float) : is_nan x = false -> (x <=? x) = true.
Proof.
  intros Nx. destruct (x <=? x) eqn:E; [reflexivity|].
  pose proof (leb_total x x Nx Nx E). congruence.
Qed.

End F64Order.

(** ** [np.max] *)

Module NpMax.

Import F64 F64Facts F64Order.
Local Open Scope float_scope.

Lemma maximum_cases (a b : float) :
  Np.maximum a b = a \/ Np.maximum a b = b.
Proof. unfold Np.maximum. destruct ((b <=? a) || is_nan a); auto. Qed.

Lemma fold_maximum_spec (r : list float) : forall acc,
  let m := fold_left Np.maximum r acc in
  (m = acc \/ In m r)
  /\ (is_nan acc = false -> existsb is_nan r = false ->
      is_nan m = false /\ (acc <=? m) = true
      /\ forall x, In x r -> (x <=? m) = true).
Proof.
  induction r as [|x r IH]; intros acc; simpl.
  - split; [auto|]. intros Na _. repeat split; [assumption | apply leb_refl; assumption | tauto].
  - specialize (IH (Np.maximum acc x)). simpl in IH. destruct IH as [IH1 IH2].
    split.
    + destruct IH1 as [E|E]; [|auto].
      destruct (maximum_cases acc x) as [C|C]; [left | right; left]; congruence.
    + intros Na Hr. apply orb_false_iff in Hr. destruct Hr as [Nx Nr].
      unfold Np.maximum in *. rewrite Na, orb_false_r in *.
      destruct (x <=? acc) eqn:E.
      * destruct (IH2 Na Nr) as (Nm & Hm & Hall).
        repeat split; auto.
        intros y [<-|Hy]; [eapply leb_trans; eauto | auto].
      * destruct (IH2 Nx Nr) as (Nm & Hm & Hall).
        pose proof (leb_total _ _ Nx Na E) as Hax.
        repeat split; auto.
        -- eapply leb_trans; eauto.
        -- intros y [<-|Hy]; auto.
Qed.

(** [np.max] of a row is one of its entries, and no entry of a row without
    NaN exceeds it. *)
Lemma max_row_spec (row : list float) (m : float) :
  Np.max_row row = Ok m ->
  In m row
  /\ (existsb is_nan row = false -> forall x, In x row -> (x <=? m) = true).
Proof.
  destruct row as [|x r]; simpl; intros H; [discriminate|].
  inversion H; subst; clear H.
  destruct (fold_maximum_spec r x) as [H1 H2]. simpl in *.
  split; [destruct H1; [left; congruence | right; assumption]|].
  intros Hn. apply orb_false_iff in Hn. destruct Hn as [Nx Nr].
  destruct (H2 Nx Nr) as (_ & Hx & Hall).
  intros y [<-|Hy]; auto.
Qed.

End NpMax.

(** ** Facts about the string methods *)

Module StrFacts.

Import Str.
Local Open Scope string_scope.

Lemma split_nonempty (sep : ascii) (s : string) : split sep s <> [].
Proof.
  destruct s as [|c r]; simpl; [discriminate|].
  destruct (Ascii.eqb c sep); [discriminate|].
  destruct (split sep r); discriminate.
Qed.

Lemma split_no_sep (sep : ascii) (s : string) :
  Forall (fun t => has_char sep t = false) (split sep s).
Proof.
  induction s as [|c r IH]; simpl.
  - constructor; [reflexivity | constructor].
  - destruct (Ascii.eqb c sep) eqn:E.
    + constructor; [reflexivity | exact IH].
    + destruct (split sep r) as [|t ts].
      * constructor; [simpl; rewrite E; reflexivity | constructor].
      * inversion IH; subst. constructor; [simpl; rewrite E; assumption | assumption].
Qed.

Lemma split_join (sep : ascii) (s : string) :
  String.concat (String sep EmptyString) (split sep s) = s.
Proof.
  induction s as [|c r IH]; simpl.
  - reflexivity.
  - destruct (Ascii.eqb c sep) eqn:E.
    + apply Ascii.eqb_eq in E. subst c.
      pose proof (split_nonempty sep r) as Hn.
      destruct (split sep r) as [|t ts]; [congruence|].
      simpl in *. rewrite IH. reflexivity.
    + pose proof (split_nonempty sep r) as Hn.
      destruct (split sep r) as [|t ts]; [congruence|].
      destruct ts as [|t' ts'].
      * simpl in *. congruence.
      * change (String c t ++ String sep EmptyString
                  ++ String.concat (String sep EmptyString) (t' :: ts') = String c r).
        change (t ++ String sep EmptyString
                  ++ String.concat (String sep EmptyString) (t' :: ts') = r) in IH.
        rewrite <- IH. reflexivity.
Qed.

Lemma append_assoc (a b c : string) : (a ++ b) ++ c = a ++ (b ++ c).
Proof. induction a as [|x a IH]; simpl; [reflexivity | rewrite IH; reflexivity]. Qed.

Lemma concat_snoc (sep : string) (init : list string) (t : string) :
  init <> [] ->
  String.concat sep (init ++ [t]) = String.concat sep init ++ sep ++ t.
Proof.
  induction init as [|x r IH]; intros Hn; [congruence|].
  destruct r as [|y r'].
  - reflexivity.
  - change (String.concat sep ((x :: y :: r') ++ [t]))
      with (x ++ sep ++ String.concat sep ((y :: r') ++ [t])).
    rewrite IH by discriminate.
    change (String.concat sep (x :: y :: r'))
      with (x ++ sep ++ String.concat sep (y :: r')).
    rewrite !append_assoc. reflexivity.
Qed.

(** The token [s.split("_")[-1]] holds no underscore, and [s] is that token
    alone or ends with an underscore followed by that token. *)
Lemma last_token_spec (s : string) :
  has_char underscore (last_token s) = false
  /\ (s = last_token s \/ exists pre, s = pre ++ "_" ++ last_token s).
Proof.
  unfold last_token.
  pose proof (split_nonempty underscore s) as Hn.
  pose proof (split_no_sep underscore s) as Hf.
  pose proof (split_join underscore s) as Hj.
  destruct (exists_last Hn) as (init & t & E). rewrite E in *.
  rewrite last_last. split.
  - apply Forall_app in Hf. destruct Hf as [_ Hf]. inversion Hf; assumption.
  - destruct init as [|x r].
    + left. simpl in Hj. congruence.
    + right. rewrite concat_snoc in Hj by discriminate.
      eexists. symmetry. exact Hj.
Qed.

Lemma mem_false (x : string) (xs : list string) :
  mem x xs = false -> forall y, In y xs -> y <> x.
Proof.
  unfold mem. intros H y Hy E. subst y.
  assert (existsb (String.eqb x) xs = true).
  { apply existsb_exists. exists x. split; [assumption | apply String.eqb_refl]. }
  congruence.
Qed.

Lemma index_spec (x : string) (xs : list string) :
  forall k, index x xs = Some k ->
            nth_error xs k = Some x
            /\ forall j y, j < k -> nth_error xs j = Some y -> y <> x.
Proof.
  induction xs as [|y r IH]; simpl; intros k H; [discriminate|].
  destruct (String.eqb y x) eqn:E.
  - inversion H; subst. apply String.eqb_eq in E. subst. split; [reflexivity|].
    intros j z Hj. lia.
  - destruct (index x r) as [k'|]; [|discriminate]. inversion H; subst.
    destruct (IH k' eq_refl) as [H1 H2]. split; [exact H1|].
    intros j z Hj Hz. destruct j as [|j]; simpl in Hz.
    + inversion Hz; subst. apply String.eqb_neq. exact E.
    + apply (H2 j); [lia | assumption].
Qed.

Lemma mem_index (x : string) (xs : list string) :
  mem x xs = true -> exists k, index x xs = Some k.
Proof.
  unfold mem. induction xs as [|y r IH]; simpl; intros H; [discriminate|].
  destruct (String.eqb y x) eqn:E; [eauto|].
  rewrite String.eqb_sym, E in H. simpl in H.
  destruct (IH H) as (k & Hk). rewrite Hk. simpl. eauto.
Qed.

(** Every joined string stands in the joined text. *)
Lemma join_contains (sep b : string) (xs : list string) :
  In b xs -> exists pre post, String.concat sep xs = pre ++ b ++ post.
Proof.
  induction xs as [|x r IH]; intros H; [destruct H|].
  destruct H as [<-|H].
  - exists EmptyString. destruct r; simpl.
    + exists EmptyString. clear. induction x; simpl; congruence.
    + eexists. reflexivity.
  - destruct (IH H) as (pre & post & E).
    destruct r as [|y r']; [destruct H|].
    change (String.concat sep (x :: y :: r'))
      with (x ++ sep ++ String.concat sep (y :: r')).
    rewrite E. exists (x ++ sep ++ pre), post.
    rewrite !append_assoc. reflexivity.
Qed.

End StrFacts.

(** ** The state-and-exception monad *)

Section MonadFacts.

Context {env : NumpyEnv}.

Lemma bind_ok {A B : Type} (m : M A) (k : A -> M B) (w w' : world) (b : B) :
  bind m k w = (Ok b, w') ->
  exists a w1, m w = (Ok a, w1) /\ k a w1 = (Ok b, w').
Proof.
  unfold bind. destruct (m w) as [[a|e] w1]; intros H; [eauto | discriminate].
Qed.

Lemma bind_step {A B : Type} (m : M A) (k : A -> M B) (w w1 : world) (a : A) :
  m w = (Ok a, w1) -> bind m k w = k a w1.
Proof. unfold bind. intros ->. reflexivity. Qed.

Lemma bind_raise {A B : Type} (m : M A) (k : A -> M B) (w w1 : world) (e : exn) :
  m w = (Raise e, w1) -> bind m k w = (Raise e, w1).
Proof. unfold bind. intros ->. reflexivity. Qed.

Lemma lift_ok {A : Type} (r : result A) (w w' : world) (a : A) :
  lift r w = (Ok a, w') -> r = Ok a /\ w' = w.
Proof. unfold lift. intros H. inversion H; auto. Qed.

Lemma print_ok (l : out_line) (w w' : world) (u : unit) :
  print l w = (Ok u, w') -> w' = snd (print l w).
Proof. intros H. rewrite H. reflexivity. Qed.

End MonadFacts.

(** ** The completeness filter *)

Section CompletenessFacts.

Context {env : NumpyEnv}.

Local Open Scope string_scope.
Local Open Scope float_scope.

Lemma max_axis1_spec (a : Np.array2) (mc : Np.array) :
  Np.max_axis1 a = Ok mc ->
  length mc = length a
  /\ forall i row m,
      nth_error a i = Some row -> nth_error mc i = Some m ->
      In m row
      /\ (existsb is_nan row = false -> forall x, In x row -> (x <=? m) = true).
Proof.
  intros H. split; [eapply traverse_length; exact H|].
  intros i row m Hrow Hm.
  destruct (traverse_nth _ _ _ _ _ H Hrow) as (m' & Hm' & Hi).
  assert (m' = m) by congruence. subst m'.
  apply NpMax.max_row_spec. exact Hm'.
Qed.

(** C7. With ["max"] requested (in any letter case) the completeness of
    model [i] is [np.max] of row [i] of the completeness array: an entry of
    that row that no entry of a NaN-free row exceeds.  Otherwise the request
    is compared, in upper case, with the upper-cased token after the last
    underscore of each filter of the grid.  When none is equal the generator
    raises [NotImplementedError] with the message that lists these tokens,
    and nothing else has happened (the state is the initial one: nothing
    printed, no seeding, no draw).  When one is equal, the first such filter
    [k] is taken and the completeness of each model is its column [k]. *)
Theorem completeness_filter_resolution
        (sedgrid : SEDGrid) (noise : NoiseModel) (nsim : nat)
        (compl_filter : string) (ranseed : option Z)
        (vega_fname : option string) (weight_to_use : string) (w : world) :
  let short_filters := map Str.band (filters sedgrid) in
  (String.eqb (Str.lower compl_filter) "max" = true ->
   model_completeness sedgrid noise compl_filter w
   = (Np.max_axis1 (completeness noise), w)
   /\ forall mc,
       Np.max_axis1 (completeness noise) = Ok mc ->
       length mc = length (completeness noise)
       /\ forall i row m,
           nth_error (completeness noise) i = Some row ->
           nth_error mc i = Some m ->
           In m row
           /\ (existsb is_nan row = false ->
               forall x, In x row -> (x <=? m) = true))
  /\ (String.eqb (Str.lower compl_filter) "max" = false ->
      (Str.mem (Str.upper compl_filter) short_filters = false ->
       (forall f, In f (filters sedgrid) ->
                  Str.upper (Str.last_token f) <> Str.upper compl_filter)
       /\ gen_SimObs_from_sedgrid sedgrid noise nsim compl_filter ranseed
                                  vega_fname weight_to_use w
          = (Raise (NotImplementedError
                      (not_present_message compl_filter short_filters)), w)
       /\ forall b, In b short_filters ->
                    exists pre post,
                      not_present_message compl_filter short_filters
                      = pre ++ b ++ post)
      /\ (Str.mem (Str.upper compl_filter) short_filters = true ->
          exists k f,
            nth_error (filters sedgrid) k = Some f
            /\ Str.upper (Str.last_token f) = Str.upper compl_filter
            /\ (forall j g, j < k -> nth_error (filters sedgrid) j = Some g ->
                            Str.upper (Str.last_token g) <> Str.upper compl_filter)
            /\ model_completeness sedgrid noise compl_filter w
               = (Np.column (completeness noise) k,
                  snd (print (OutStr ("Completeness from " ++ f)) w)))).
Proof.
  intros short_filters. split; [intros Hmax | intros Hnot; split; intros Hmem].
  - split.
    + unfold model_completeness. rewrite Hmax. reflexivity.
    + apply max_axis1_spec.
  - split; [|split].
    + intros f Hf E.
      apply (StrFacts.mem_false _ _ Hmem (Str.band f)); [|exact E].
      apply in_map. exact Hf.
    + unfold gen_SimObs_from_sedgrid, pick_models, model_completeness, bind.
      rewrite Hnot. fold short_filters. rewrite Hmem. reflexivity.
    + intros b Hb. unfold not_present_message.
      destruct (StrFacts.join_contains Str.newline b short_filters Hb)
        as (pre & post & E).
      unfold Str.join_lines. rewrite E.
      exists ("Requested completeness filter not present:"
              ++ Str.upper compl_filter
              ++ Str.newline ++ "Possible filters:" ++ pre), post.
      repeat rewrite StrFacts.append_assoc. reflexivity.
  - destruct (StrFacts.mem_index _ _ Hmem) as (k & Hk).
    destruct (StrFacts.index_spec _ _ _ Hk) as [Hnth Hfirst].
    unfold short_filters in Hnth.
    rewrite nth_error_map in Hnth.
    destruct (nth_error (filters sedgrid) k) as [f|] eqn:Hf; [|discriminate].
    simpl in Hnth.
    assert (Hband : Str.band f = Str.upper compl_filter) by congruence.
    exists k, f. split; [exact Hf|]. split; [exact Hband|]. split.
    + intros j g Hj Hg. apply (Hfirst j (Str.band g)); [exact Hj|].
      unfold short_filters. rewrite nth_error_map, Hg. reflexivity.
    + unfold model_completeness. rewrite Hnot. fold short_filters.
      rewrite Hmem, Hk. simpl.
      unfold bind, lift, Np.nth_or_raise. rewrite Hf. reflexivity.
Qed.

End CompletenessFacts.

(** ** Tables *)

Module TblFacts.

Import Tbl.
Local Open Scope string_scope.

Lemma lookup_none_mem (ot : Table) (name : string) :
  lookup ot name = None <-> Str.mem name (colnames ot) = false.
Proof.
  unfold Str.mem, colnames. induction ot as [|[n c] r IH]; simpl.
  - tauto.
  - rewrite (String.eqb_sym name n). destruct (String.eqb n name); simpl.
    + split; discriminate.
    + exact IH.
Qed.

Lemma lookup_replace_same (ot : Table) (name : string) (c : Column) :
  lookup ot name <> None -> lookup (replace ot name c) name = Some c.
Proof.
  induction ot as [|[n c0] r IH]; simpl; intros H.
  - congruence.
  - destruct (String.eqb n name) eqn:E; simpl; rewrite E; auto.
Qed.

Lemma lookup_replace_other (ot : Table) (name other : string) (c : Column) :
  other <> name -> lookup (replace ot name c) other = lookup ot other.
Proof.
  intros Hne. induction ot as [|[n c0] r IH]; simpl.
  - reflexivity.
  - destruct (String.eqb n name) eqn:E; simpl.
    + apply String.eqb_eq in E. subst n.
      destruct (String.eqb name other) eqn:E'; [|reflexivity].
      apply String.eqb_eq in E'. congruence.
    + rewrite IH. reflexivity.
Qed.

Lemma colnames_replace (ot : Table) (name : string) (c : Column) :
  colnames (replace ot name c) = colnames ot.
Proof.
  unfold colnames. induction ot as [|[n c0] r IH]; simpl.
  - reflexivity.
  - destruct (String.eqb n name); simpl; [reflexivity | rewrite IH; reflexivity].
Qed.

Lemma lookup_app_new (ot : Table) (name other : string) (c : Column) :
  lookup (ot ++ [(name, c)])%list other
  = match lookup ot other with
    | Some c0 => Some c0
    | None => if String.eqb name other then Some c else None
    end.
Proof.
  induction ot as [|[n c0] r IH]; simpl.
  - reflexivity.
  - destruct (String.eqb n other); [reflexivity | exact IH].
Qed.

(** What [set] returns, when it returns. *)
Lemma set_ok (ot ot' : Table) (name : string) (c : Column) :
  set ot name c = Ok ot' ->
  ot' = match lookup ot name with
        | Some _ => replace ot name c
        | None => (ot ++ [(name, c)])%list
        end
  /\ (ot <> [] -> length c = nrows ot).
Proof.
  unfold set. destruct ot as [|p r].
  - intros H. inversion H; subst. split; [reflexivity | congruence].
  - destruct (negb (length c =? nrows (p :: r))%nat) eqn:E; [discriminate|].
    apply negb_false_iff, Nat.eqb_eq in E.
    destruct (lookup (p :: r) name); intros H; inversion H; subst; auto.
Qed.

Lemma lookup_set_same (ot ot' : Table) (name : string) (c : Column) :
  set ot name c = Ok ot' -> lookup ot' name = Some c.
Proof.
  intros H. apply set_ok in H. destruct H as [-> _].
  destruct (lookup ot name) eqn:E.
  - apply lookup_replace_same. congruence.
  - rewrite lookup_app_new, E, String.eqb_refl. reflexivity.
Qed.

Lemma lookup_set_other (ot ot' : Table) (name other : string) (c : Column) :
  set ot name c = Ok ot' -> other <> name -> lookup ot' other = lookup ot other.
Proof.
  intros H Hne. apply set_ok in H. destruct H as [-> _].
  destruct (lookup ot name) eqn:E.
  - apply lookup_replace_other. exact Hne.
  - rewrite lookup_app_new. destruct (lookup ot other); [reflexivity|].
    destruct (String.eqb name other) eqn:E'; [|reflexivity].
    apply String.eqb_eq in E'. congruence.
Qed.

Lemma colnames_set (ot ot' : Table) (name : string) (c : Column) :
  set ot name c = Ok ot' -> colnames ot' = add_name (colnames ot) name.
Proof.
  intros H. apply set_ok in H. destruct H as [-> _]. unfold add_name.
  destruct (lookup ot name) eqn:E.
  - rewrite colnames_replace.
    destruct (Str.mem name (colnames ot)) eqn:M; [reflexivity|].
    apply lookup_none_mem in M. congruence.
  - apply lookup_none_mem in E. rewrite E.
    unfold colnames. rewrite map_app. reflexivity.
Qed.

Lemma get_ok (ot : Table) (name : string) (c : Column) :
  get ot name = Ok c <-> lookup ot name = Some c.
Proof.
  unfold get. destruct (lookup ot name); split; intros H; inversion H; reflexivity.
Qed.

Lemma all_length_lookup (n : nat) (ot : Table) (name : string) (c : Column) :
  all_length n ot -> lookup ot name = Some c -> length c = n.
Proof.
  unfold all_length. induction ot as [|[m c0] r IH]; simpl; intros H E.
  - discriminate.
  - inversion H as [|? ? Hc Hr]. simpl in Hc. destruct (String.eqb m name).
    + congruence.
    + auto.
Qed.

Lemma all_length_replace (n : nat) (ot : Table) (name : string) (c : Column) :
  all_length n ot -> length c = n -> all_length n (replace ot name c).
Proof.
  unfold all_length. induction ot as [|[m c0] r IH]; simpl; intros H E.
  - constructor.
  - inversion H as [|? ? Hc Hr]. destruct (String.eqb m name); constructor; auto.
Qed.

Lemma all_length_set (n : nat) (ot ot' : Table) (name : string) (c : Column) :
  all_length n ot -> length c = n -> set ot name c = Ok ot' -> all_length n ot'.
Proof.
  intros H E S. apply set_ok in S. destruct S as [-> _].
  destruct (lookup ot name).
  - apply all_length_replace; assumption.
  - apply Forall_app. split; [assumption|]. constructor; [assumption | constructor].
Qed.


End TblFacts.

(** ** Rates and magnitudes *)

Section MagnitudeFacts.

Context {env : NumpyEnv}.

Import F64 F64Facts TblFacts.
Local Open Scope string_scope.
Local Open Scope float_scope.

Lemma count_true_compress (r : Np.array) (f : float -> float) (p : float -> bool) :
  length (map f (Np.compress r (map p r))) = Np.count_true (map p r).
Proof.
  rewrite length_map. unfold Np.count_true.
  induction r as [|x r IH]; simpl; [reflexivity|].
  destruct (p x); simpl; rewrite IH; reflexivity.
Qed.

Lemma scatter_length (a : Np.array) : forall m vals,
  length (Np.scatter a m vals) = length a.
Proof.
  induction a as [|x a IH]; intros m vals; [reflexivity|].
  destruct m as [|b m]; [reflexivity|]. simpl.
  destruct b; [destruct vals|]; simpl; rewrite IH; reflexivity.
Qed.

Lemma masked_assignments (r : Np.array) :
  Np.put_mask_scalar
    (Np.scatter r (map gt0 r) (map vega_mag (Np.compress r (map gt0 r))))
    (map le0 r) sentinel
  = map mag_of_rate r.
Proof.
  unfold mag_of_rate. induction r as [|x r IH]; simpl; [reflexivity|].
  destruct (gt0 x) eqn:G; simpl; rewrite IH; reflexivity.
Qed.

Lemma mag_of_rate_policy (r : float) :
  (le0 r = true -> mag_of_rate r = sentinel)
  /\ (gt0 r = true -> mag_of_rate r = vega_mag r).
Proof.
  unfold mag_of_rate. split; intros H.
  - rewrite H. reflexivity.
  - rewrite (gt0_not_le0 _ H), H. reflexivity.
Qed.

(** What [rate_and_mag] leaves in the table. *)
Lemma rate_and_mag_spec (ot ot' : Tbl.Table) (fluxname colname magname : string)
      (vega_flux : Np.array) (k : nat) :
  colname <> magname ->
  rate_and_mag ot fluxname colname magname vega_flux k = Ok ot' ->
  exists f vk,
    Tbl.lookup ot fluxname = Some f
    /\ nth_error vega_flux k = Some vk
    /\ Tbl.lookup ot' colname = Some (Np.div_scalar f vk)
    /\ Tbl.lookup ot' magname = Some (map mag_of_rate (Np.div_scalar f vk))
    /\ (forall other, other <> colname -> other <> magname ->
                      Tbl.lookup ot' other = Tbl.lookup ot other)
    /\ Tbl.colnames ot' = add_name (add_name (Tbl.colnames ot) colname) magname
    /\ (forall n, all_length n ot -> all_length n ot').
Proof.
  intros Hne H. unfold rate_and_mag in H.
  apply rbind_ok in H. destruct H as (f & Ef & H).
  apply rbind_ok in H. destruct H as (vk & Evk & H).
  apply rbind_ok in H. destruct H as (ot1 & S1 & H).
  apply rbind_ok in H. destruct H as (r & Er & H).
  apply rbind_ok in H. destruct H as (r' & Er' & H).
  apply rbind_ok in H. destruct H as (r'' & Er'' & H).
  apply rbind_ok in H. destruct H as (ot2 & S2 & H).
  apply rbind_ok in H. destruct H as (r3 & Er3 & H).
  apply rbind_ok in H. destruct H as (m & Em & H).
  apply rbind_ok in H. destruct H as (m1 & Em1 & H).
  apply rbind_ok in H. destruct H as (m2 & Em2 & H).
  inversion H; subst ot'; clear H.
  apply get_ok in Ef, Er, Er', Er'', Er3, Em, Em2.
  set (rate := Np.div_scalar f vk) in *.
  pose proof (lookup_set_same _ _ _ _ S1) as L1.
  assert (r = rate) by congruence. assert (r' = rate) by congruence.
  assert (r'' = rate) by congruence. subst r r' r''.
  pose proof (lookup_set_same _ _ _ _ S2) as L2.
  assert (m = rate) by congruence. subst m.
  assert (L2c : Tbl.lookup ot2 colname = Some rate).
  { rewrite (lookup_set_other _ _ _ _ _ S2 Hne). exact L1. }
  assert (r3 = rate) by congruence. subst r3.
  unfold Np.put_mask in Em1.
  rewrite count_true_compress, Nat.eqb_refl in Em1. inversion Em1; subst m1; clear Em1.
  rewrite lookup_replace_same in Em2 by congruence.
  inversion Em2; subst m2; clear Em2.
  rewrite masked_assignments.
  unfold Np.nth_or_raise in Evk.
  destruct (nth_error vega_flux k) as [vk'|] eqn:Ev; inversion Evk; subst vk'.
  exists f, vk. split; [exact Ef|]. split; [reflexivity|]. split; [|split; [|split; [|split]]].
  - rewrite !lookup_replace_other by exact Hne. exact L2c.
  - apply lookup_replace_same. rewrite lookup_replace_same; congruence.
  - intros other H1 H2. rewrite !lookup_replace_other by exact H2.
    rewrite (lookup_set_other _ _ _ _ _ S2 H2).
    apply (lookup_set_other _ _ _ _ _ S1 H1).
  - rewrite !colnames_replace.
    rewrite (colnames_set _ _ _ _ S2), (colnames_set _ _ _ _ S1). reflexivity.
  - intros n Hn.
    assert (Hf : length f = n) by (eapply all_length_lookup; eauto).
    assert (Hr : length rate = n) by (unfold rate, Np.div_scalar; rewrite length_map; exact Hf).
    assert (H1 : all_length n ot1) by (eapply all_length_set; eauto).
    assert (H2 : all_length n ot2) by (eapply all_length_set; eauto).
    apply all_length_replace; [apply all_length_replace; [exact H2|]|].
    + rewrite scatter_length. exact Hr.
    + rewrite length_map. exact Hr.
Qed.

End MagnitudeFacts.

(** ** One pass of the loop over the filters *)

Lemma append_cancel (b x y : string) : (b ++ x = b ++ y)%string -> x = y.
Proof. induction b as [|c b IH]; simpl; intros H; [exact H | inversion H; auto]. Qed.

(** Two column names of one band with different endings differ. *)
Ltac names_ne :=
  let E := fresh in
  intros E; apply append_cancel in E; discriminate E.

Section FilterFacts.

Context {env : NumpyEnv}.

Import F64 F64Facts TblFacts.
Local Open Scope string_scope.
Local Open Scope float_scope.

Lemma print_state (l : out_line) (w w' : world) (u : unit) :
  print l w = (Ok u, w') -> np_state w' = np_state w.
Proof. unfold print. intros H. inversion H. reflexivity. Qed.

Lemma take2_length (a : Np.array2) (idx : list nat) (k : nat) (v : Np.array) :
  Np.take2 a idx k = Ok v -> length v = length idx.
Proof. apply traverse_length. Qed.

Lemma take_length (a : Np.array) (idx : list nat) (v : Np.array) :
  Np.take a idx = Ok v -> length v = length idx.
Proof. apply traverse_length. Qed.

Lemma broadcast_pairs_same (a b : Np.array) :
  length a = length b -> Np.broadcast_pairs a b = Ok (combine a b).
Proof.
  intros H. unfold Np.broadcast_pairs.
  replace (length a =? length b)%nat with true by (symmetry; apply Nat.eqb_eq; exact H).
  reflexivity.
Qed.

Lemma broadcast_same (op : float -> float -> float) (a b : Np.array) :
  length a = length b ->
  Np.broadcast op a b = Ok (map (fun xy => op (fst xy) (snd xy)) (combine a b)).
Proof.
  intros H. unfold Np.broadcast. rewrite broadcast_pairs_same by exact H. reflexivity.
Qed.

Lemma normal_loop_spec (ls : list (float * float)) :
  forall g xs g',
    normal_loop ls g = (xs, g') ->
    length xs = length ls
    /\ forall j loc scale,
        nth_error ls j = Some (loc, scale) ->
        exists gj, nth_error xs j = Some (loc + scale * fst (gauss gj)).
Proof.
  induction ls as [|[l s] r IH]; simpl; intros g xs g' H.
  - inversion H; subst. split; [reflexivity|]. intros [|j]; discriminate.
  - destruct (gauss g) as [z g1] eqn:Ez.
    destruct (normal_loop r g1) as [ys g2] eqn:Er.
    inversion H; subst. destruct (IH _ _ _ Er) as [Hl Hn].
    split; [simpl; congruence|].
    intros [|j] loc scale Hj; simpl in *.
    + inversion Hj; subst. exists g. rewrite Ez. reflexivity.
    + apply Hn. exact Hj.
Qed.

(** What [np.random.normal] returns, when it returns. *)
Lemma np_random_normal_ok (loc scale xs : Np.array) (w w' : world) :
  np_random_normal loc scale w = (Ok xs, w') ->
  exists ls,
    Np.broadcast_pairs loc scale = Ok ls
    /\ normal_loop ls (np_state w) = (xs, np_state w')
    /\ stdout w' = stdout w
    /\ entropy w' = entropy w
    /\ entropy_used w' = entropy_used w.
Proof.
  unfold np_random_normal. destruct (existsb lt0 scale); [discriminate|].
  destruct (Np.broadcast_pairs loc scale) as [ls|]; [|discriminate].
  destruct (normal_loop ls (np_state w)) as [ys g] eqn:E.
  intros H. inversion H; subst. exists ls. simpl. auto.
Qed.

(** What one pass of the loop leaves in the table. *)
Lemma simulate_filter_spec
      (sedgrid : SEDGrid) (noise : NoiseModel) (model_compl : Np.array)
      (sim_indx : list nat) (vega_flux : Np.array) (ot ot' : Tbl.Table)
      (k : nat) (fname : string) (w w' : world) :
  simulate_filter sedgrid noise model_compl sim_indx vega_flux ot (k, fname) w
  = (Ok ot', w') ->
  let bname := Str.band fname in
  exists f b u loc simflux vk w1,
    Np.take2 (seds sedgrid) sim_indx k = Ok f
    /\ Np.take2 (bias noise) sim_indx k = Ok b
    /\ Np.take2 (Np.fabs2 (error noise)) sim_indx k = Ok u
    /\ Np.add f b = Ok loc
    /\ nth_error vega_flux k = Some vk
    /\ np_state w1 = np_state w
    /\ np_random_normal loc u w1 = (Ok simflux, w')
    /\ Tbl.lookup ot' (bname ++ "_FLUX") = Some simflux
    /\ Tbl.lookup ot' (bname ++ "_RATE") = Some (Np.div_scalar simflux vk)
    /\ Tbl.lookup ot' (bname ++ "_VEGA")
       = Some (map mag_of_rate (Np.div_scalar simflux vk))
    /\ Tbl.lookup ot' (bname ++ "_INPUT_FLUX") = Some f
    /\ Tbl.lookup ot' (bname ++ "_INPUT_RATE") = Some (Np.div_scalar f vk)
    /\ Tbl.lookup ot' (bname ++ "_INPUT_VEGA")
       = Some (map mag_of_rate (Np.div_scalar f vk))
    /\ (forall other, ~ In other (six_names fname) ->
                      Tbl.lookup ot' other = Tbl.lookup ot other)
    /\ Tbl.colnames ot' = fold_left add_name (six_names fname) (Tbl.colnames ot)
    /\ (all_length (length sim_indx) ot -> all_length (length sim_indx) ot').
Proof.
  intros H bname. unfold simulate_filter in H. fold bname in H.
  apply bind_ok in H. destruct H as (u0 & w0 & P0 & H).
  apply bind_ok in H. destruct H as (f & wa & Ef & H). apply lift_ok in Ef. destruct Ef as [Ef ->].
  apply bind_ok in H. destruct H as (b & wa & Eb & H). apply lift_ok in Eb. destruct Eb as [Eb ->].
  apply bind_ok in H. destruct H as (loc & wa & El & H). apply lift_ok in El. destruct El as [El ->].
  apply bind_ok in H. destruct H as (u1 & w1 & P1 & H).
  apply bind_ok in H. destruct H as (u2 & w2 & P2 & H).
  apply bind_ok in H. destruct H as (u & wa & Eu & H). apply lift_ok in Eu. destruct Eu as [Eu ->].
  apply bind_ok in H. destruct H as (u3 & w3 & P3 & H).
  apply bind_ok in H. destruct H as (c & wa & Ec & H). apply lift_ok in Ec. destruct Ec as [Ec ->].
  apply bind_ok in H. destruct H as (u4 & w4 & P4 & H).
  apply bind_ok in H. destruct H as (simflux & w5 & En & H).
  apply bind_ok in H. destruct H as (ot1 & wa & S1 & H). apply lift_ok in S1. destruct S1 as [S1 ->].
  apply bind_ok in H. destruct H as (ot2 & wa & R1 & H). apply lift_ok in R1. destruct R1 as [R1 ->].
  apply bind_ok in H. destruct H as (f' & wa & Ef' & H). apply lift_ok in Ef'. destruct Ef' as [Ef' ->].
  apply bind_ok in H. destruct H as (ot3 & wa & S2 & H). apply lift_ok in S2. destruct S2 as [S2 ->].
  apply lift_ok in H. destruct H as [R2 ->].
  assert (f' = f) by congruence. subst f'.
  apply rate_and_mag_spec in R1; [|names_ne].
  destruct R1 as (f1 & vk & L1 & Evk & Lr1 & Lm1 & Lo1 & Ln1 & La1).
  apply rate_and_mag_spec in R2; [|names_ne].
  destruct R2 as (f2 & vk' & L2 & Evk' & Lr2 & Lm2 & Lo2 & Ln2 & La2).
  assert (vk' = vk) by congruence. subst vk'.
  rewrite (lookup_set_same _ _ _ _ S1) in L1. inversion L1; subst f1; clear L1.
  rewrite (lookup_set_same _ _ _ _ S2) in L2. inversion L2; subst f2; clear L2.
  exists f, b, u, loc, simflux, vk, w4.
  split; [exact Ef|]. split; [exact Eb|]. split; [exact Eu|]. split; [exact El|].
  split; [exact Evk|]. split.
  { rewrite (print_state _ _ _ _ P4), (print_state _ _ _ _ P3),
      (print_state _ _ _ _ P2), (print_state _ _ _ _ P1).
    apply (print_state _ _ _ _ P0). }
  split; [exact En|].
  assert (T3 : forall other, other <> bname ++ "_INPUT_FLUX" ->
                             other <> bname ++ "_INPUT_RATE" ->
                             other <> bname ++ "_INPUT_VEGA" ->
                             Tbl.lookup ot' other = Tbl.lookup ot2 other).
  { intros other A B C. rewrite Lo2 by assumption.
    apply (lookup_set_other _ _ _ _ _ S2). exact A. }
  split. { rewrite T3 by names_ne. rewrite Lo1 by names_ne.
           apply (lookup_set_same _ _ _ _ S1). }
  split. { rewrite T3 by names_ne. exact Lr1. }
  split. { rewrite T3 by names_ne. exact Lm1. }
  split. { rewrite Lo2 by names_ne. apply (lookup_set_same _ _ _ _ S2). }
  split; [exact Lr2|]. split; [exact Lm2|]. split; [|split].
  - intros other Hn. unfold six_names in Hn. fold bname in Hn. simpl in Hn.
    rewrite T3 by (intros E; apply Hn; auto 10).
    rewrite Lo1 by (intros E; apply Hn; auto 10).
    apply (lookup_set_other _ _ _ _ _ S1). intros E; apply Hn; auto 10.
  - rewrite Ln2, (colnames_set _ _ _ _ S2), Ln1, (colnames_set _ _ _ _ S1).
    reflexivity.
  - intros Ha.
    pose proof (take2_length _ _ _ _ Ef) as Lf.
    pose proof (take2_length _ _ _ _ Eb) as Lb.
    pose proof (take2_length _ _ _ _ Eu) as Lu.
    unfold Np.add in El. rewrite broadcast_same in El by congruence.
    inversion El as [El']. 
    assert (Lloc : length loc = length sim_indx).
    { rewrite <- El', length_map, length_combine. lia. }
    destruct (np_random_normal_ok _ _ _ _ _ En) as (ls & Els & Enl & _).
    rewrite broadcast_pairs_same in Els by congruence. inversion Els as [Els'].
    destruct (normal_loop_spec _ _ _ _ Enl) as [Lx _].
    assert (Lsim : length simflux = length sim_indx).
    { rewrite Lx, <- Els', length_combine. lia. }
    apply La2. eapply all_length_set; [| |exact S2]; [|exact Lf].
    apply La1. eapply all_length_set; [| |exact S1]; [exact Ha|exact Lsim].
Qed.

End FilterFacts.

(** ** The two streams of a filter *)

Section StreamFacts.

Context {env : NumpyEnv}.

Import F64 F64Facts TblFacts.
Local Open Scope string_scope.
Local Open Scope float_scope.

Lemma mag_of_rate_follows (rate : list float) :
  follows_policy rate (map mag_of_rate rate).
Proof.
  split; [apply length_map|].
  intros j r Hj. rewrite nth_error_map, Hj. simpl.
  destruct (mag_of_rate_policy r) as [H1 H2].
  split; intros H; f_equal; auto.
Qed.

(** C2. In one pass of the loop over the filters, the rate column of each
    stream is its flux column divided by the reference flux of the filter,
    and the magnitude column of each stream follows the policy: the entry is
    the sentinel -99.999 where the rate is [<= 0] and [-2.5 * log10(rate)]
    where the rate is [> 0].  The simulated stream uses the columns
    [_FLUX], [_RATE], [_VEGA] and the truth stream [_INPUT_FLUX],
    [_INPUT_RATE], [_INPUT_VEGA], each computed from its own flux column;
    a non-positive rate raises nothing. *)
Theorem magnitude_sentinel_policy
        (sedgrid : SEDGrid) (noise : NoiseModel) (model_compl : Np.array)
        (sim_indx : list nat) (vega_flux : Np.array) (ot ot' : Tbl.Table)
        (k : nat) (fname : string) (w w' : world) :
  simulate_filter sedgrid noise model_compl sim_indx vega_flux ot (k, fname) w
  = (Ok ot', w') ->
  let bname := Str.band fname in
  exists vk simflux truth rate mag input_rate input_mag,
    nth_error vega_flux k = Some vk
    /\ Tbl.lookup ot' (bname ++ "_FLUX") = Some simflux
    /\ Tbl.lookup ot' (bname ++ "_RATE") = Some rate
    /\ Tbl.lookup ot' (bname ++ "_VEGA") = Some mag
    /\ rate = map (fun x => x / vk) simflux
    /\ follows_policy rate mag
    /\ Tbl.lookup ot' (bname ++ "_INPUT_FLUX") = Some truth
    /\ Tbl.lookup ot' (bname ++ "_INPUT_RATE") = Some input_rate
    /\ Tbl.lookup ot' (bname ++ "_INPUT_VEGA") = Some input_mag
    /\ input_rate = map (fun x => x / vk) truth
    /\ follows_policy input_rate input_mag.
Proof.
  intros H bname. apply simulate_filter_spec in H. fold bname in H.
  destruct H as (f & b & u & loc & simflux & vk & w1 & _ & _ & _ & _ & Evk & _ & _
                 & L1 & L2 & L3 & L4 & L5 & L6 & _).
  exists vk, simflux, f, (Np.div_scalar simflux vk),
    (map mag_of_rate (Np.div_scalar simflux vk)), (Np.div_scalar f vk),
    (map mag_of_rate (Np.div_scalar f vk)).
  split; [exact Evk|]. split; [exact L1|]. split; [exact L2|].
  split; [exact L3|]. split; [reflexivity|].
  split; [apply mag_of_rate_follows|].
  split; [exact L4|]. split; [exact L5|]. split; [exact L6|].
  split; [reflexivity | apply mag_of_rate_follows].
Qed.

Lemma take2_fabs2 (a : Np.array2) (idx : list nat) (k : nat) :
  forall u, Np.take2 (Np.fabs2 a) idx k = Ok u ->
            exists e, Np.take2 a idx k = Ok e /\ u = map abs e.
Proof.
  unfold Np.take2, Np.fabs2. induction idx as [|i r IH]; simpl; intros u H.
  - inversion H; subst. exists []. auto.
  - apply rbind_ok in H. destruct H as (x & Hx & H).
    apply rbind_ok in H. destruct H as (us & Hus & H). inversion H; subst; clear H.
    destruct (IH _ Hus) as (es & Hes & ->).
    apply rbind_ok in Hx. destruct Hx as (row & Hrow & Hx).
    unfold Np.nth_or_raise in *. rewrite nth_error_map in Hrow.
    destruct (nth_error a i) as [row0|]; [|discriminate]. simpl in Hrow.
    inversion Hrow; subst row; clear Hrow. simpl.
    rewrite nth_error_map in Hx.
    destruct (nth_error row0 k) as [y|]; [|discriminate]. simpl in Hx.
    inversion Hx; subst. rewrite Hes. simpl. exists (y :: es). auto.
Qed.

Lemma nth_error_combine_some {A B : Type} (a : list A) :
  forall (b : list B) j x y,
    nth_error a j = Some x -> nth_error b j = Some y ->
    nth_error (combine a b) j = Some (x, y).
Proof.
  induction a as [|x0 a IH]; intros b j x y Ha Hb.
  - destruct j; discriminate.
  - destruct b as [|y0 b]; [destruct j; discriminate|].
    destruct j as [|j]; simpl in *; [congruence | apply IH; assumption].
Qed.

Lemma existsb_lt0_abs (e : list float) : existsb lt0 (map abs e) = false.
Proof.
  induction e as [|x r IH]; simpl; [reflexivity|].
  rewrite abs_not_lt0, IH. reflexivity.
Qed.

(** [np.random.normal] accepts every scale that [np.fabs] produced. *)
Lemma np_random_normal_fabs (loc e : Np.array) (w : world) :
  length loc = length e ->
  exists xs w', np_random_normal loc (map abs e) w = (Ok xs, w').
Proof.
  intros H. unfold np_random_normal. rewrite existsb_lt0_abs.
  rewrite broadcast_pairs_same by (rewrite length_map; exact H).
  destruct (normal_loop _ _) as [xs g]. eauto.
Qed.

(** C5. In one pass of the loop over the filters the simulated flux of
    sample [j] is [loc + scale * z], where [loc] is the flux of the picked
    model in the filter plus the bias of the noise model there, [scale] is
    the absolute value of the stored uncertainty there, and [z] is a
    standard normal deviate of the generator: a Gaussian draw of mean [loc]
    and standard deviation [scale].  When [scale] is zero (and the deviate
    finite) the simulated flux has the value of [loc].  The draw never
    raises for a scale made by [np.fabs]. *)
Theorem simulated_flux_gaussian
        (sedgrid : SEDGrid) (noise : NoiseModel) (model_compl : Np.array)
        (sim_indx : list nat) (vega_flux : Np.array) (ot ot' : Tbl.Table)
        (k : nat) (fname : string) (w w' : world) :
  simulate_filter sedgrid noise model_compl sim_indx vega_flux ot (k, fname) w
  = (Ok ot', w') ->
  (forall loc e w0, length loc = length e ->
                    exists xs w1, np_random_normal loc (map abs e) w0 = (Ok xs, w1))
  /\ exists f b e simflux,
      Np.take2 (seds sedgrid) sim_indx k = Ok f
      /\ Np.take2 (bias noise) sim_indx k = Ok b
      /\ Np.take2 (error noise) sim_indx k = Ok e
      /\ Tbl.lookup ot' (Str.band fname ++ "_FLUX") = Some simflux
      /\ length simflux = length sim_indx
      /\ forall j fj bj ej,
          nth_error f j = Some fj -> nth_error b j = Some bj ->
          nth_error e j = Some ej ->
          exists g,
            nth_error simflux j = Some ((fj + bj) + abs ej * fst (gauss g))
            /\ (is_zero (abs ej) = true -> is_finite (fst (gauss g)) = true ->
                same_value ((fj + bj) + abs ej * fst (gauss g)) (fj + bj)).
Proof.
  intros H. split; [apply np_random_normal_fabs|].
  apply simulate_filter_spec in H.
  destruct H as (f & b & u & loc & simflux & vk & w1 & Ef & Eb & Eu & El & _ & _ & En
                 & L1 & _).
  destruct (take2_fabs2 _ _ _ _ Eu) as (e & Ee & ->).
  pose proof (take2_length _ _ _ _ Ef) as Lf.
  pose proof (take2_length _ _ _ _ Eb) as Lb.
  pose proof (take2_length _ _ _ _ Ee) as Le.
  unfold Np.add in El. rewrite broadcast_same in El by congruence.
  inversion El as [El']. clear El.
  destruct (np_random_normal_ok _ _ _ _ _ En) as (ls & Els & Enl & _).
  rewrite broadcast_pairs_same in Els
    by (rewrite <- El', !length_map, length_combine; lia).
  inversion Els as [Els']. clear Els.
  destruct (normal_loop_spec _ _ _ _ Enl) as [Lx Hx].
  exists f, b, e, simflux.
  repeat (split; [assumption|]). split.
  - rewrite Lx, <- Els', length_combine, <- El', !length_map, length_combine. lia.
  - intros j fj bj ej Hf Hb He.
    destruct (Hx j (fj + bj) (abs ej)) as (g & Hg).
    { rewrite <- Els'. rewrite <- El'.
      apply nth_error_combine_some.
      - rewrite nth_error_map.
        rewrite (nth_error_combine_some f b j fj bj Hf Hb). reflexivity.
      - rewrite nth_error_map, He. reflexivity. }
    exists g. split; [exact Hg|].
    intros Hz Hfin. apply point_mass; assumption.
Qed.

End StreamFacts.

(** *** A pass of the loop on the two-filter grid *)

Lemma run_of_ok {A S : Type} (d : A) (r : result A * S) :
  is_ok (fst r) = true -> r = (Ok (value_of d r), snd r).
Proof.
  destruct r as [[a|e] w]; simpl; intros H; [reflexivity | discriminate].
Qed.

Lemma run_of_is_ok {S : Type} (r : result Tbl.Table * S) :
  is_ok (fst r) = true -> r = (Ok (table_of r), snd r).
Proof. apply run_of_ok. Qed.

Lemma pass_F814W_ok : pass_F814W = (Ok (table_of pass_F814W), snd pass_F814W).
Proof. apply run_of_is_ok. vm_compute. reflexivity. Qed.

Lemma magnitude_sentinel_policy_witness :
  exists rate mag input_rate input_mag,
    Tbl.lookup (table_of pass_F814W) "F814W_RATE" = Some rate
    /\ Tbl.lookup (table_of pass_F814W) "F814W_VEGA" = Some mag
    /\ @follows_policy Fixture.env rate mag
    /\ Tbl.lookup (table_of pass_F814W) "F814W_INPUT_RATE" = Some input_rate
    /\ Tbl.lookup (table_of pass_F814W) "F814W_INPUT_VEGA" = Some input_mag
    /\ @follows_policy Fixture.env input_rate input_mag.
Proof.
  destruct (@magnitude_sentinel_policy Fixture.env _ _ _ _ _ _ _ _ _ _ _ pass_F814W_ok)
    as (vk & sf & tr & rate & mag & ir & im & _ & _ & H1 & H2 & _ & H3 & _ & H4 & H5 & _ & H6).
  exists rate, mag, ir, im.
  split; [exact H1|]. split; [exact H2|]. split; [exact H3|].
  split; [exact H4|]. split; [exact H5 | exact H6].
Defined.

Lemma simulated_flux_gaussian_witness :
  exists simflux,
    Tbl.lookup (table_of pass_F814W) "F814W_FLUX" = Some simflux
    /\ length simflux = 3.
Proof.
  destruct (@simulated_flux_gaussian Fixture.env _ _ _ _ _ _ _ _ _ _ _ pass_F814W_ok)
    as (_ & f & b & e & simflux & _ & _ & _ & H1 & H2 & _).
  exists simflux. split; [exact H1 | exact H2].
Defined.

(** ** The selection distribution *)

Section SelectionFacts.

Context {env : NumpyEnv}.

Import F64 F64Facts NpFacts TblFacts.
Local Open Scope string_scope.
Local Open Scope float_scope.

(** What the checks of [np.random.choice] establish. *)
Lemma check_p_ok (pop_size size : nat) (p : list float) (u : unit) :
  check_p pop_size size p = Ok u ->
  length p = pop_size
  /\ is_nan (Np.kahan_sum p) = false
  /\ existsb lt0 p = false
  /\ (atol <? abs (Np.kahan_sum p - 1)) = false.
Proof.
  unfold check_p.
  destruct ((pop_size =? 0)%nat && negb (size =? 0)%nat); [discriminate|].
  destruct (length p =? pop_size)%nat eqn:El; [|discriminate]. simpl.
  destruct (is_nan (Np.kahan_sum p)); [discriminate|].
  destruct (existsb lt0 p); [discriminate|].
  destruct (atol <? abs (Np.kahan_sum p - 1)); [discriminate|].
  intros _. apply Nat.eqb_eq in El. auto.
Qed.

(** Probabilities made by dividing by a degenerate sum are refused. *)
Lemma check_p_special (pop_size size : nat) (p : list float) :
  all_special p -> exists e, check_p pop_size size p = Raise e.
Proof.
  intros H. unfold check_p.
  destruct ((pop_size =? 0)%nat && negb (size =? 0)%nat); [eauto|].
  destruct (negb (length p =? pop_size)%nat); [eauto|].
  pose proof (special_rejected _ (kahan_sum_special _ H)) as R.
  destruct (is_nan (Np.kahan_sum p)); [eauto|].
  destruct (existsb lt0 p); [eauto|].
  simpl in R. rewrite R. eauto.
Qed.

Lemma draw_many_length (size : nat) (p : list float) :
  forall g idx g', draw_many size p g = (idx, g') -> length idx = size.
Proof.
  induction size as [|n IH]; simpl; intros g idx g' H.
  - inversion H; reflexivity.
  - destruct (draw_index g p) as [i g1].
    destruct (draw_many n p g1) as [r g2] eqn:E.
    inversion H; subst. simpl. f_equal. eapply IH; exact E.
Qed.

(** What [np.random.choice] returns, when it returns. *)
Lemma np_random_choice_ok (pop_size size : nat) (p : list float)
      (idx : list nat) (w w' : world) :
  np_random_choice pop_size size p w = (Ok idx, w') ->
  check_p pop_size size p = Ok tt
  /\ draw_many size p (np_state w) = (idx, np_state w')
  /\ length idx = size
  /\ stdout w' = stdout w.
Proof.
  unfold np_random_choice.
  destruct (check_p pop_size size p) as [[]|e] eqn:C; [|discriminate].
  destruct (draw_many size p (np_state w)) as [i g] eqn:D.
  intros H. inversion H; subst. simpl.
  repeat split; auto. eapply draw_many_length; exact D.
Qed.

(** What a successful [pick_models] went through. *)
Lemma pick_models_ok (sedgrid : SEDGrid) (noise : NoiseModel) (nsim : nat)
      (compl_filter : string) (ranseed : option Z) (weight_to_use : string)
      (w w' : world) (picked : Np.array * list nat) :
  pick_models sedgrid noise nsim compl_filter ranseed weight_to_use w
  = (Ok picked, w') ->
  exists w0 p w1 w2,
    model_completeness sedgrid noise compl_filter w = (Ok (fst picked), w0)
    /\ gridweights sedgrid weight_to_use (fst picked) = Ok p
    /\ np_random_seed ranseed w1 = (Ok tt, w2)
    /\ np_random_choice (length (seds sedgrid)) nsim p w2 = (Ok (snd picked), w').
Proof.
  intros H. unfold pick_models in H.
  apply bind_ok in H. destruct H as (mc & w0 & Emc & H).
  apply bind_ok in H. destruct H as (lo & wa & Elo & H). apply lift_ok in Elo. destruct Elo as [Elo ->].
  apply bind_ok in H. destruct H as (hi & wa & Ehi & H). apply lift_ok in Ehi. destruct Ehi as [Ehi ->].
  apply bind_ok in H. destruct H as (u1 & w1 & P1 & H).
  apply bind_ok in H. destruct H as (p & wa & Ep & H). apply lift_ok in Ep. destruct Ep as [Ep ->].
  apply bind_ok in H. destruct H as ([] & w2 & Es & H).
  apply bind_ok in H. destruct H as (idx & w3 & Ec & H).
  unfold ret in H. inversion H; subst. simpl.
  exists w0, p, w1, w2. auto.
Qed.

Lemma mul_same_length (a b : Np.array) :
  length a = length b ->
  forall i x y, nth_error a i = Some x -> nth_error b i = Some y ->
                exists raw, Np.mul a b = Ok raw /\ nth_error raw i = Some (x * y).
Proof.
  intros H i x y Hx Hy. unfold Np.mul. rewrite broadcast_same by exact H.
  eexists. split; [reflexivity|].
  rewrite nth_error_map, (nth_error_combine_some a b i x y Hx Hy). reflexivity.
Qed.

(** C1. Whenever the selection stage of the generator returns, the vector
    it handed to the sampler is [raw / np.sum(raw)] for the products [raw]
    of the chosen weight column and the completeness of each model, as the
    completeness stage (lines 269-283) computed it for the requested filter (entry
    [i] is [weight[i] * completeness[i]] divided by one common sum), it has
    one entry per model of the grid, no entry is a NaN or negative, and its
    compensated sum is not a NaN and does not differ from 1 by more than
    [sqrt(eps)], the tolerance of [np.random.choice]. *)
Theorem selection_distribution_is_probability_vector
        (sedgrid : SEDGrid) (noise : NoiseModel) (nsim : nat)
        (compl_filter : string) (ranseed : option Z) (weight_to_use : string)
        (w w' : world) (picked : Np.array * list nat) :
  pick_models sedgrid noise nsim compl_filter ranseed weight_to_use w
  = (Ok picked, w') ->
  let model_compl := fst picked in
  (exists w0, model_completeness sedgrid noise compl_filter w = (Ok model_compl, w0))
  /\ exists weights raw p,
    getitem sedgrid weight_to_use = Ok weights
    /\ Np.mul weights model_compl = Ok raw
    /\ gridweights sedgrid weight_to_use model_compl = Ok p
    /\ p = map (fun x => x / np_sum raw) raw
    /\ length p = length (seds sedgrid)
    /\ (length weights = length model_compl ->
        forall i wi ci,
          nth_error weights i = Some wi -> nth_error model_compl i = Some ci ->
          nth_error p i = Some (wi * ci / np_sum raw))
    /\ (forall x, In x p -> is_nan x = false /\ ge0 x = true)
    /\ is_nan (Np.kahan_sum p) = false
    /\ (atol <? abs (Np.kahan_sum p - 1)) = false.
Proof.
  intros H model_compl.
  destruct (pick_models_ok _ _ _ _ _ _ _ _ _ H) as (w0 & p & w1 & w2 & Em & Ep & _ & Ec).
  fold model_compl in Em, Ep.
  split; [exists w0; exact Em|].
  destruct (np_random_choice_ok _ _ _ _ _ _ Ec) as (C & _).
  destruct (check_p_ok _ _ _ _ C) as (Lp & Nn & Nl & Tol).
  pose proof Ep as Ep'. unfold gridweights in Ep'.
  apply rbind_ok in Ep'. destruct Ep' as (weights & Ew & Ep').
  apply rbind_ok in Ep'. destruct Ep' as (raw & Er & Ep').
  inversion Ep' as [Ediv]. unfold Np.div_scalar in *.
  exists weights, raw, p.
  split; [exact Ew|]. split; [exact Er|]. split; [exact Ep|].
  split; [symmetry; exact Ediv|]. split; [exact Lp|]. split; [|split; [|split]].
  - intros Hl i wi ci Hw Hc.
    destruct (mul_same_length _ _ Hl i wi ci Hw Hc) as (raw' & Er' & Hi).
    assert (raw' = raw) by congruence. subst raw'.
    rewrite <- Ediv, nth_error_map, Hi. reflexivity.
  - intros x Hx.
    assert (Nx : is_nan x = false).
    { destruct (is_nan x) eqn:E; [|reflexivity].
      assert (existsb is_nan p = true)
        by (apply existsb_exists; exists x; split; assumption).
      rewrite kahan_sum_nan in Nn by assumption. discriminate. }
    split; [exact Nx|]. apply not_lt0_ge0; [exact Nx|].
    destruct (lt0 x) eqn:E; [|reflexivity].
    assert (existsb lt0 p = true)
      by (apply existsb_exists; exists x; split; assumption).
    congruence.
  - exact Nn.
  - exact Tol.
Qed.

(** The completeness stage only prints. *)
Lemma model_completeness_frame (sedgrid : SEDGrid) (noise : NoiseModel)
      (compl_filter : string) (w w0 : world) (r : result Np.array) :
  model_completeness sedgrid noise compl_filter w = (r, w0) ->
  np_state w0 = np_state w
  /\ entropy w0 = entropy w
  /\ entropy_used w0 = entropy_used w.
Proof.
  unfold model_completeness.
  destruct (String.eqb (Str.lower compl_filter) "max").
  - unfold lift. intros H. inversion H; subst. auto.
  - destruct (negb (Str.mem (Str.upper compl_filter) (map Str.band (filters sedgrid)))).
    + unfold raise. intros H. inversion H; subst. auto.
    + unfold bind, lift, print.
      destruct (Str.index _ _); [|intros H; inversion H; subst; auto].
      destruct (Np.nth_or_raise (filters sedgrid) n); intros H; inversion H; subst; auto.
Qed.

(** C4. When the sum of the raw selection weights [weight * completeness]
    is zero or not finite, the call of the generator raises and returns no
    table, and no draw has been made: the state of the random generator
    after the call is the state before it or the state the seeding
    installed.  (The generator does not test the sum itself: every entry of
    [raw / sum] is then a NaN, an infinity or a zero, and the checks of
    [np.random.choice] refuse such a vector before drawing.) *)
Theorem degenerate_weights_fail
        (sedgrid : SEDGrid) (noise : NoiseModel) (nsim : nat)
        (compl_filter : string) (ranseed : option Z)
        (vega_fname : option string) (weight_to_use : string)
        (w w0 : world) (model_compl weights raw : Np.array) :
  model_completeness sedgrid noise compl_filter w = (Ok model_compl, w0) ->
  getitem sedgrid weight_to_use = Ok weights ->
  Np.mul weights model_compl = Ok raw ->
  degenerate (np_sum raw) = true ->
  exists e w',
    gen_SimObs_from_sedgrid sedgrid noise nsim compl_filter ranseed
                            vega_fname weight_to_use w
    = (Raise e, w')
    /\ (np_state w' = np_state w
        \/ np_state w' = np_state (snd (np_random_seed ranseed w))).
Proof.
  intros Hmc Hw Hraw Hdeg.
  destruct (model_completeness_frame _ _ _ _ _ _ Hmc) as (S0 & N0 & U0).
  assert (Hp : gridweights sedgrid weight_to_use model_compl
               = Ok (Np.div_scalar raw (np_sum raw))).
  { unfold gridweights. rewrite Hw. simpl. rewrite Hraw. reflexivity. }
  assert (Hs : all_special (Np.div_scalar raw (np_sum raw))).
  { apply div_scalar_special. rewrite <- degenerate_special. exact Hdeg. }
  destruct (check_p_special (length (seds sedgrid)) nsim _ Hs) as (e & He).
  unfold gen_SimObs_from_sedgrid.
  assert (Hpick : exists e' w',
             pick_models sedgrid noise nsim compl_filter ranseed weight_to_use w
             = (Raise e', w')
             /\ (np_state w' = np_state w
                 \/ np_state w' = np_state (snd (np_random_seed ranseed w)))).
  { unfold pick_models. rewrite (bind_step _ _ _ _ _ Hmc).
    destruct (Np.py_min model_compl) as [lo|e1];
      [|exists e1, w0; split; [reflexivity | left; exact S0]].
    destruct (Np.py_max model_compl) as [hi|e2];
      [|exists e2, w0; split; [reflexivity | left; exact S0]].
    unfold bind at 1. unfold lift at 1. unfold bind at 1. unfold lift at 1.
    unfold bind at 1. unfold print at 1.
    unfold bind at 1. unfold lift at 1. rewrite Hp.
    unfold bind at 1.
    destruct ranseed as [s|]; unfold np_random_seed.
    - destruct (seed_in_range s).
      + unfold bind, np_random_choice. rewrite He. simpl.
        exists e. eexists. split; [reflexivity|]. right. reflexivity.
      + eexists. eexists. split; [reflexivity|]. left. exact S0.
    - unfold bind, np_random_choice. rewrite He. simpl.
      exists e. eexists. split; [reflexivity|]. right. simpl.
      rewrite N0, U0. reflexivity. }
  destruct Hpick as (e' & w' & Hpick & Hst).
  exists e', w'. split; [|exact Hst].
  apply bind_raise. exact Hpick.
Qed.

End SelectionFacts.

(** *** The selection stage on the three-model grid and on zero weights *)

Lemma pick3_ok : pick3 = (Ok (value_of ([], []) pick3), snd pick3).
Proof. apply run_of_ok. vm_compute. reflexivity. Qed.

Lemma selection_distribution_is_probability_vector_witness :
  exists p,
    @gridweights Fixture.env Fixture.grid3 "weight"%string
                 (fst (value_of ([], []) pick3)) = Ok p
    /\ length p = 3
    /\ is_nan (Np.kahan_sum p) = false
    /\ (F64.atol <? abs (Np.kahan_sum p - 1))%float = false.
Proof.
  destruct (@selection_distribution_is_probability_vector
              Fixture.env _ _ _ _ _ _ _ _ _ pick3_ok)
    as (_ & weights & raw & p & _ & _ & H1 & _ & H2 & _ & _ & H3 & H4).
  exists p. split; [exact H1|]. split; [exact H2|]. split; [exact H3 | exact H4].
Defined.

Lemma zero_weights_degenerate :
  F64.degenerate (@np_sum Fixture.env [0; 0]%float) = true.
Proof. vm_compute. reflexivity. Qed.

Lemma degenerate_weights_fail_witness :
  exists e w',
    Fixture.run Fixture.grid_zero Fixture.noise_zero 3 "max"%string 1%Z = (Raise e, w')
    /\ (np_state w' = np_state Fixture.world0
        \/ np_state w' = np_state (snd (np_random_seed (Some 1%Z) Fixture.world0))).
Proof.
  apply (@degenerate_weights_fail
           Fixture.env Fixture.grid_zero Fixture.noise_zero 3 "max"%string
           (Some 1%Z) None "weight"%string Fixture.world0 Fixture.world0
           [0.5; 1]%float [0; 0]%float [0; 0]%float).
  - reflexivity.
  - reflexivity.
  - reflexivity.
  - exact zero_weights_degenerate.
Defined.

(** ** What a run depends on *)

Section DependenceFacts.

Context {env : NumpyEnv}.

Local Open Scope string_scope.

Lemma seeded_blind {A : Type} (m : M A) : seeded m -> blind m.
Proof. intros H w1 w2. apply H. Qed.

Lemma blind_lift {A : Type} (r : result A) : blind (lift r).
Proof. intros w1 w2. reflexivity. Qed.

Lemma blind_raise {A : Type} (e : exn) : blind (@raise env A e).
Proof. intros w1 w2. reflexivity. Qed.

Lemma blind_print (l : out_line) : blind (print l).
Proof. intros w1 w2. reflexivity. Qed.

Lemma blind_bind {A B : Type} (m : M A) (k : A -> M B) :
  blind m -> (forall a, blind (k a)) -> blind (bind m k).
Proof.
  intros Hm Hk w1 w2. unfold bind. specialize (Hm w1 w2).
  destruct (m w1) as [[a|e] w1'], (m w2) as [[a'|e'] w2']; simpl in *;
    try discriminate; inversion Hm; subst; [apply Hk | reflexivity].
Qed.

Lemma seeded_bind_blind {A B : Type} (m : M A) (k : A -> M B) :
  blind m -> (forall a, seeded (k a)) -> seeded (bind m k).
Proof.
  intros Hm Hk w1 w2. unfold bind. specialize (Hm w1 w2).
  destruct (m w1) as [[a|e] w1'], (m w2) as [[a'|e'] w2']; simpl in *;
    try discriminate; inversion Hm; subst.
  - apply Hk.
  - split; [reflexivity | discriminate].
Qed.

Lemma seeded_bind {A B : Type} (m : M A) (k : A -> M B) :
  seeded m -> (forall a, state_only (k a)) -> seeded (bind m k).
Proof.
  intros Hm Hk w1 w2. unfold bind. destruct (Hm w1 w2) as [R S].
  destruct (m w1) as [[a|e] w1'], (m w2) as [[a'|e'] w2']; simpl in *;
    try discriminate; inversion R; subst.
  - destruct (Hk a' w1' w2' (S eq_refl)) as [R' S']. split; [exact R' | intros _; exact S'].
  - split; [reflexivity | discriminate].
Qed.

Lemma state_only_bind {A B : Type} (m : M A) (k : A -> M B) :
  state_only m -> (forall a, state_only (k a)) -> state_only (bind m k).
Proof.
  intros Hm Hk w1 w2 E. unfold bind. destruct (Hm w1 w2 E) as [R S].
  destruct (m w1) as [[a|e] w1'], (m w2) as [[a'|e'] w2']; simpl in *;
    try discriminate; inversion R; subst.
  - apply Hk. exact S.
  - split; [reflexivity | exact S].
Qed.

Lemma state_only_lift {A : Type} (r : result A) : state_only (lift r).
Proof. intros w1 w2 E. split; [reflexivity | exact E]. Qed.

Lemma state_only_ret {A : Type} (a : A) : state_only (ret a).
Proof. intros w1 w2 E. split; [reflexivity | exact E]. Qed.

Lemma state_only_print (l : out_line) : state_only (print l).
Proof. intros w1 w2 E. split; [reflexivity | exact E]. Qed.

Lemma state_only_choice (pop_size size : nat) (p : list float) :
  state_only (np_random_choice pop_size size p).
Proof.
  intros w1 w2 E. unfold np_random_choice.
  destruct (check_p pop_size size p); [|split; [reflexivity | exact E]].
  rewrite E. destruct (draw_many size p (np_state w2)). split; reflexivity.
Qed.

Lemma state_only_normal (loc scale : Np.array) :
  state_only (np_random_normal loc scale).
Proof.
  intros w1 w2 E. unfold np_random_normal.
  destruct (existsb F64.lt0 scale); [split; [reflexivity | exact E]|].
  destruct (Np.broadcast_pairs loc scale); [|split; [reflexivity | exact E]].
  rewrite E. destruct (normal_loop a (np_state w2)). split; reflexivity.
Qed.

Lemma state_only_for_each {A S : Type} (xs : list A) (body : S -> A -> M S) :
  (forall s x, state_only (body s x)) ->
  forall s, state_only (for_each xs body s).
Proof.
  intros Hb. induction xs as [|x r IH]; intros s; simpl.
  - apply state_only_ret.
  - apply state_only_bind; [apply Hb | exact IH].
Qed.

(** Seeding with an integer forgets the state it starts in. *)
Lemma seeded_seed (s : Z) : seeded (np_random_seed (Some s)).
Proof.
  intros w1 w2. unfold np_random_seed.
  destruct (seed_in_range s); simpl; split; auto; discriminate.
Qed.

Lemma blind_model_completeness (sedgrid : SEDGrid) (noise : NoiseModel)
      (compl_filter : string) :
  blind (model_completeness sedgrid noise compl_filter).
Proof.
  unfold model_completeness.
  destruct (String.eqb (Str.lower compl_filter) "max"); [apply blind_lift|].
  destruct (negb _); [apply blind_raise|].
  apply blind_bind; [apply blind_lift | intros k].
  apply blind_bind; [apply blind_lift | intros f].
  apply blind_bind; [apply blind_print | intros _]. apply blind_lift.
Qed.

Lemma seeded_pick_models (sedgrid : SEDGrid) (noise : NoiseModel) (nsim : nat)
      (compl_filter : string) (seed : Z) (weight_to_use : string) :
  seeded (pick_models sedgrid noise nsim compl_filter (Some seed) weight_to_use).
Proof.
  unfold pick_models.
  apply seeded_bind_blind; [apply blind_model_completeness | intros mc].
  apply seeded_bind_blind; [apply blind_lift | intros lo].
  apply seeded_bind_blind; [apply blind_lift | intros hi].
  apply seeded_bind_blind; [apply blind_print | intros _].
  apply seeded_bind_blind; [apply blind_lift | intros gw].
  apply seeded_bind; [apply seeded_seed | intros _].
  apply state_only_bind; [apply state_only_choice | intros idx].
  apply state_only_ret.
Qed.

Lemma state_only_simulate_filter
      (sedgrid : SEDGrid) (noise : NoiseModel) (model_compl : Np.array)
      (sim_indx : list nat) (vega_flux : Np.array) (ot : Tbl.Table)
      (kf : nat * string) :
  state_only (simulate_filter sedgrid noise model_compl sim_indx vega_flux ot kf).
Proof.
  unfold simulate_filter. destruct kf as [k fname].
  repeat first [ apply state_only_lift
               | apply state_only_normal
               | apply state_only_bind;
                 [first [apply state_only_print | apply state_only_lift
                        | apply state_only_normal] | intros ?] ].
Qed.

Lemma state_only_build_table
      (sedgrid : SEDGrid) (noise : NoiseModel) (vega_fname : option string)
      (model_compl : Np.array) (sim_indx : list nat) :
  state_only (build_table sedgrid noise vega_fname model_compl sim_indx).
Proof.
  unfold build_table.
  apply state_only_bind; [apply state_only_lift | intros vega].
  apply state_only_bind.
  - apply state_only_for_each. intros s x. apply state_only_simulate_filter.
  - intros ot. apply state_only_for_each. intros s x. unfold copy_parameter.
    apply state_only_bind; [apply state_only_lift | intros q].
    apply state_only_bind; [apply state_only_lift | intros v].
    apply state_only_lift.
Qed.

Lemma seeded_gen (sedgrid : SEDGrid) (noise : NoiseModel) (nsim : nat)
      (compl_filter : string) (seed : Z) (vega_fname : option string)
      (weight_to_use : string) :
  seeded (gen_SimObs_from_sedgrid sedgrid noise nsim compl_filter (Some seed)
                                  vega_fname weight_to_use).
Proof.
  unfold gen_SimObs_from_sedgrid.
  apply seeded_bind; [apply seeded_pick_models | intros picked].
  apply state_only_build_table.
Qed.

(** C3. With a seed supplied, the indexes of the picked models and the
    outcome of the call (the same table, column for column and value for
    value, or the same exception) do not depend on the state the call
    starts in: neither on the state of numpy's generator, nor on the
    entropy of the system, nor on what was printed before.  Two calls with
    the same grid, noise model, [nsim], completeness filter, seed, Vega
    file and weight name return identical results. *)
Theorem seeded_calls_are_deterministic
        (sedgrid : SEDGrid) (noise : NoiseModel) (nsim : nat)
        (compl_filter : string) (seed : Z) (vega_fname : option string)
        (weight_to_use : string) (w1 w2 : world) :
  fst (pick_models sedgrid noise nsim compl_filter (Some seed) weight_to_use w1)
  = fst (pick_models sedgrid noise nsim compl_filter (Some seed) weight_to_use w2)
  /\ fst (gen_SimObs_from_sedgrid sedgrid noise nsim compl_filter (Some seed)
                                  vega_fname weight_to_use w1)
     = fst (gen_SimObs_from_sedgrid sedgrid noise nsim compl_filter (Some seed)
                                    vega_fname weight_to_use w2).
Proof.
  split.
  - apply seeded_pick_models.
  - apply seeded_gen.
Qed.

End DependenceFacts.

(** ** What a run changes *)

Section EffectFacts.

Context {env : NumpyEnv}.

Local Open Scope string_scope.

Section Frame.

Variable R : nat -> nat -> Prop.
Hypothesis R_refl : forall n, R n n.
Hypothesis R_trans : forall a b c, R a b -> R b c -> R a c.

Lemma frame_same {A : Type} (m : M A) :
  (forall w, snd (m w) = w) -> frame R m.
Proof.
  intros H w. rewrite H. split; [exists []; rewrite app_nil_r; reflexivity|].
  split; [reflexivity | apply R_refl].
Qed.

Lemma frame_lift {A : Type} (r : result A) : frame R (lift r).
Proof. apply frame_same. reflexivity. Qed.

Lemma frame_ret {A : Type} (a : A) : frame R (ret a).
Proof. apply frame_same. reflexivity. Qed.

Lemma frame_raise {A : Type} (e : exn) : frame R (@raise env A e).
Proof. apply frame_same. reflexivity. Qed.

Lemma frame_print (l : out_line) : frame R (print l).
Proof.
  intros w. simpl. split; [exists [l]; reflexivity|].
  split; [reflexivity | apply R_refl].
Qed.

Lemma frame_bind {A B : Type} (m : M A) (k : A -> M B) :
  frame R m -> (forall a, frame R (k a)) -> frame R (bind m k).
Proof.
  intros Hm Hk w. unfold bind. specialize (Hm w).
  destruct (m w) as [[a|e] w1]; simpl in *; [|exact Hm].
  destruct Hm as ((l1 & S1) & E1 & U1).
  destruct (Hk a w1) as ((l2 & S2) & E2 & U2).
  split; [exists (l1 ++ l2)%list; rewrite S2, S1, app_assoc; reflexivity|].
  split; [congruence | eapply R_trans; eauto].
Qed.

Lemma frame_for_each {A S : Type} (xs : list A) (body : S -> A -> M S) :
  (forall s x, frame R (body s x)) -> forall s, frame R (for_each xs body s).
Proof.
  intros Hb. induction xs as [|x r IH]; intros s; simpl.
  - apply frame_ret.
  - apply frame_bind; [apply Hb | exact IH].
Qed.

Lemma frame_choice (pop_size size : nat) (p : list float) :
  frame R (np_random_choice pop_size size p).
Proof.
  intros w. unfold np_random_choice.
  destruct (check_p pop_size size p); [|apply (frame_same (fun w => (Raise e, w))); reflexivity].
  destruct (draw_many size p (np_state w)). simpl.
  split; [exists []; rewrite app_nil_r; reflexivity|].
  split; [reflexivity | apply R_refl].
Qed.

Lemma frame_normal (loc scale : Np.array) : frame R (np_random_normal loc scale).
Proof.
  intros w. unfold np_random_normal.
  destruct (existsb F64.lt0 scale);
    [apply (frame_same (fun w => (Raise (ValueError "scale < 0"), w))); reflexivity|].
  destruct (Np.broadcast_pairs loc scale);
    [|apply (frame_same (fun w => (Raise e, w))); reflexivity].
  destruct (normal_loop a (np_state w)). simpl.
  split; [exists []; rewrite app_nil_r; reflexivity|].
  split; [reflexivity | apply R_refl].
Qed.

Lemma frame_model_completeness (sedgrid : SEDGrid) (noise : NoiseModel)
      (compl_filter : string) :
  frame R (model_completeness sedgrid noise compl_filter).
Proof.
  unfold model_completeness.
  destruct (String.eqb (Str.lower compl_filter) "max"); [apply frame_lift|].
  destruct (negb _); [apply frame_raise|].
  apply frame_bind; [apply frame_lift | intros k].
  apply frame_bind; [apply frame_lift | intros f].
  apply frame_bind; [apply frame_print | intros _]. apply frame_lift.
Qed.

Lemma frame_build_table
      (sedgrid : SEDGrid) (noise : NoiseModel) (vega_fname : option string)
      (model_compl : Np.array) (sim_indx : list nat) :
  frame R (build_table sedgrid noise vega_fname model_compl sim_indx).
Proof.
  unfold build_table.
  apply frame_bind; [apply frame_lift | intros vega].
  apply frame_bind.
  - apply frame_for_each. intros s [k fname]. unfold simulate_filter.
    repeat first [ apply frame_lift
                 | apply frame_bind;
                   [first [apply frame_print | apply frame_lift | apply frame_normal]
                   | intros ?] ].
  - intros ot. apply frame_for_each. intros s x. unfold copy_parameter.
    apply frame_bind; [apply frame_lift | intros q].
    apply frame_bind; [apply frame_lift | intros v].
    apply frame_lift.
Qed.

Lemma frame_gen (sedgrid : SEDGrid) (noise : NoiseModel) (nsim : nat)
      (compl_filter : string) (ranseed : option Z) (vega_fname : option string)
      (weight_to_use : string) :
  frame R (np_random_seed ranseed) ->
  frame R (gen_SimObs_from_sedgrid sedgrid noise nsim compl_filter ranseed
                                   vega_fname weight_to_use).
Proof.
  intros Hseed. unfold gen_SimObs_from_sedgrid, pick_models.
  apply frame_bind; [|intros picked; apply frame_build_table].
  apply frame_bind; [apply frame_model_completeness | intros mc].
  apply frame_bind; [apply frame_lift | intros lo].
  apply frame_bind; [apply frame_lift | intros hi].
  apply frame_bind; [apply frame_print | intros _].
  apply frame_bind; [apply frame_lift | intros gw].
  apply frame_bind; [exact Hseed | intros _].
  apply frame_bind; [apply frame_choice | intros idx].
  apply frame_ret.
Qed.

End Frame.

Lemma frame_seed_some (s : Z) : frame eq (np_random_seed (Some s)).
Proof.
  intros w. unfold np_random_seed. destruct (seed_in_range s); simpl;
    (split; [exists []; rewrite app_nil_r; reflexivity | split; reflexivity]).
Qed.

Lemma frame_seed_any (ranseed : option Z) : frame le (np_random_seed ranseed).
Proof.
  destruct ranseed as [s|].
  - intros w. destruct (frame_seed_some s w) as (H1 & H2 & H3).
    split; [exact H1|]. split; [exact H2 | rewrite <- H3; apply le_n].
  - intros w. simpl.
    split; [exists []; rewrite app_nil_r; reflexivity|]. split; [reflexivity | lia].
Qed.

(** A call that returns has printed the smallest and the largest
    completeness. *)
Lemma gen_prints (sedgrid : SEDGrid) (noise : NoiseModel) (nsim : nat)
      (compl_filter : string) (ranseed : option Z) (vega_fname : option string)
      (weight_to_use : string) (w w' : world) (ot : Tbl.Table) :
  gen_SimObs_from_sedgrid sedgrid noise nsim compl_filter ranseed
                          vega_fname weight_to_use w = (Ok ot, w') ->
  length (stdout w) < length (stdout w').
Proof.
  intros H. unfold gen_SimObs_from_sedgrid in H.
  apply bind_ok in H. destruct H as (picked & w1 & Hp & Hb).
  pose proof (frame_build_table le Nat.le_refl Nat.le_trans
                sedgrid noise vega_fname (fst picked) (snd picked) w1) as Fb.
  rewrite Hb in Fb. simpl in Fb. destruct Fb as ((l3 & S3) & _).
  unfold pick_models in Hp.
  apply bind_ok in Hp. destruct Hp as (mc & w0 & Emc & Hp).
  pose proof (frame_model_completeness le Nat.le_refl Nat.le_trans
                sedgrid noise compl_filter w) as Fm.
  rewrite Emc in Fm. simpl in Fm. destruct Fm as ((l0 & S0) & _).
  apply bind_ok in Hp. destruct Hp as (lo & wa & Elo & Hp). apply lift_ok in Elo. destruct Elo as [_ ->].
  apply bind_ok in Hp. destruct Hp as (hi & wa & Ehi & Hp). apply lift_ok in Ehi. destruct Ehi as [_ ->].
  apply bind_ok in Hp. destruct Hp as (u & wp & P & Hp).
  assert (Sp : stdout wp = (stdout w0 ++ [OutFloats [lo; hi]])%list)
    by (unfold print in P; inversion P; reflexivity).
  apply bind_ok in Hp. destruct Hp as (gw & wa & Eg & Hp). apply lift_ok in Eg. destruct Eg as [_ ->].
  apply bind_ok in Hp. destruct Hp as (u2 & w2 & Es & Hp).
  apply bind_ok in Hp. destruct Hp as (idx & w3 & Ec & Hp).
  unfold ret in Hp. inversion Hp; subst; clear Hp.
  pose proof (frame_seed_any ranseed wp) as Fs. rewrite Es in Fs.
  simpl in Fs. destruct Fs as ((l1 & S1) & _).
  pose proof (frame_choice le Nat.le_refl (length (seds sedgrid)) nsim gw w2) as Fc.
  rewrite Ec in Fc. simpl in Fc. destruct Fc as ((l2 & S2) & _).
  rewrite S3, S2, S1, Sp, S0. rewrite !length_app. simpl. lia.
Qed.

(** C9, amended. The generator is not free of side effects.  Besides
    returning the table (or raising), a call changes the process-wide state
    in two ways and in no other: it appends lines to standard output (at
    least one whenever it returns), and it replaces the state of numpy's
    global random generator (with a seed supplied, the state after a call
    that returns is fixed by the arguments alone, whatever it was before).
    The entropy of the system is untouched, and with a seed supplied none of
    it is consumed.  The grid and the noise model are only read: they are
    values of the model, which has no operation that writes to them. *)
Theorem generator_effects
        (sedgrid : SEDGrid) (noise : NoiseModel) (nsim : nat)
        (compl_filter : string) (ranseed : option Z)
        (vega_fname : option string) (weight_to_use : string) (w : world) :
  let call := gen_SimObs_from_sedgrid sedgrid noise nsim compl_filter ranseed
                                      vega_fname weight_to_use in
  (exists lines, stdout (snd (call w)) = (stdout w ++ lines)%list)
  /\ (is_ok (fst (call w)) = true ->
      length (stdout w) < length (stdout (snd (call w))))
  /\ entropy (snd (call w)) = entropy w
  /\ (forall s, ranseed = Some s ->
                entropy_used (snd (call w)) = entropy_used w
                /\ (is_ok (fst (call w)) = true ->
                    forall w2, np_state (snd (call w)) = np_state (snd (call w2)))).
Proof.
  intros call.
  destruct (frame_gen le Nat.le_refl Nat.le_trans sedgrid noise nsim compl_filter
                      ranseed vega_fname weight_to_use (frame_seed_any ranseed) w)
    as (H1 & H2 & _).
  split; [exact H1|]. split; [|split; [exact H2|]].
  - intros Hok. unfold call in *.
    destruct (gen_SimObs_from_sedgrid sedgrid noise nsim compl_filter ranseed
                                      vega_fname weight_to_use w)
      as [[ot|e] w'] eqn:E; [|discriminate].
    simpl. eapply gen_prints. exact E.
  - intros s ->. split.
    + destruct (frame_gen eq (@eq_refl nat) (@eq_trans nat) sedgrid noise nsim
                          compl_filter (Some s) vega_fname weight_to_use
                          (frame_seed_some s) w) as (_ & _ & H3).
      symmetry. exact H3.
    + intros Hok w2. apply seeded_gen. exact Hok.
Qed.

End EffectFacts.

(** *** A call on the three-model grid *)

Lemma generator_effects_counterexample :
  stdout Fixture.world0 = []
  /\ stdout (snd (Fixture.run Fixture.grid3 Fixture.noise3 4 "f475w"%string 42%Z))
     = [OutStr "Completeness from HST_WFC3_F475W";
        OutFloats [0.5; 1]%float;
        OutStr "HST_WFC3_F475W";
        OutArray [3; 3; 2; 3]%float;
        OutArray [0; 0; 0; 0]%float;
        OutArray [0; 0; 0; 0]%float;
        OutArray [1; 1; 0.5; 1]%float]
  /\ np_state Fixture.world0 = 7%Z
  /\ np_state (snd (Fixture.run Fixture.grid3 Fixture.noise3 4 "f475w"%string 42%Z))
     = 1950339334%Z.
Proof. repeat split; vm_compute; reflexivity. Qed.

(** ** The assembled table *)

Section TableFacts.

Context {env : NumpyEnv}.

Import TblFacts.
Local Open Scope string_scope.

Lemma NoDup_app_separate {A : Type} (l l' : list A) :
  NoDup (l ++ l') -> forall x, In x l -> In x l' -> False.
Proof.
  induction l as [|a l IH]; simpl; intros H x Hx Hx'; [exact Hx|].
  inversion H as [|? ? Ha Hr]; subst. destruct Hx as [<-|Hx].
  - apply Ha. apply in_or_app. right. exact Hx'.
  - apply (IH Hr x Hx Hx').
Qed.

Lemma mem_In (x : string) (xs : list string) :
  Str.mem x xs = true <-> In x xs.
Proof.
  unfold Str.mem. rewrite existsb_exists. split.
  - intros (y & Hy & E). apply String.eqb_eq in E. subst. exact Hy.
  - intros H. exists x. split; [exact H | apply String.eqb_refl].
Qed.

Lemma add_name_fresh (names : list string) (n : string) :
  ~ In n names -> add_name names n = (names ++ [n])%list.
Proof.
  intros H. unfold add_name. destruct (Str.mem n names) eqn:E; [|reflexivity].
  apply mem_In in E. contradiction.
Qed.

(** Distinct new names are appended in their order. *)
Lemma fold_add_name_fresh (names : list string) :
  forall init, NoDup (init ++ names) ->
               fold_left add_name names init = (init ++ names)%list.
Proof.
  induction names as [|n r IH]; intros init H; simpl.
  - rewrite app_nil_r. reflexivity.
  - rewrite add_name_fresh.
    + rewrite IH; rewrite <- app_assoc; [reflexivity | exact H].
    + apply NoDup_remove_2 in H. intros C. apply H. apply in_or_app. auto.
Qed.




(** What the loop over the filters, started at filter number [s], leaves
    in the table. *)
Lemma filters_loop_spec
      (sedgrid : SEDGrid) (noise : NoiseModel) (model_compl : Np.array)
      (sim_indx : list nat) (vega_flux : Np.array) (fs : list string) :
  forall s ot w ot' w',
    for_each (combine (seq s (length fs)) fs)
             (simulate_filter sedgrid noise model_compl sim_indx vega_flux) ot w
    = (Ok ot', w') ->
    Tbl.colnames ot' = fold_left add_name (flat_map six_names fs) (Tbl.colnames ot)
    /\ (all_length (length sim_indx) ot -> all_length (length sim_indx) ot')
    /\ (forall other, ~ In other (flat_map six_names fs) ->
                      Tbl.lookup ot' other = Tbl.lookup ot other)
    /\ (NoDup (flat_map six_names fs) ->
        forall j fname,
          nth_error fs j = Some fname ->
          exists f, Np.take2 (seds sedgrid) sim_indx (s + j) = Ok f
                    /\ Tbl.lookup ot' (Str.band fname ++ "_INPUT_FLUX") = Some f).
Proof.
  induction fs as [|f0 r IH]; intros s ot w ot' w' H.
  - simpl in H. unfold ret in H. inversion H; subst.
    split; [reflexivity|]. split; [auto|]. split; [auto|].
    intros _ [|j] fname Hj; discriminate.
  - simpl in H. apply bind_ok in H. destruct H as (ot1 & w1 & H1 & H).
    apply IH in H. destruct H as (C2 & A2 & O2 & F2).
    apply simulate_filter_spec in H1. cbv zeta in H1.
    destruct H1 as (f & b & u & loc & simflux & vk & wa & Ef & _ & _ & _ & _ & _ & _
                    & _ & _ & _ & L4 & _ & _ & O1 & C1 & A1).
    split; [|split; [|split]].
    + change (flat_map six_names (f0 :: r))
        with (six_names f0 ++ flat_map six_names r)%list.
      rewrite fold_left_app, <- C1. exact C2.
    + auto.
    + intros other Hn.
      change (flat_map six_names (f0 :: r))
        with (six_names f0 ++ flat_map six_names r)%list in Hn.
      rewrite O2, O1; [reflexivity | |];
        intros C; apply Hn; apply in_or_app; auto.
    + intros Hnd j fname Hj.
      change (flat_map six_names (f0 :: r))
        with (six_names f0 ++ flat_map six_names r)%list in Hnd.
      destruct j as [|j]; simpl in Hj.
      * inversion Hj; subst fname. exists f. rewrite Nat.add_0_r. split; [exact Ef|].
        rewrite O2; [exact L4|].
        intros C. apply (NoDup_app_separate _ _ Hnd (Str.band f0 ++ "_INPUT_FLUX"));
          [|exact C].
        unfold six_names. simpl. auto 10.
      * destruct (F2 (NoDup_app_remove_l _ _ Hnd) j fname Hj) as (f' & Ef' & Lf').
        exists f'. rewrite <- Nat.add_succ_comm. split; assumption.
Qed.

(** What the loop over the names of the grid leaves in the table. *)
Lemma parameters_loop_spec (sedgrid : SEDGrid) (sim_indx : list nat) (qs : list string) :
  forall ot w ot' w',
    for_each qs (copy_parameter sedgrid sim_indx) ot w = (Ok ot', w') ->
    Tbl.colnames ot' = fold_left add_name qs (Tbl.colnames ot)
    /\ (all_length (length sim_indx) ot -> all_length (length sim_indx) ot')
    /\ (forall other, ~ In other qs -> Tbl.lookup ot' other = Tbl.lookup ot other)
    /\ (NoDup qs ->
        forall q, In q qs ->
                  exists c v, getitem sedgrid q = Ok c
                              /\ Np.take c sim_indx = Ok v
                              /\ Tbl.lookup ot' q = Some v).
Proof.
  induction qs as [|q0 r IH]; intros ot w ot' w' H.
  - simpl in H. unfold ret in H. inversion H; subst.
    split; [reflexivity|]. split; [auto|]. split; [auto|].
    intros _ q [].
  - simpl in H. apply bind_ok in H. destruct H as (ot1 & w1 & H1 & H).
    apply IH in H. destruct H as (C2 & A2 & O2 & F2).
    unfold copy_parameter in H1.
    apply bind_ok in H1. destruct H1 as (c & wa & Ec & H1). apply lift_ok in Ec. destruct Ec as [Ec ->].
    apply bind_ok in H1. destruct H1 as (v & wa & Ev & H1). apply lift_ok in Ev. destruct Ev as [Ev ->].
    apply lift_ok in H1. destruct H1 as [S1 ->].
    split; [|split; [|split]].
    + simpl. rewrite <- (colnames_set _ _ _ _ S1). exact C2.
    + intros Ha. apply A2. eapply all_length_set; [exact Ha | | exact S1].
      eapply take_length. exact Ev.
    + intros other Hn. rewrite O2 by (intros C; apply Hn; right; exact C).
      apply (lookup_set_other _ _ _ _ _ S1). intros C. apply Hn. left. auto.
    + intros Hnd q [<-|Hq].
      * exists c, v. split; [exact Ec|]. split; [exact Ev|].
        rewrite O2 by (inversion Hnd; assumption).
        apply (lookup_set_same _ _ _ _ S1).
      * apply F2; [inversion Hnd; assumption | exact Hq].
Qed.

(** What [build_table] returns, when it returns. *)
Lemma build_table_spec
      (sedgrid : SEDGrid) (noise : NoiseModel) (vega_fname : option string)
      (model_compl : Np.array) (sim_indx : list nat) (w w' : world) (ot : Tbl.Table) :
  build_table sedgrid noise vega_fname model_compl sim_indx w = (Ok ot, w') ->
  let names := (flat_map six_names (filters sedgrid) ++ keys sedgrid)%list in
  Tbl.colnames ot = fold_left add_name names []
  /\ all_length (length sim_indx) ot
  /\ (NoDup names ->
      Tbl.colnames ot = names
      /\ (forall k fname,
             nth_error (filters sedgrid) k = Some fname ->
             exists f, Np.take2 (seds sedgrid) sim_indx k = Ok f
                       /\ Tbl.lookup ot (Str.band fname ++ "_INPUT_FLUX") = Some f)
      /\ (forall q, In q (keys sedgrid) ->
                    exists c v, getitem sedgrid q = Ok c
                                /\ Np.take c sim_indx = Ok v
                                /\ Tbl.lookup ot q = Some v)).
Proof.
  intros H names. unfold build_table in H.
  apply bind_ok in H. destruct H as (vega & wa & Ev & H). apply lift_ok in Ev. destruct Ev as [Ev ->].
  apply bind_ok in H. destruct H as (ot1 & w1 & H1 & H2).
  unfold enumerate in H1.
  apply filters_loop_spec in H1. destruct H1 as (C1 & A1 & O1 & F1).
  apply parameters_loop_spec in H2. destruct H2 as (C2 & A2 & O2 & F2).
  assert (Hc : Tbl.colnames ot = fold_left add_name names []).
  { unfold names. rewrite fold_left_app, C2, C1. reflexivity. }
  split; [exact Hc|]. split; [apply A2, A1; constructor|].
  intros Hnd. split; [|split].
  - rewrite Hc. apply (fold_add_name_fresh names []). exact Hnd.
  - intros k fname Hk.
    destruct (F1 (NoDup_app_remove_r _ _ Hnd) k fname Hk) as (f & Ef & Lf).
    exists f. split; [exact Ef|]. rewrite O2; [exact Lf|].
    intros C. apply (NoDup_app_separate _ _ Hnd (Str.band fname ++ "_INPUT_FLUX"));
      [|exact C].
    apply in_flat_map. exists fname. split; [eapply nth_error_In; exact Hk|].
    unfold six_names. simpl. auto 10.
  - apply F2. apply (NoDup_app_remove_l _ _ Hnd).
Qed.

Lemma take2_rows (a : Np.array2) (idx : list nat) (k : nat) (col : Np.array) :
  Np.take2 a idx k = Ok col -> rows_of2 a idx k col.
Proof.
  intros H. split; [eapply take2_length; exact H|].
  intros j i Hj. destruct (traverse_nth _ _ _ _ _ H Hj) as (x & Hx & Hc).
  apply rbind_ok in Hx. destruct Hx as (row & Hrow & Hx).
  unfold Np.nth_or_raise in *.
  destruct (nth_error a i) as [row'|]; [|discriminate]. inversion Hrow; subst row'.
  destruct (nth_error row k) as [x'|] eqn:Ek; [|discriminate]. inversion Hx; subst x'.
  exists row, x. auto.
Qed.

Lemma take_rows (c : Np.array) (idx : list nat) (col : Np.array) :
  Np.take c idx = Ok col -> rows_of c idx col.
Proof.
  intros H. split; [eapply take_length; exact H|].
  intros j i Hj. destruct (traverse_nth _ _ _ _ _ H Hj) as (x & Hx & Hc).
  unfold Np.nth_or_raise in *.
  destruct (nth_error c i) as [x'|]; [|discriminate]. inversion Hx; subst x'.
  exists x. auto.
Qed.



(** C8, amended. For each filter, in the order of the grid, the generator
    assigns six columns: three of the simulated stream, [<band>_FLUX],
    [<band>_RATE], [<band>_VEGA], then three of the truth stream,
    [<band>_INPUT_FLUX], [<band>_INPUT_RATE], [<band>_INPUT_VEGA], where
    [<band>] is the upper-cased token after the last underscore of the
    filter; the columns of the grid names follow.  A name that is assigned
    again keeps its first place, so the column names of the table are the
    assigned names in order without repetition, and all of them when they
    are pairwise distinct. *)
Theorem filter_columns_in_order
        (sedgrid : SEDGrid) (noise : NoiseModel) (nsim : nat)
        (compl_filter : string) (ranseed : option Z)
        (vega_fname : option string) (weight_to_use : string)
        (w w' : world) (ot : Tbl.Table) :
  gen_SimObs_from_sedgrid sedgrid noise nsim compl_filter ranseed
                          vega_fname weight_to_use w = (Ok ot, w') ->
  let names := (flat_map six_names (filters sedgrid) ++ keys sedgrid)%list in
  (forall fname,
      six_names fname
      = [Str.band fname ++ "_FLUX"; Str.band fname ++ "_RATE";
         Str.band fname ++ "_VEGA"; Str.band fname ++ "_INPUT_FLUX";
         Str.band fname ++ "_INPUT_RATE"; Str.band fname ++ "_INPUT_VEGA"])
  /\ Tbl.colnames ot = fold_left add_name names []
  /\ (NoDup names -> Tbl.colnames ot = names).
Proof.
  intros H names. unfold gen_SimObs_from_sedgrid in H.
  apply bind_ok in H. destruct H as (picked & w1 & _ & Hb).
  apply build_table_spec in Hb. cbv zeta in Hb. destruct Hb as (Hc & _ & Hn).
  split; [reflexivity|]. split; [exact Hc|].
  intros Hnd. apply Hn. exact Hnd.
Qed.

End TableFacts.

(** *** Calls on the grids of the fixture *)


Lemma run3_ok : run3 = (Ok (table_of run3), snd run3).
Proof. apply run_of_is_ok. vm_compute. reflexivity. Qed.



Lemma filter_columns_in_order_witness :
  Tbl.colnames (table_of run3)
  = fold_left add_name
              (flat_map six_names (filters Fixture.grid3) ++ keys Fixture.grid3) [].
Proof.
  destruct (@filter_columns_in_order Fixture.env _ _ _ _ _ _ _ _ _ _ run3_ok)
    as (_ & H & _).
  exact H.
Defined.

(** The one filter of [Fixture.grid3] gives six columns, three of them of
    the simulated stream. *)
Lemma filter_columns_in_order_counterexample :
  filters Fixture.grid3 = ["HST_WFC3_F475W"]%string
  /\ keys Fixture.grid3 = ["Av"; "logA"; "weight"]%string
  /\ Tbl.colnames (table_of run3)
     = ["F475W_FLUX"; "F475W_RATE"; "F475W_VEGA"; "F475W_INPUT_FLUX";
        "F475W_INPUT_RATE"; "F475W_INPUT_VEGA"; "Av"; "logA"; "weight"]%string.
Proof. repeat split; vm_compute; reflexivity. Qed.

(** ** Letter case and band tokens *)

Module CaseFacts.

Import Str StrFacts.
Local Open Scope string_scope.

Lemma upper_char_idem (c : ascii) : upper_char (upper_char c) = upper_char c.
Proof. destruct c as [[] [] [] [] [] [] [] []]; reflexivity. Qed.

Lemma lower_upper_char (c : ascii) : lower_char (upper_char c) = lower_char c.
Proof. destruct c as [[] [] [] [] [] [] [] []]; reflexivity. Qed.

Lemma upper_lower_char (c : ascii) : upper_char (lower_char c) = upper_char c.
Proof. destruct c as [[] [] [] [] [] [] [] []]; reflexivity. Qed.

Lemma upper_char_underscore (c : ascii) :
  Ascii.eqb (upper_char c) underscore = Ascii.eqb c underscore.
Proof. destruct c as [[] [] [] [] [] [] [] []]; reflexivity. Qed.

Lemma lower_char_underscore (c : ascii) :
  Ascii.eqb (lower_char c) underscore = Ascii.eqb c underscore.
Proof. destruct c as [[] [] [] [] [] [] [] []]; reflexivity. Qed.

Lemma upper_idem (s : string) : upper (upper s) = upper s.
Proof. induction s as [|c r IH]; simpl; [|rewrite upper_char_idem, IH]; reflexivity. Qed.

Lemma lower_upper (s : string) : lower (upper s) = lower s.
Proof. induction s as [|c r IH]; simpl; [|rewrite lower_upper_char, IH]; reflexivity. Qed.

Lemma upper_lower (s : string) : upper (lower s) = upper s.
Proof. induction s as [|c r IH]; simpl; [|rewrite upper_lower_char, IH]; reflexivity. Qed.

Lemma split_upper (s : string) :
  split underscore (upper s) = map upper (split underscore s).
Proof.
  induction s as [|c r IH]; simpl; [reflexivity|].
  rewrite upper_char_underscore, IH.
  destruct (Ascii.eqb c underscore); [reflexivity|].
  destruct (split underscore r); reflexivity.
Qed.

Lemma split_lower (s : string) :
  split underscore (lower s) = map lower (split underscore s).
Proof.
  induction s as [|c r IH]; simpl; [reflexivity|].
  rewrite lower_char_underscore, IH.
  destruct (Ascii.eqb c underscore); [reflexivity|].
  destruct (split underscore r); reflexivity.
Qed.

Lemma last_map_string (f : string -> string) (l : list string) :
  f EmptyString = EmptyString ->
  last (map f l) EmptyString = f (last l EmptyString).
Proof.
  intros H. induction l as [|x r IH]; simpl; [symmetry; exact H|].
  destruct r as [|y r']; [reflexivity | exact IH].
Qed.

Lemma has_char_upper (s : string) :
  has_char underscore (upper s) = has_char underscore s.
Proof.
  induction s as [|c r IH]; simpl; [reflexivity|].
  rewrite upper_char_underscore, IH. reflexivity.
Qed.

Lemma split_no_underscore (s : string) :
  has_char underscore s = false -> split underscore s = [s].
Proof.
  induction s as [|c r IH]; simpl; intros H; [reflexivity|].
  apply orb_false_iff in H. destruct H as [H1 H2].
  rewrite H1, (IH H2). reflexivity.
Qed.

Lemma band_no_underscore (f : string) : has_char underscore (band f) = false.
Proof. unfold band. rewrite has_char_upper. apply last_token_spec. Qed.

(** X1. The band token [filter.split("_")[-1].upper()] holds no underscore,
    does not depend on the letter case of the filter name, and is its own
    band token. *)
Theorem band_token_normal_form (f : string) :
  has_char underscore (band f) = false
  /\ band (upper f) = band f
  /\ band (lower f) = band f
  /\ band (band f) = band f.
Proof.
  split; [apply band_no_underscore|]. split; [|split].
  - unfold band, last_token. rewrite split_upper, last_map_string by reflexivity.
    apply upper_idem.
  - unfold band, last_token. rewrite split_lower, last_map_string by reflexivity.
    apply upper_lower.
  - unfold band at 1. unfold last_token.
    rewrite (split_no_underscore _ (band_no_underscore f)).
    simpl. unfold band. apply upper_idem.
Qed.

(** Two names made of underscore-free heads and tails that begin with an
    underscore are equal only when heads and tails are. *)
Lemma head_tail_inj (b1 b2 t1 t2 : string) :
  has_char underscore b1 = false -> has_char underscore b2 = false ->
  b1 ++ String underscore t1 = b2 ++ String underscore t2 ->
  b1 = b2 /\ t1 = t2.
Proof.
  revert b2. induction b1 as [|c r IH]; intros b2 H1 H2 E.
  - destruct b2 as [|d r2]; simpl in *.
    + inversion E; auto.
    + inversion E; subst d. rewrite Ascii.eqb_refl in H2. discriminate.
  - destruct b2 as [|d r2]; simpl in *.
    + inversion E; subst c. rewrite Ascii.eqb_refl in H1. discriminate.
    + inversion E; subst d.
      apply orb_false_iff in H1. apply orb_false_iff in H2.
      destruct (IH r2 (proj2 H1) (proj2 H2) H3) as [-> ->]. auto.
Qed.

Lemma six_names_shape (f n : string) :
  In n (six_names f) -> exists t, n = band f ++ String underscore t.
Proof.
  unfold six_names. simpl.
  intros [<-|[<-|[<-|[<-|[<-|[<-|[]]]]]]]; eexists; reflexivity.
Qed.

Lemma six_names_NoDup (f : string) : NoDup (six_names f).
Proof.
  unfold six_names.
  repeat (constructor;
          [simpl; intros H;
           repeat (destruct H as [H|H]; [apply append_cancel in H; discriminate H|]);
           exact H|]).
  constructor.
Qed.

Lemma six_names_disjoint (f g n : string) :
  band f <> band g -> In n (six_names f) -> In n (six_names g) -> False.
Proof.
  intros Hne Hf Hg.
  destruct (six_names_shape _ _ Hf) as (t1 & E1).
  destruct (six_names_shape _ _ Hg) as (t2 & E2).
  apply Hne. rewrite E1 in E2.
  apply (head_tail_inj _ _ _ _ (band_no_underscore f) (band_no_underscore g) E2).
Qed.

(** X2. The column names of the filters of a grid are pairwise distinct exactly
    when their band tokens are: filters of different bands never share a
    column, filters of one band share all six. *)
Theorem filter_columns_collide_iff_bands_do (fs : list string) :
  NoDup (flat_map six_names fs) <-> NoDup (map band fs).
Proof.
  induction fs as [|f r IH].
  - simpl. split; constructor.
  - change (flat_map six_names (f :: r))
      with (six_names f ++ flat_map six_names r)%list.
    change (map band (f :: r)) with (band f :: map band r).
    split; intros H.
    + constructor.
      * intros Hin. apply in_map_iff in Hin. destruct Hin as (g & Eg & Hg).
        apply (NoDup_app_separate _ _ H (band f ++ "_FLUX")).
        -- unfold six_names. simpl. auto.
        -- apply in_flat_map. exists g. split; [exact Hg|].
           unfold six_names. rewrite Eg. simpl. auto.
      * apply IH. apply (NoDup_app_remove_l _ _ H).
    + inversion H as [|? ? Hn Hr]; subst.
      apply NoDup_app; [apply six_names_NoDup | apply IH; exact Hr|].
      intros n Hf Hg. apply in_flat_map in Hg. destruct Hg as (g & Hg & Hng).
      apply (six_names_disjoint f g n); [|exact Hf | exact Hng].
      intros E. apply Hn. rewrite E. apply in_map. exact Hg.
Qed.

End CaseFacts.

(** ** Collisions of names, and the state before the call *)

Section GeneratorFacts.

Context {env : NumpyEnv}.

Import F64 F64Facts NpFacts TblFacts CaseFacts.
Local Open Scope string_scope.
Local Open Scope float_scope.

(** X3. The completeness filter is requested without regard to letter case:
    two requests with the same upper-case form give the same call. *)
Theorem completeness_request_ignores_case
        (sedgrid : SEDGrid) (noise : NoiseModel) (nsim : nat)
        (compl_filter compl_filter' : string) (ranseed : option Z)
        (vega_fname : option string) (weight_to_use : string) :
  Str.upper compl_filter = Str.upper compl_filter' ->
  gen_SimObs_from_sedgrid sedgrid noise nsim compl_filter ranseed
                          vega_fname weight_to_use
  = gen_SimObs_from_sedgrid sedgrid noise nsim compl_filter' ranseed
                            vega_fname weight_to_use.
Proof.
  intros H.
  unfold gen_SimObs_from_sedgrid, pick_models, model_completeness, not_present_message.
  rewrite <- (lower_upper compl_filter), <- (lower_upper compl_filter'), H.
  reflexivity.
Qed.

(** The loop over the filters leaves, for a filter whose band no later
    filter has, the six columns of that filter's pass. *)
Lemma filters_loop_last
      (sedgrid : SEDGrid) (noise : NoiseModel) (model_compl : Np.array)
      (sim_indx : list nat) (vega_flux : Np.array) (fs : list string) :
  forall s ot w ot' w',
    for_each (combine (seq s (length fs)) fs)
             (simulate_filter sedgrid noise model_compl sim_indx vega_flux) ot w
    = (Ok ot', w') ->
    forall j fname,
      nth_error fs j = Some fname ->
      (forall j' g, j < j' -> nth_error fs j' = Some g -> Str.band g <> Str.band fname) ->
      exists f simflux vk,
        Np.take2 (seds sedgrid) sim_indx (s + j) = Ok f
        /\ nth_error vega_flux (s + j) = Some vk
        /\ Tbl.lookup ot' (Str.band fname ++ "_FLUX") = Some simflux
        /\ Tbl.lookup ot' (Str.band fname ++ "_RATE") = Some (Np.div_scalar simflux vk)
        /\ Tbl.lookup ot' (Str.band fname ++ "_VEGA")
           = Some (map mag_of_rate (Np.div_scalar simflux vk))
        /\ Tbl.lookup ot' (Str.band fname ++ "_INPUT_FLUX") = Some f
        /\ Tbl.lookup ot' (Str.band fname ++ "_INPUT_RATE") = Some (Np.div_scalar f vk)
        /\ Tbl.lookup ot' (Str.band fname ++ "_INPUT_VEGA")
           = Some (map mag_of_rate (Np.div_scalar f vk)).
Proof.
  induction fs as [|f0 r IH]; intros s ot w ot' w' H j fname Hj Hlater.
  - destruct j; discriminate.
  - simpl in H. apply bind_ok in H. destruct H as (ot1 & w1 & H1 & H).
    destruct j as [|j]; simpl in Hj.
    + inversion Hj; subst fname.
      apply simulate_filter_spec in H1. cbv zeta in H1.
      destruct H1 as (f & b & u & loc & simflux & vk & wa & Ef & _ & _ & _ & Ev & _ & _
                      & L1 & L2 & L3 & L4 & L5 & L6 & _).
      exists f, simflux, vk. rewrite Nat.add_0_r.
      split; [exact Ef|]. split; [exact Ev|].
      apply filters_loop_spec in H. destruct H as (_ & _ & O2 & _).
      assert (Hout : forall n, In n (six_names f0) -> ~ In n (flat_map six_names r)).
      { intros n Hn C. apply in_flat_map in C. destruct C as (g & Hg & Hng).
        destruct (In_nth_error _ _ Hg) as (j' & Hj').
        apply (six_names_disjoint g f0 n);
          [apply (Hlater (S j') g); [lia | exact Hj'] | exact Hng | exact Hn]. }
      unfold six_names in Hout. cbv zeta in Hout.
      rewrite !O2 by (apply Hout; simpl; auto 10).
      repeat (split; [assumption|]). assumption.
    + destruct (IH (S s) ot1 w1 ot' w' H j fname Hj) as (f & simflux & vk & Hf).
      { intros j' g Hlt Hg. apply (Hlater (S j') g); [lia | exact Hg]. }
      exists f, simflux, vk. rewrite <- Nat.add_succ_comm. exact Hf.
Qed.

(** The loop over the names of the grid leaves, under every name, the
    values of the grid for the picked models. *)
Lemma parameters_loop_last (sedgrid : SEDGrid) (sim_indx : list nat) (qs : list string) :
  forall ot w ot' w',
    for_each qs (copy_parameter sedgrid sim_indx) ot w = (Ok ot', w') ->
    forall q, In q qs ->
              exists c v, getitem sedgrid q = Ok c
                          /\ Np.take c sim_indx = Ok v
                          /\ Tbl.lookup ot' q = Some v.
Proof.
  induction qs as [|q0 r IH]; intros ot w ot' w' H q Hq; [destruct Hq|].
  simpl in H. apply bind_ok in H. destruct H as (ot1 & w1 & H1 & H).
  destruct (in_dec string_dec q r) as [Hr|Hr]; [exact (IH _ _ _ _ H q Hr)|].
  destruct Hq as [<-|Hq]; [|contradiction].
  unfold copy_parameter in H1.
  apply bind_ok in H1. destruct H1 as (c & wa & Hc & H1).
  apply lift_ok in Hc. destruct Hc as [Hc ->].
  apply bind_ok in H1. destruct H1 as (v & wb & Hv & H1).
  apply lift_ok in Hv. destruct Hv as [Hv ->].
  apply lift_ok in H1. destruct H1 as [H1 ->].
  exists c, v. split; [exact Hc|]. split; [exact Hv|].
  apply parameters_loop_spec in H. destruct H as (_ & _ & O2 & _).
  rewrite (O2 q0 Hr). apply (lookup_set_same _ _ _ _ H1).
Qed.

(** X4. Whatever names collide, a returned table is settled by what was
    assigned last.  Every name of the grid heads a column with the grid's
    values for the picked models, [sedgrid[q][sim_indx]], also when a
    filter produced a column of that name.  And for a filter [k] whose
    band no later filter has and whose six column names are no names of
    the grid, the six columns hold the values of filter [k]'s pass: the
    truth flux [flux[sim_indx, k]], the simulated flux, their rates over
    the reference flux of filter [k] and the magnitudes of these rates. *)
Theorem last_assignment_wins
        (sedgrid : SEDGrid) (noise : NoiseModel) (nsim : nat)
        (compl_filter : string) (ranseed : option Z)
        (vega_fname : option string) (weight_to_use : string)
        (w w' : world) (ot : Tbl.Table) :
  gen_SimObs_from_sedgrid sedgrid noise nsim compl_filter ranseed
                          vega_fname weight_to_use w = (Ok ot, w') ->
  exists model_compl sim_indx w1 vega_flux,
    pick_models sedgrid noise nsim compl_filter ranseed weight_to_use w
    = (Ok (model_compl, sim_indx), w1)
    /\ vega_getFlux vega_fname (filters sedgrid) = Ok vega_flux
    /\ (forall q, In q (keys sedgrid) ->
                  exists c col, getitem sedgrid q = Ok c
                                /\ Tbl.lookup ot q = Some col
                                /\ rows_of c sim_indx col)
    /\ (forall k fname,
           nth_error (filters sedgrid) k = Some fname ->
           (forall k' g, k < k' -> nth_error (filters sedgrid) k' = Some g ->
                         Str.band g <> Str.band fname) ->
           (forall n, In n (six_names fname) -> ~ In n (keys sedgrid)) ->
           exists truth simflux vk,
             nth_error vega_flux k = Some vk
             /\ rows_of2 (seds sedgrid) sim_indx k truth
             /\ Tbl.lookup ot (Str.band fname ++ "_INPUT_FLUX") = Some truth
             /\ Tbl.lookup ot (Str.band fname ++ "_INPUT_RATE")
                = Some (map (fun x => x / vk) truth)
             /\ Tbl.lookup ot (Str.band fname ++ "_INPUT_VEGA")
                = Some (map mag_of_rate (map (fun x => x / vk) truth))
             /\ Tbl.lookup ot (Str.band fname ++ "_FLUX") = Some simflux
             /\ Tbl.lookup ot (Str.band fname ++ "_RATE")
                = Some (map (fun x => x / vk) simflux)
             /\ Tbl.lookup ot (Str.band fname ++ "_VEGA")
                = Some (map mag_of_rate (map (fun x => x / vk) simflux))).
Proof.
  intros H. unfold gen_SimObs_from_sedgrid in H.
  apply bind_ok in H. destruct H as ([mc idx] & w1 & Hp & Hb). simpl in Hb.
  unfold build_table in Hb.
  apply bind_ok in Hb. destruct Hb as (vega & wa & Ev & Hb).
  apply lift_ok in Ev. destruct Ev as [Ev ->].
  apply bind_ok in Hb. destruct Hb as (ot1 & w2 & H1 & H2).
  unfold enumerate in H1.
  exists mc, idx, w1, vega. split; [exact Hp|]. split; [exact Ev|]. split.
  - intros q Hq.
    destruct (parameters_loop_last _ _ _ _ _ _ _ H2 q Hq) as (c & v & Hc & Hv & Hl).
    exists c, v. split; [exact Hc|]. split; [exact Hl|]. apply take_rows. exact Hv.
  - intros k fname Hk Hlater Hkeys.
    destruct (filters_loop_last _ _ _ _ _ _ _ _ _ _ _ H1 k fname Hk Hlater)
      as (f & simflux & vk & Ef & Evk & L1 & L2 & L3 & L4 & L5 & L6).
    apply parameters_loop_spec in H2. destruct H2 as (_ & _ & O2 & _).
    unfold six_names in Hkeys. cbv zeta in Hkeys.
    exists f, simflux, vk. simpl in Ef, Evk.
    split; [exact Evk|]. split; [apply take2_rows; exact Ef|].
    rewrite !O2 by (apply Hkeys; simpl; auto 10).
    unfold Np.div_scalar in *.
    repeat (split; [assumption|]). assumption.
Qed.

(** *** The state before the call *)

Lemma entropy_seeded_prefix {A B : Type} (m : M A) (k : A -> M B) :
  blind m -> frame eq m -> (forall a, entropy_seeded (k a)) ->
  entropy_seeded (bind m k).
Proof.
  intros Hb Hf Hk w1 w2 E U. unfold bind.
  specialize (Hb w1 w2).
  destruct (Hf w1) as (_ & E1 & U1). destruct (Hf w2) as (_ & E2 & U2).
  destruct (m w1) as [[a|e] w1'], (m w2) as [[a'|e'] w2']; simpl in *;
    try discriminate; inversion Hb; subst.
  - apply Hk; congruence.
  - split; [reflexivity | discriminate].
Qed.

Lemma entropy_seeded_tail {A B : Type} (m : M A) (k : A -> M B) :
  entropy_seeded m -> (forall a, state_only (k a)) -> entropy_seeded (bind m k).
Proof.
  intros Hm Hk w1 w2 E U. unfold bind. destruct (Hm w1 w2 E U) as [R S].
  destruct (m w1) as [[a|e] w1'], (m w2) as [[a'|e'] w2']; simpl in *;
    try discriminate; inversion R; subst.
  - destruct (Hk a' w1' w2' (S eq_refl)) as [R' S']. split; [exact R' | intros _; exact S'].
  - split; [reflexivity | discriminate].
Qed.

Lemma entropy_seeded_seed (ranseed : option Z) :
  entropy_seeded (np_random_seed ranseed).
Proof.
  intros w1 w2 E U. unfold np_random_seed. destruct ranseed as [s|].
  - destruct (seed_in_range s); simpl; split; auto; discriminate.
  - simpl. split; [reflexivity|]. intros _. congruence.
Qed.

Lemma entropy_seeded_gen (sedgrid : SEDGrid) (noise : NoiseModel) (nsim : nat)
      (compl_filter : string) (ranseed : option Z) (vega_fname : option string)
      (weight_to_use : string) :
  entropy_seeded (gen_SimObs_from_sedgrid sedgrid noise nsim compl_filter ranseed
                                          vega_fname weight_to_use).
Proof.
  unfold gen_SimObs_from_sedgrid.
  apply entropy_seeded_tail; [|intros picked; apply state_only_build_table].
  unfold pick_models.
  apply entropy_seeded_prefix;
    [apply blind_model_completeness
    | apply (frame_model_completeness eq (@eq_refl nat) (@eq_trans nat)) | intros mc].
  apply entropy_seeded_prefix;
    [apply blind_lift | apply (frame_lift eq (@eq_refl nat)) | intros lo].
  apply entropy_seeded_prefix;
    [apply blind_lift | apply (frame_lift eq (@eq_refl nat)) | intros hi].
  apply entropy_seeded_prefix;
    [apply blind_print | apply (frame_print eq (@eq_refl nat)) | intros _].
  apply entropy_seeded_prefix;
    [apply blind_lift | apply (frame_lift eq (@eq_refl nat)) | intros gw].
  apply entropy_seeded_tail; [apply entropy_seeded_seed | intros _].
  apply state_only_bind; [apply state_only_choice | intros idx].
  apply state_only_ret.
Qed.

(** X5. The generator always reseeds ([if not None:] holds), so the state of
    numpy's global generator before the call never shows in the result,
    with a seed or without: two calls with the same arguments that find the
    same system entropy return the same table or raise the same exception,
    whatever the generator states they start in. *)
Theorem prior_generator_state_is_discarded
        (sedgrid : SEDGrid) (noise : NoiseModel) (nsim : nat)
        (compl_filter : string) (ranseed : option Z)
        (vega_fname : option string) (weight_to_use : string) (w1 w2 : world) :
  entropy w1 = entropy w2 ->
  entropy_used w1 = entropy_used w2 ->
  fst (gen_SimObs_from_sedgrid sedgrid noise nsim compl_filter ranseed
                               vega_fname weight_to_use w1)
  = fst (gen_SimObs_from_sedgrid sedgrid noise nsim compl_filter ranseed
                                 vega_fname weight_to_use w2).
Proof.
  intros E U. apply entropy_seeded_gen; assumption.
Qed.

End GeneratorFacts.

Lemma run_twice_ok : run_twice = (Ok (table_of run_twice), snd run_twice).
Proof. apply run_of_is_ok. vm_compute. reflexivity. Qed.


Lemma completeness_request_ignores_case_witness :
  Fixture.run Fixture.grid3 Fixture.noise3 4 "f475w"%string 42%Z
  = Fixture.run Fixture.grid3 Fixture.noise3 4 "F475W"%string 42%Z.
Proof.
  unfold Fixture.run.
  rewrite (@completeness_request_ignores_case Fixture.env Fixture.grid3 Fixture.noise3 4
             "f475w"%string "F475W"%string (Some 42%Z) None "weight"%string eq_refl).
  reflexivity.
Defined.

Lemma last_assignment_wins_witness :
  exists sim_indx truth,
    rows_of2 (seds Fixture.grid_twice) sim_indx 1 truth
    /\ Tbl.lookup (table_of run_twice) "F475W_INPUT_FLUX" = Some truth.
Proof.
  destruct (@last_assignment_wins Fixture.env _ _ _ _ _ _ _ _ _ _ run_twice_ok)
    as (mc & idx & w1 & vega & _ & _ & _ & H).
  destruct (H 1 "HST_ACS_WFC_F475W"%string eq_refl)
    as (truth & simflux & vk & _ & Hrows & Hl & _).
  - intros [|[|k']] g Hlt Hg; [lia | lia | destruct k'; discriminate Hg].
  - intros n Hn Hk. simpl in Hn, Hk.
    destruct Hk as [<-|[<-|[]]];
      repeat (destruct Hn as [Hn|Hn]; [discriminate Hn|]); destruct Hn.
  - exists idx, truth. split; [exact Hrows | exact Hl].
Defined.

Lemma prior_generator_state_is_discarded_witness :
  np_state Fixture.world0 = 7%Z
  /\ np_state Scenario.world1 = 99%Z
  /\ fst (@gen_SimObs_from_sedgrid Fixture.env Fixture.grid3 Fixture.noise3 4
            "f475w"%string None None "weight"%string Fixture.world0)
     = fst (@gen_SimObs_from_sedgrid Fixture.env Fixture.grid3 Fixture.noise3 4
              "f475w"%string None None "weight"%string Scenario.world1).
Proof.
  split; [reflexivity|]. split; [reflexivity|].
  apply (@prior_generator_state_is_discarded Fixture.env); reflexivity.
Defined.

(** ** Where a call fails *)

Section FailureFacts.

Context {env : NumpyEnv}.

Import F64 F64Facts NpFacts TblFacts.
Local Open Scope string_scope.
Local Open Scope float_scope.

Lemma nan_div_l x y : is_nan x = true -> is_nan (x / y) = true.
Proof.
  rewrite !is_nan_sf, div_spec. unfold sf_nan.
  destruct (Prim2SF x); try discriminate. intros _. reflexivity.
Qed.

Lemma nan_mul_l x y : is_nan x = true -> is_nan (x * y) = true.
Proof.
  rewrite !is_nan_sf, mul_spec. unfold sf_nan.
  destruct (Prim2SF x); try discriminate. intros _. reflexivity.
Qed.

Lemma nan_mul_r x y : is_nan y = true -> is_nan (x * y) = true.
Proof.
  rewrite !is_nan_sf, mul_spec. unfold sf_nan.
  destruct (Prim2SF y); try discriminate. intros _.
  destruct (Prim2SF x); reflexivity.
Qed.

Lemma existsb_nan_div (raw : list float) (s : float) :
  existsb is_nan raw = true -> existsb is_nan (Np.div_scalar raw s) = true.
Proof.
  unfold Np.div_scalar. induction raw as [|x r IH]; simpl; [discriminate|].
  intros H. apply orb_true_iff in H. apply orb_true_iff. destruct H as [H|H].
  - left. apply nan_div_l. exact H.
  - right. apply IH. exact H.
Qed.

Lemma gridweights_ok (sedgrid : SEDGrid) (weight_to_use : string)
      (model_compl p : Np.array) :
  gridweights sedgrid weight_to_use model_compl = Ok p ->
  exists weights raw,
    getitem sedgrid weight_to_use = Ok weights
    /\ Np.mul weights model_compl = Ok raw
    /\ p = Np.div_scalar raw (np_sum raw).
Proof.
  unfold gridweights. intros H.
  apply rbind_ok in H. destruct H as (weights & Hw & H).
  apply rbind_ok in H. destruct H as (raw & Hr & H).
  inversion H. eauto.
Qed.

(** X6. When the models are picked, the sum of the products of weight and
    completeness was a finite number other than zero, and no product, so
    no weight and no completeness that entered one, was a NaN. *)
Theorem accepted_weights_are_regular
        (sedgrid : SEDGrid) (noise : NoiseModel) (nsim : nat)
        (compl_filter : string) (ranseed : option Z) (weight_to_use : string)
        (w w' : world) (picked : Np.array * list nat) :
  pick_models sedgrid noise nsim compl_filter ranseed weight_to_use w
  = (Ok picked, w') ->
  exists weights raw,
    getitem sedgrid weight_to_use = Ok weights
    /\ Np.mul weights (fst picked) = Ok raw
    /\ is_finite (np_sum raw) = true
    /\ is_zero (np_sum raw) = false
    /\ existsb is_nan raw = false
    /\ (length weights = length (fst picked) ->
        existsb is_nan weights = false /\ existsb is_nan (fst picked) = false).
Proof.
  intros H. apply pick_models_ok in H.
  destruct H as (w0 & p & w1 & w2 & _ & Hg & _ & Hc).
  apply np_random_choice_ok in Hc. destruct Hc as (Hc & _).
  apply gridweights_ok in Hg. destruct Hg as (weights & raw & Hw & Hr & Hp).
  exists weights, raw. split; [exact Hw|]. split; [exact Hr|].
  assert (Hdeg : degenerate (np_sum raw) = false).
  { destruct (degenerate (np_sum raw)) eqn:D; [|reflexivity].
    rewrite degenerate_special in D.
    destruct (check_p_special (length (seds sedgrid)) nsim p) as (e & He).
    - rewrite Hp. apply div_scalar_special. exact D.
    - rewrite He in Hc. discriminate. }
  unfold degenerate in Hdeg. apply orb_false_iff in Hdeg. destruct Hdeg as [Hz Hf].
  apply negb_false_iff in Hf.
  assert (Hnan : existsb is_nan raw = false).
  { destruct (existsb is_nan raw) eqn:N; [|reflexivity].
    apply (existsb_nan_div raw (np_sum raw)) in N. rewrite <- Hp in N.
    apply kahan_sum_nan in N. apply check_p_ok in Hc.
    destruct Hc as (_ & Hc & _). rewrite Hc in N. discriminate. }
  split; [exact Hf|]. split; [exact Hz|]. split; [exact Hnan|].
  intros Hlen.
  unfold Np.mul in Hr. rewrite (broadcast_same _ _ _ Hlen) in Hr.
  inversion Hr as [Hraw]. rewrite <- Hraw in Hnan. clear - Hnan Hlen.
  revert Hlen Hnan. generalize (fst picked) as c.
  induction weights as [|x r IH]; intros [|y c] Hlen Hnan; simpl in *;
    try discriminate; [split; reflexivity|].
  apply orb_false_iff in Hnan. destruct Hnan as [Hxy Hrest].
  injection Hlen as Hlen. destruct (IH c Hlen Hrest) as [Hr Hc].
  rewrite Hr, Hc.
  destruct (is_nan x) eqn:Nx; [rewrite (nan_mul_l x y Nx) in Hxy; discriminate|].
  destruct (is_nan y) eqn:Ny; [rewrite (nan_mul_r x y Ny) in Hxy; discriminate|].
  split; reflexivity.
Qed.

(** X7. A noise model without models makes the call raise, whatever the
    completeness filter, and before the generator is reseeded: the state
    of the generator and the entropy of the system are as before the
    call. *)
Theorem empty_noise_model_fails
        (sedgrid : SEDGrid) (noise : NoiseModel) (nsim : nat)
        (compl_filter : string) (ranseed : option Z)
        (vega_fname : option string) (weight_to_use : string) (w : world) :
  completeness noise = [] ->
  let call := gen_SimObs_from_sedgrid sedgrid noise nsim compl_filter ranseed
                                      vega_fname weight_to_use in
  is_ok (fst (call w)) = false
  /\ np_state (snd (call w)) = np_state w
  /\ entropy_used (snd (call w)) = entropy_used w.
Proof.
  intros Hc call. unfold call, gen_SimObs_from_sedgrid, pick_models, model_completeness.
  rewrite Hc.
  destruct (String.eqb (Str.lower compl_filter) "max").
  - simpl. repeat split; reflexivity.
  - destruct (negb (Str.mem (Str.upper compl_filter) (map Str.band (filters sedgrid)))).
    + simpl. repeat split; reflexivity.
    + unfold bind, lift, print. simpl.
      destruct (Str.index (Str.upper compl_filter) (map Str.band (filters sedgrid)));
        [|simpl; repeat split; reflexivity].
      destruct (Np.nth_or_raise (filters sedgrid) n); simpl;
        repeat split; reflexivity.
Qed.

(** X8. A weight name that is no column of the grid makes the call raise the
    [KeyError] of the name, after the completeness is printed and before
    the generator is reseeded. *)
Theorem missing_weight_column_fails
        (sedgrid : SEDGrid) (noise : NoiseModel) (nsim : nat)
        (compl_filter : string) (ranseed : option Z)
        (vega_fname : option string) (weight_to_use : string)
        (w w0 : world) (x : float) (model_compl : Np.array) :
  model_completeness sedgrid noise compl_filter w = (Ok (x :: model_compl), w0) ->
  Tbl.lookup (grid sedgrid) weight_to_use = None ->
  exists lo hi,
    gen_SimObs_from_sedgrid sedgrid noise nsim compl_filter ranseed
                            vega_fname weight_to_use w
    = (Raise (KeyError weight_to_use), snd (print (OutFloats [lo; hi]) w0))
    /\ np_state (snd (print (OutFloats [lo; hi]) w0)) = np_state w
    /\ entropy_used (snd (print (OutFloats [lo; hi]) w0)) = entropy_used w.
Proof.
  intros Hm Hk.
  destruct (model_completeness_frame _ _ _ _ _ _ Hm) as (S1 & _ & S2).
  unfold gen_SimObs_from_sedgrid, pick_models.
  do 2 eexists. split.
  - unfold bind at 1. unfold bind at 1. rewrite Hm.
    unfold gridweights, getitem, Tbl.get. rewrite Hk. simpl. reflexivity.
  - simpl. split; assumption.
Qed.

(** X9. The reference fluxes are asked for after the models are picked: when
    the Vega library raises, the call raises the same exception in the
    state the selection left, with the generator reseeded and advanced by
    the draws. *)
Theorem vega_failure_comes_after_sampling
        (sedgrid : SEDGrid) (noise : NoiseModel) (nsim : nat)
        (compl_filter : string) (ranseed : option Z)
        (vega_fname : option string) (weight_to_use : string)
        (w w1 : world) (picked : Np.array * list nat) (e : exn) :
  pick_models sedgrid noise nsim compl_filter ranseed weight_to_use w
  = (Ok picked, w1) ->
  vega_getFlux vega_fname (filters sedgrid) = Raise e ->
  gen_SimObs_from_sedgrid sedgrid noise nsim compl_filter ranseed
                          vega_fname weight_to_use w = (Raise e, w1)
  /\ (forall s, ranseed = Some s ->
                exists p, gridweights sedgrid weight_to_use (fst picked) = Ok p
                          /\ draw_many nsim p (init_by_seed s)
                             = (snd picked, np_state w1)).
Proof.
  intros Hp Hv. split.
  - unfold gen_SimObs_from_sedgrid. rewrite (bind_step _ _ _ _ _ Hp).
    unfold build_table, bind, lift. rewrite Hv. reflexivity.
  - intros s ->. apply pick_models_ok in Hp.
    destruct Hp as (w0 & p & wa & wb & _ & Hg & Hs & Hc).
    apply np_random_choice_ok in Hc. destruct Hc as (_ & Hd & _).
    exists p. split; [exact Hg|].
    unfold np_random_seed in Hs. destruct (seed_in_range s); [|discriminate].
    inversion Hs; subst wb. exact Hd.
Qed.

End FailureFacts.

Lemma pick_no_vega_ok :
  pick_no_vega = (Ok (value_of ([], []) pick_no_vega), snd pick_no_vega).
Proof. apply run_of_ok. vm_compute. reflexivity. Qed.

Lemma accepted_weights_are_regular_witness :
  exists raw,
    Np.mul [1; 1; 1]%float (fst (value_of ([], []) pick3)) = Ok raw
    /\ is_finite (@np_sum Fixture.env raw) = true
    /\ is_zero (@np_sum Fixture.env raw) = false
    /\ existsb is_nan raw = false.
Proof.
  destruct (@accepted_weights_are_regular Fixture.env _ _ _ _ _ _ _ _ _ pick3_ok)
    as (weights & raw & Hw & Hr & Hf & Hz & Hn & _).
  inversion Hw; subst weights.
  exists raw. repeat split; assumption.
Defined.

Lemma empty_noise_model_fails_witness :
  is_ok (fst (@gen_SimObs_from_sedgrid Fixture.env Fixture.grid3 Scenario.noise_empty 4
                "f475w"%string None None "weight"%string Fixture.world0)) = false
  /\ np_state (snd (@gen_SimObs_from_sedgrid Fixture.env Fixture.grid3
                      Scenario.noise_empty 4 "f475w"%string None None
                      "weight"%string Fixture.world0)) = 7%Z.
Proof.
  destruct (@empty_noise_model_fails Fixture.env Fixture.grid3 Scenario.noise_empty 4
              "f475w"%string None None "weight"%string Fixture.world0 eq_refl)
    as (H1 & H2 & _).
  split; [exact H1 | exact H2].
Defined.

Lemma missing_weight_column_fails_witness :
  exists lo hi,
    @gen_SimObs_from_sedgrid Fixture.env Fixture.grid3 Fixture.noise3 4
                             "max"%string (Some 42%Z) None "prior_weight"%string
                             Fixture.world0
    = (Raise (KeyError "prior_weight"),
       snd (print (OutFloats [lo; hi]) Fixture.world0)).
Proof.
  destruct (@missing_weight_column_fails Fixture.env Fixture.grid3 Fixture.noise3 4
              "max"%string (Some 42%Z) None "prior_weight"%string
              Fixture.world0 Fixture.world0 0.5%float [0.5; 1]%float eq_refl eq_refl)
    as (lo & hi & H & _).
  exists lo, hi. exact H.
Defined.

Lemma vega_failure_comes_after_sampling_witness :
  @gen_SimObs_from_sedgrid Scenario.env_no_vega Fixture.grid3 Fixture.noise3 4
                           "f475w"%string (Some 42%Z) None "weight"%string
                           Scenario.world_no_vega
  = (Raise (KeyError "HST_WFC3_F475W"), snd pick_no_vega).
Proof.
  apply (@vega_failure_comes_after_sampling Scenario.env_no_vega _ _ _ _ _ _ _ _ _ _ _
           pick_no_vega_ok eq_refl).
Defined.

(** ** The catalog: construction, rows and iteration *)

Module CatalogFacts.

Import Observations Catalog ObservationsFacts.
Local Open Scope string_scope.

Lemma dict_get_set_same (d : list (string * string)) (k v : string) :
  dict_get (dict_set d k v) k = Ok v.
Proof.
  induction d as [|[k0 v0] r IH]; simpl.
  - rewrite String.eqb_refl. reflexivity.
  - destruct (String.eqb k0 k) eqn:E; simpl; rewrite E; [reflexivity | exact IH].
Qed.

Lemma dict_get_set_other (d : list (string * string)) (k v k' : string) :
  k' <> k -> dict_get (dict_set d k v) k' = dict_get d k'.
Proof.
  intros Hne. induction d as [|[k0 v0] r IH]; simpl.
  - destruct (String.eqb k k') eqn:E; [|reflexivity].
    apply String.eqb_eq in E. congruence.
  - destruct (String.eqb k0 k) eqn:E; simpl.
    + apply String.eqb_eq in E. subst k0.
      destruct (String.eqb k k') eqn:E'; [|reflexivity].
      apply String.eqb_eq in E'. congruence.
    + rewrite IH. reflexivity.
Qed.

Lemma fill_aliases_none (d : list (string * string)) (iks : list (nat * string)) :
  iks <> [] -> fill_aliases d iks None = Raise TypeError.
Proof. destruct iks as [|[ik k] r]; [congruence | reflexivity]. Qed.

Lemma fill_aliases_spec (names : list string) (fs : list string) :
  forall s d,
    (s + length fs <= length names ->
     exists d', fill_aliases d (combine (seq s (length fs)) fs) (Some names) = Ok d'
                /\ (forall k, ~ In k fs -> dict_get d' k = dict_get d k)
                /\ (forall j f, nth_error fs j = Some f ->
                                (forall j', j < j' -> nth_error fs j' <> Some f) ->
                                exists v, nth_error names (s + j) = Some v
                                          /\ dict_get d' f = Ok v))
    /\ (s <= length names -> length names < s + length fs ->
        fill_aliases d (combine (seq s (length fs)) fs) (Some names) = Raise IndexError).
Proof.
  induction fs as [|f0 r IH]; intros s d; simpl.
  - split; [|lia]. intros _. exists d. split; [reflexivity|]. split; [reflexivity|].
    intros [|j] f Hj; discriminate.
  - unfold Np.nth_or_raise.
    destruct (nth_error names s) as [v0|] eqn:Hs.
    + simpl. destruct (IH (S s) (dict_set d f0 v0)) as [Hok Hbad]. split.
      * intros Hlen. destruct Hok as (d' & Hd' & Hout & Hin); [lia|].
        exists d'. split; [exact Hd'|]. split.
        -- intros k Hk. rewrite Hout by tauto.
           apply dict_get_set_other. intros E. apply Hk. left. congruence.
        -- intros [|j] f Hj Hlast; simpl in Hj.
           ++ inversion Hj; subst f0. exists v0. rewrite Nat.add_0_r.
              split; [exact Hs|]. rewrite Hout; [apply dict_get_set_same|].
              intros C. destruct (In_nth_error _ _ C) as (j' & Hj').
              apply (Hlast (S j')); [lia | exact Hj'].
           ++ destruct (Hin j f Hj) as (v & Hv & Hg).
              { intros j' Hlt. apply (Hlast (S j')). lia. }
              exists v. rewrite <- Nat.add_succ_comm. split; assumption.
      * intros Hs' Hlen. apply Hbad; [|lia].
        apply Nat.le_succ_l. apply nth_error_Some. congruence.
    + simpl. apply nth_error_None in Hs. split; [lia | reflexivity].
Qed.

(** X10. [filter_aliases] maps each internal name to the catalog name at the
    same position; of a repeated internal name, the last position counts;
    other names are no keys. *)
Theorem aliases_follow_positions
        (filters names : list string) (d : list (string * string)) :
  init_aliases filters (Some names) = Ok d ->
  length filters <= length names
  /\ (forall i f, nth_error filters i = Some f ->
                  (forall i', i < i' -> nth_error filters i' <> Some f) ->
                  exists v, nth_error names i = Some v /\ dict_get d f = Ok v)
  /\ (forall k, ~ In k filters -> dict_get d k = Raise (KeyError k)).
Proof.
  unfold init_aliases. intros H.
  destruct (fill_aliases_spec names filters 0 []) as [Hok Hbad].
  destruct (Nat.le_gt_cases (length filters) (length names)) as [Hle|Hgt].
  - destruct Hok as (d' & Hd' & Hout & Hin); [exact Hle|].
    rewrite Hd' in H. inversion H; subst d'.
    split; [exact Hle|]. split; [exact Hin|].
    intros k Hk. rewrite (Hout k Hk). reflexivity.
  - rewrite Hbad in H by lia. discriminate.
Qed.

Lemma aliases_follow_positions_witness :
  dict_get [("HST_WFC3_F475W", "f475w"); ("HST_WFC3_F814W", "f814w")] "HST_WFC3_F814W"
  = Ok "f814w".
Proof.
  destruct (@aliases_follow_positions ["HST_WFC3_F475W"; "HST_WFC3_F814W"]
              ["f475w"; "f814w"; "f110w"]
              [("HST_WFC3_F475W", "f475w"); ("HST_WFC3_F814W", "f814w")] eq_refl)
    as (_ & H & _).
  destruct (H 1 "HST_WFC3_F814W" eq_refl) as (v & Hv & Hd).
  - intros [|[|i']] Hlt; [lia | lia | destruct i'; discriminate].
  - inversion Hv; subst v. exact Hd.
Defined.


Lemma py_index_spec (len : nat) (i : Z) :
  ((0 <= i < Z.of_nat len)%Z -> py_index len i = Ok (Z.to_nat i))
  /\ ((- Z.of_nat len <= i < 0)%Z -> py_index len i = Ok (Z.to_nat (i + Z.of_nat len)))
  /\ ((i < - Z.of_nat len \/ Z.of_nat len <= i)%Z -> py_index len i = Raise IndexError).
Proof.
  unfold py_index. split; [|split]; intros H.
  - replace ((0 <=? i)%Z && (i <? Z.of_nat len)%Z) with true; [reflexivity|].
    symmetry. apply andb_true_iff. lia.
  - replace ((0 <=? i)%Z && (i <? Z.of_nat len)%Z) with false
      by (symmetry; apply andb_false_iff; lia).
    replace ((- Z.of_nat len <=? i)%Z && (i <? 0)%Z) with true; [reflexivity|].
    symmetry. apply andb_true_iff. lia.
  - replace ((0 <=? i)%Z && (i <? Z.of_nat len)%Z) with false
      by (symmetry; apply andb_false_iff; lia).
    replace ((- Z.of_nat len <=? i)%Z && (i <? 0)%Z) with false; [reflexivity|].
    symmetry. apply andb_false_iff. lia.
Qed.

Lemma mul_ok_nth (a b flux : Np.array) :
  length a = length b -> Np.mul a b = Ok flux ->
  length flux = length a
  /\ forall i x, nth_error a i = Some x ->
                 exists v, nth_error b i = Some v /\ nth_error flux i = Some (x * v)%float.
Proof.
  intros Hlen H. unfold Np.mul in H. rewrite (broadcast_same _ _ _ Hlen) in H.
  inversion H as [Hf]. split.
  - rewrite length_map, length_combine. lia.
  - intros i x Hx.
    destruct (nth_error b i) as [v|] eqn:Hv.
    + exists v. split; [reflexivity|].
      rewrite nth_error_map, (nth_error_combine_some _ _ _ _ _ Hx Hv). reflexivity.
    + apply nth_error_None in Hv. assert (i < length a) by (apply nth_error_Some; congruence).
      lia.
Qed.

Lemma row_spec (data : Tbl.Table) (num : Z) (d : nat) :
  row data num = Ok d ->
  d < Tbl.nrows data
  /\ Z.of_nat d = (if (0 <=? num)%Z then num else num + Z.of_nat (Tbl.nrows data))%Z.
Proof.
  intros Hd. split; [apply (py_index_bound _ _ _ Hd)|].
  unfold row, py_index in Hd.
  destruct ((0 <=? num)%Z && (num <? Z.of_nat (Tbl.nrows data))%Z) eqn:E1.
  - apply andb_true_iff in E1. destruct E1 as [E1 E2]. rewrite E1.
    inversion Hd. apply Z.leb_le in E1. lia.
  - destruct ((- Z.of_nat (Tbl.nrows data) <=? num)%Z && (num <? 0)%Z) eqn:E2;
      [|discriminate].
    apply andb_true_iff in E2. destruct E2 as [E2 E3].
    apply Z.ltb_lt in E3. apply Z.leb_le in E2.
    replace (0 <=? num)%Z with false by (symmetry; apply Z.leb_gt; exact E3).
    inversion Hd. lia.
Qed.

(** The steps of a call of [getFlux] that returns. *)
Lemma getFlux_steps (self : t) (num : Z) (flux : Np.array) :
  getFlux self num false = Ok flux ->
  exists vega d raw,
    vega_flux self = Some vega
    /\ row (data self) num = Ok d
    /\ traverse (fun ok => rbind (dict_get (filter_aliases self) ok)
                                 (fun name => row_get (data self) d name))
                (filters self) = Ok raw
    /\ Np.mul raw vega = Ok flux.
Proof.
  unfold getFlux. intros H.
  destruct (vega_flux self) as [vega|]; [|discriminate].
  apply rbind_ok in H. destruct H as (d & Hd & H).
  apply rbind_ok in H. destruct H as (raw & Hraw & H).
  apply rbind_ok in H. destruct H as (fl & Hmul & H). inversion H; subst fl.
  exists vega, d, raw. repeat split; assumption.
Qed.

(** The entry of a row that [getFlux] reads for one filter. *)
Lemma row_entry (self : t) (d : nat) (raw : Np.array) (i : nat) (f : string) :
  traverse (fun ok => rbind (dict_get (filter_aliases self) ok)
                            (fun name => row_get (data self) d name))
           (filters self) = Ok raw ->
  nth_error (filters self) i = Some f ->
  exists name col x,
    dict_get (filter_aliases self) f = Ok name
    /\ Tbl.lookup (data self) name = Some col
    /\ nth_error col d = Some x
    /\ nth_error raw i = Some x.
Proof.
  intros Hraw Hf.
  destruct (traverse_nth _ _ _ _ _ Hraw Hf) as (x & Hx & Hxi).
  apply rbind_ok in Hx. destruct Hx as (name & Hname & Hx).
  unfold row_get in Hx. apply rbind_ok in Hx. destruct Hx as (col & Hcol & Hx).
  apply TblFacts.get_ok in Hcol.
  unfold Np.nth_or_raise in Hx.
  destruct (nth_error col d) as [x'|] eqn:Hx'; [|discriminate]. inversion Hx; subst x'.
  exists name, col, x. repeat split; assumption.
Qed.

(** X13. A flux array [getFlux] returns has, for each filter, the entry of the
    catalog's row under the filter's alias times the filter's Vega flux;
    the row is [num] counted from the start, or from the end when [num] is
    negative. *)
Theorem returned_flux_is_row_times_vega (self : t) (num : Z) (flux : Np.array) :
  getFlux self num false = Ok flux ->
  exists vega d,
    vega_flux self = Some vega
    /\ d < Tbl.nrows (data self)
    /\ Z.of_nat d = (if (0 <=? num)%Z then num else num + Z.of_nat (Tbl.nrows (data self)))%Z
    /\ (length vega = length (filters self) ->
        length flux = length (filters self)
        /\ forall i f,
            nth_error (filters self) i = Some f ->
            exists name col x v,
              dict_get (filter_aliases self) f = Ok name
              /\ Tbl.lookup (data self) name = Some col
              /\ nth_error col d = Some x
              /\ nth_error vega i = Some v
              /\ nth_error flux i = Some (x * v)%float).
Proof.
  intros H. destruct (getFlux_steps _ _ _ H) as (vega & d & raw & Hv & Hd & Hraw & Hmul).
  destruct (row_spec _ _ _ Hd) as [Hlt Hz].
  exists vega, d. split; [exact Hv|]. split; [exact Hlt|]. split; [exact Hz|].
  intros Hlen.
  pose proof (traverse_length _ _ _ Hraw) as Hl.
  destruct (mul_ok_nth raw vega flux) as [Hfl Hnth]; [congruence | exact Hmul |].
  split; [congruence|].
  intros i f Hf.
  destruct (row_entry _ _ _ _ _ Hraw Hf) as (name & col & x & Hname & Hcol & Hx & Hxi).
  destruct (Hnth i x Hxi) as (v & Hvi & Hfi).
  exists name, col, x, v. repeat (split; [assumption|]). assumption.
Qed.

Lemma returned_flux_is_row_times_vega_witness :
  exists d, Z.of_nat d = 1%Z /\ d < 2.
Proof.
  destruct (@returned_flux_is_row_times_vega aliased_catalog (-1)%Z [2; 4]%float eq_refl)
    as (vega & d & _ & Hd & Hz & _).
  exists d. split; [exact Hz | exact Hd].
Defined.

Section Constructor.

Context {env : NumpyEnv}.
Variable table_read : string -> result Tbl.Table.

(** X11. The constructor looks at the catalog's column names first: with the
    default [obs_colnames=None] and at least one filter it raises
    [TypeError], with fewer column names than filters [IndexError], in both
    cases without reading the file or asking for Vega fluxes.  With enough
    names it fails exactly when the file cannot be read or, then, when the
    Vega fluxes cannot be had, with the exception of that step. *)
Theorem constructor_checks_names_first
        (inputFile : source) (filters : list string) (vega_fname desc : option string) :
  (filters <> [] ->
   init table_read inputFile filters None vega_fname desc = Raise TypeError)
  /\ (forall names,
         length names < length filters ->
         init table_read inputFile filters (Some names) vega_fname desc
         = Raise IndexError)
  /\ (forall names,
         length filters <= length names ->
         (forall e, readData table_read inputFile = Raise e ->
                    init table_read inputFile filters (Some names) vega_fname desc
                    = Raise e)
         /\ (forall data e,
                readData table_read inputFile = Ok data ->
                vega_getFlux vega_fname filters = Raise e ->
                init table_read inputFile filters (Some names) vega_fname desc
                = Raise e)
         /\ (forall data vega,
                readData table_read inputFile = Ok data ->
                vega_getFlux vega_fname filters = Ok vega ->
                is_ok (init table_read inputFile filters (Some names) vega_fname desc)
                = true)).
Proof.
  unfold init, init_aliases. split; [|split].
  - intros Hf. rewrite fill_aliases_none; [reflexivity|].
    destruct filters; [congruence | discriminate].
  - intros names Hlen.
    destruct (fill_aliases_spec names filters 0 []) as [_ Hbad].
    rewrite Hbad by lia. reflexivity.
  - intros names Hlen.
    destruct (fill_aliases_spec names filters 0 []) as [Hok _].
    destruct Hok as (d' & Hd' & _); [exact Hlen|]. rewrite Hd'. simpl.
    split; [|split].
    + intros e ->. reflexivity.
    + intros data e -> Hv. simpl. unfold setVegaFluxes. rewrite Hv. reflexivity.
    + intros data vega -> Hv. simpl. unfold setVegaFluxes. rewrite Hv. reflexivity.
Qed.

(** X12. A catalog the constructor returns holds the table that was read and
    the Vega fluxes of its filters, and its fluxes are those of the
    catalog's columns by position: for filter [i] (the last of its name),
    [getFlux(num)[i]] is the entry of the column [obs_colnames[i]] in the
    row times the Vega flux [i]. *)
Theorem constructed_catalog_flux
        (inputFile : source) (filters names : list string)
        (vega_fname desc : option string) (c : obj) :
  init table_read inputFile filters (Some names) vega_fname desc = Ok c ->
  exists data vega,
    readData table_read inputFile = Ok data
    /\ vega_getFlux vega_fname filters = Ok vega
    /\ Observations.filters (core c) = filters
    /\ Observations.data (core c) = data
    /\ vega_flux (core c) = Some vega
    /\ (length vega = length filters ->
        forall num flux,
          getFlux (core c) num false = Ok flux ->
          exists d,
            d < Tbl.nrows data
            /\ Z.of_nat d = (if (0 <=? num)%Z then num else num + Z.of_nat (Tbl.nrows data))%Z
            /\ length flux = length filters
            /\ forall i f,
                nth_error filters i = Some f ->
                (forall i', i < i' -> nth_error filters i' <> Some f) ->
                exists name col x v,
                  nth_error names i = Some name
                  /\ Tbl.lookup data name = Some col
                  /\ nth_error col d = Some x
                  /\ nth_error vega i = Some v
                  /\ nth_error flux i = Some (x * v)%float).
Proof.
  unfold init, init_aliases. intros H.
  apply rbind_ok in H. destruct H as (aliases & Ha & H).
  apply rbind_ok in H. destruct H as (data & Hd & H).
  apply rbind_ok in H. destruct H as (vega & Hv & H).
  inversion H; subst c; clear H. simpl.
  exists data, vega. split; [exact Hd|]. split; [exact Hv|].
  split; [reflexivity|]. split; [reflexivity|]. split; [reflexivity|].
  intros Hlen num flux Hf.
  destruct (getFlux_steps _ _ _ Hf) as (vega' & d & raw & Ev & Hrow & Hraw & Hmul).
  simpl in *. inversion Ev; subst vega'.
  destruct (row_spec _ _ _ Hrow) as [Hlt Hz].
  pose proof (traverse_length _ _ _ Hraw) as Hl.
  destruct (mul_ok_nth raw vega flux) as [Hfl Hnth]; [congruence | exact Hmul |].
  exists d. split; [exact Hlt|]. split; [exact Hz|]. split; [congruence|].
  intros i f Hi Hlast.
  destruct (row_entry {| Observations.filters := filters;
                         filter_aliases := aliases;
                         data := data;
                         vega_flux := Some vega |} d raw i f Hraw Hi)
    as (name & col & x & Hname & Hcol & Hx & Hxi).
  simpl in *.
  destruct (Hnth i x Hxi) as (v & Hvi & Hfi).
  destruct (fill_aliases_spec names filters 0 []) as [Hok Hbad].
  destruct (Nat.le_gt_cases (length filters) (length names)) as [Hle|Hgt];
    [|rewrite Hbad in Ha by lia; discriminate].
  destruct Hok as (d' & Hd' & _ & Hin); [exact Hle|].
  rewrite Hd' in Ha. inversion Ha; subst d'.
  destruct (Hin i f Hi Hlast) as (name' & Hn' & Hg).
  rewrite Hg in Hname. inversion Hname; subst name'.
  exists name, col, x, v. repeat (split; [assumption|]). assumption.
Qed.

End Constructor.

(** X14. With [units=True], [getFlux] never returns: it raises what the call
    without units raises, and [AttributeError] where that call returns. *)
Theorem units_are_never_returned (self : t) (num : Z) :
  getFlux self num true
  = rbind (getFlux self num false)
          (fun _ => Raise (AttributeError "'bool' object has no attribute 'erg'"))
  /\ is_ok (getFlux self num true) = false.
Proof.
  unfold getFlux.
  destruct (vega_flux self) as [vega|]; [|split; reflexivity].
  destruct (row (data self) num) as [d|]; [|split; reflexivity]. simpl.
  destruct (traverse _ (filters self)) as [raw|]; [|split; reflexivity]. simpl.
  destruct (Np.mul raw vega); split; reflexivity.
Qed.

(** X15. Row numbers: with Vega fluxes set, a number outside
    [[-len, len)] raises [IndexError], and a negative number in the range
    gives the flux of the row counted from the end. *)
Theorem rows_count_from_either_end
        (self : t) (num : Z) (units : bool) (vega : Np.array) :
  vega_flux self = Some vega ->
  let n := Z.of_nat (nObs self) in
  ((num < - n \/ n <= num)%Z -> getFlux self num units = Raise IndexError)
  /\ ((- n <= num < 0)%Z -> getFlux self num units = getFlux self (num + n) units).
Proof.
  intros Hv n. unfold getFlux, row, nObs in *. rewrite Hv. subst n.
  destruct (py_index_spec (Tbl.nrows (data self)) num) as (_ & Hneg & Hout).
  destruct (py_index_spec (Tbl.nrows (data self))
                          (num + Z.of_nat (Tbl.nrows (data self)))) as (Hin & _).
  split; intros H.
  - rewrite (Hout H). reflexivity.
  - rewrite (Hneg H), Hin by lia. reflexivity.
Qed.

Lemma rows_count_from_either_end_witness :
  getFlux aliased_catalog 2 false = Raise IndexError
  /\ getFlux aliased_catalog (-1) false = getFlux aliased_catalog 1 false.
Proof.
  destruct (@rows_count_from_either_end aliased_catalog 2%Z false [0.5; 0.25]%float eq_refl)
    as [H _].
  destruct (@rows_count_from_either_end aliased_catalog (-1)%Z false [0.5; 0.25]%float eq_refl)
    as [_ H'].
  split; [apply H; simpl; lia | apply H'; simpl; lia].
Defined.

(** *** Iteration *)

Lemma generate_spec {A B : Type} (f : A -> result B) (xs : list A) :
  let ys := fst (generate f xs) in
  length ys <= length xs
  /\ (forall j y, nth_error ys j = Some y ->
                  exists x, nth_error xs j = Some x /\ f x = Ok y)
  /\ match snd (generate f xs) with
     | None => length ys = length xs
     | Some e => exists x, nth_error xs (length ys) = Some x /\ f x = Raise e
     end.
Proof.
  induction xs as [|x r IH]; simpl.
  - split; [lia|]. split; [|reflexivity]. intros [|j] y Hj; discriminate.
  - destruct (f x) as [b|e] eqn:Hx.
    + destruct (generate f r) as [ys e']. simpl in *.
      destruct IH as (Hlen & Hnth & He). split; [lia|]. split.
      * intros [|j] y Hj; simpl in Hj.
        -- inversion Hj; subst. exists x. split; [reflexivity | exact Hx].
        -- apply Hnth. exact Hj.
      * destruct e'; [exact He | lia].
    + simpl. split; [lia|]. split.
      * intros [|j] y Hj; discriminate.
      * exists x. split; [reflexivity | exact Hx].
Qed.

Lemma generate_numbered {B : Type} (f : nat -> result B) (n : nat) :
  forall s,
    generate (fun k => rbind (f k) (fun b => Ok (k, b))) (seq s n)
    = (combine (seq s (length (fst (generate f (seq s n))))) (fst (generate f (seq s n))),
       snd (generate f (seq s n))).
Proof.
  induction n as [|n IH]; intros s; simpl; [reflexivity|].
  destruct (f s) as [b|e]; simpl; [|reflexivity].
  rewrite IH. destruct (generate f (seq (S s) n)) as [ys e]. reflexivity.
Qed.

(** X16. [enumobs()] yields what [iterobs()] yields, numbered from 0, and ends
    with the same exception if [iterobs()] ends with one. *)
Theorem enumobs_numbers_iterobs (self : t) :
  enumobs self
  = (combine (seq 0 (length (fst (iterobs self)))) (fst (iterobs self)),
     snd (iterobs self)).
Proof.
  unfold enumobs, iterobs.
  apply (generate_numbered (fun k => getObs self (Z.of_nat k))).
Qed.

Lemma traverse_is_ok_ext {A B : Type} (f g : A -> result B) (xs : list A) :
  (forall x, In x xs -> is_ok (f x) = is_ok (g x)) ->
  is_ok (traverse f xs) = is_ok (traverse g xs).
Proof.
  induction xs as [|x r IH]; simpl; intros H; [reflexivity|].
  pose proof (H x (or_introl eq_refl)) as Hx.
  assert (Hr : is_ok (traverse f r) = is_ok (traverse g r)) by (apply IH; intros; apply H; auto).
  destruct (f x), (g x); simpl in *; try discriminate; try reflexivity.
  destruct (traverse f r), (traverse g r); simpl in *; try discriminate; reflexivity.
Qed.

Lemma mul_is_ok_length (a a' b : Np.array) :
  length a = length a' -> is_ok (Np.mul a b) = is_ok (Np.mul a' b).
Proof.
  intros H. unfold Np.mul, Np.broadcast, Np.broadcast_pairs. rewrite <- H.
  destruct (length a =? length b)%nat; [reflexivity|].
  destruct a as [|x [|x2 a]], a' as [|y [|y2 a']]; simpl in H; try discriminate;
    try reflexivity.
  destruct b as [|z [|z2 b]]; reflexivity.
Qed.

(** In a table whose columns have the table's length, whether [getObs]
    returns does not depend on the row. *)
Lemma getObs_is_ok_any_row (self : t) (j k : nat) :
  columns_aligned (data self) ->
  j < nObs self -> k < nObs self ->
  is_ok (getObs self (Z.of_nat j)) = is_ok (getObs self (Z.of_nat k)).
Proof.
  intros Hal Hj Hk. unfold getObs, getFlux, row, nObs in *.
  destruct (vega_flux self) as [vega|]; [|reflexivity].
  destruct (py_index_spec (Tbl.nrows (data self)) (Z.of_nat j)) as (Ej & _).
  destruct (py_index_spec (Tbl.nrows (data self)) (Z.of_nat k)) as (Ek & _).
  rewrite Ej, Ek by lia. rewrite !Nat2Z.id. simpl.
  set (fj := fun ok => rbind (dict_get (filter_aliases self) ok)
                             (fun name => row_get (data self) j name)).
  set (fk := fun ok => rbind (dict_get (filter_aliases self) ok)
                             (fun name => row_get (data self) k name)).
  assert (Hext : is_ok (traverse fj (filters self)) = is_ok (traverse fk (filters self))).
  { apply traverse_is_ok_ext. intros ok _. unfold fj, fk.
    destruct (dict_get (filter_aliases self) ok) as [name|]; [|reflexivity]. simpl.
    unfold row_get, Tbl.get.
    destruct (Tbl.lookup (data self) name) as [c|] eqn:Hc; [|reflexivity]. simpl.
    unfold Np.nth_or_raise. pose proof (Hal _ _ Hc) as Hlen.
    destruct (nth_error c j) eqn:Nj; [|apply nth_error_None in Nj; lia].
    destruct (nth_error c k) eqn:Nk; [|apply nth_error_None in Nk; lia].
    reflexivity. }
  destruct (traverse fj (filters self)) as [rj|] eqn:Tj,
           (traverse fk (filters self)) as [rk|] eqn:Tk;
    simpl in Hext; try discriminate; [|reflexivity].
  simpl.
  assert (Hl : length rj = length rk).
  { rewrite (traverse_length _ _ _ Tj), (traverse_length _ _ _ Tk). reflexivity. }
  pose proof (mul_is_ok_length rj rk vega Hl) as Hm.
  destruct (Np.mul rj vega), (Np.mul rk vega); simpl in *; try discriminate; reflexivity.
Qed.

(** X17. On a catalog whose columns have the table's length, [iterobs()] is all
    or nothing: it yields the flux of every row, in order, or it raises at
    the first row what [getObs(0)] raises. *)
Theorem iterobs_is_all_or_nothing (self : t) :
  columns_aligned (data self) ->
  (snd (iterobs self) = None
   /\ length (fst (iterobs self)) = nObs self
   /\ forall k flux, nth_error (fst (iterobs self)) k = Some flux ->
                     getObs self (Z.of_nat k) = Ok flux)
  \/ (fst (iterobs self) = []
      /\ exists e, snd (iterobs self) = Some e /\ getObs self 0 = Raise e).
Proof.
  intros Hal. unfold iterobs.
  pose proof (generate_spec (fun k => getObs self (Z.of_nat k)) (seq 0 (nObs self))) as H.
  cbv zeta in H.
  destruct (generate (fun k => getObs self (Z.of_nat k)) (seq 0 (nObs self))) as [ys oe].
  simpl in *. destruct H as (Hlen & Hnth & He). rewrite length_seq in Hlen.
  assert (Hseq : forall j x, nth_error (seq 0 (nObs self)) j = Some x ->
                             x = j /\ j < nObs self).
  { intros j x Hj.
    assert (Hlt : j < nObs self).
    { rewrite <- (length_seq (nObs self) 0). apply nth_error_Some.
      rewrite Hj. discriminate. }
    split; [|exact Hlt].
    pose proof (nth_error_nth _ _ 0 Hj) as Hn. rewrite seq_nth in Hn by exact Hlt.
    simpl in Hn. congruence. }
  destruct oe as [e|].
  - right. destruct He as (x & Hx & Hr).
    destruct (Hseq _ _ Hx) as [Ex Hxl]. subst x.
    destruct ys as [|y ys].
    + split; [reflexivity|]. exists e. split; [reflexivity | exact Hr].
    + exfalso. destruct (Hnth 0 y eq_refl) as (x0 & Hx0 & Hy).
      destruct (Hseq _ _ Hx0) as [Ex0 H0]. subst x0.
      pose proof (getObs_is_ok_any_row self 0 (length (y :: ys)) Hal H0 Hxl) as Hsame.
      rewrite Hy, Hr in Hsame. discriminate Hsame.
  - left. split; [reflexivity|]. rewrite length_seq in He. split; [exact He|].
    intros k flux Hk. destruct (Hnth k flux Hk) as (x & Hx & Hy).
    destruct (Hseq _ _ Hx) as [Ex _]. subst x. exact Hy.
Qed.

End CatalogFacts.

Lemma aliased_catalog_aligned : columns_aligned (Observations.data aliased_catalog).
Proof.
  intros name c Hc. simpl in Hc.
  repeat match type of Hc with
         | (if ?b then _ else _) = _ => destruct b
         end; inversion Hc; reflexivity.
Qed.

Lemma iterobs_is_all_or_nothing_witness :
  Catalog.iterobs aliased_catalog = ([[1; 2]; [2; 4]]%float, None)
  /\ ((snd (Catalog.iterobs aliased_catalog) = None
       /\ length (fst (Catalog.iterobs aliased_catalog)) = Observations.nObs aliased_catalog
       /\ forall k flux, nth_error (fst (Catalog.iterobs aliased_catalog)) k = Some flux ->
                         Observations.getObs aliased_catalog (Z.of_nat k) = Ok flux)
      \/ (fst (Catalog.iterobs aliased_catalog) = []
          /\ exists e, snd (Catalog.iterobs aliased_catalog) = Some e
                       /\ Observations.getObs aliased_catalog 0 = Raise e)).
Proof.
  split; [reflexivity|].
  apply (CatalogFacts.iterobs_is_all_or_nothing aliased_catalog aliased_catalog_aligned).
Defined.

Lemma constructed_catalog_flux_witness :
  exists data vega,
    @Catalog.readData Scenario.table_read (Catalog.FromFile "phot.fits") = Ok data
    /\ @vega_getFlux Fixture.env None ["HST_WFC3_F475W"; "HST_WFC3_F814W"]%string = Ok vega
    /\ Observations.vega_flux (Catalog.core Scenario.built) = Some vega.
Proof.
  destruct (@CatalogFacts.constructed_catalog_flux Fixture.env Scenario.table_read
              (Catalog.FromFile "phot.fits")
              ["HST_WFC3_F475W"; "HST_WFC3_F814W"]%string ["f475w"; "f814w"]%string
              None None Scenario.built eq_refl)
    as (data & vega & Hd & Hv & _ & _ & Hs & _).
  exists data, vega. split; [exact Hd|]. split; [exact Hv | exact Hs].
Defined.
